(** * The scroll-to-dynamic controller of react-virtualizer

    A shallow embedding of
    [packages/react-virtualizer/src/hooks/useScrollToDynamicController.ts]
    and the properties its specification states about it.

    Conventions of the embedding
    - JavaScript numbers that carry pixels are exact rationals ([Q]); counters,
      indices, identifiers and timer handles are integers ([Z]).  Rounding,
      NaN and the clamping a browser applies to [scrollTop] are not modelled;
      [pinDuration = Infinity] is [None].
    - Operation objects live in a store addressed by their [id] (every object
      is created by [start] under a fresh id).  [operationRef] holds the
      address of the current one; closures capture the id of the operation
      they were created for.
    - Each [useTimeout] / [useAnimationFrame] hook instance is a one-slot
      scheduler: arming it replaces the callback it holds.  Timers carry no
      delay: a pending callback may fire at any later step.
    - Notification props ([onOperationComplete], [onOperationCancel],
      [onPinReleased], [setFlaggedIndex]) and the per-operation [callback]
      are recorded in a log, newest first; they do not call back into the
      controller.  Console output and [lastMeasurementTimestamp], which is
      written and never read, are left out. *)

From Stdlib Require Import ZArith QArith Qabs Qminmax Lia Lqa List Bool.
From stdpp Require Import gmap.
Import ListNotations.
Open Scope Z_scope.

(** ** Data model *)

Inductive Axis := horizontal | vertical.
Inductive ScrollBehavior := smooth | instant | auto.
Inductive Status := initial | correcting | stable.
Inductive CancelReason := user | cancelled.

Definition Status_eqb (a b : Status) : bool :=
  match a, b with
  | initial, initial | correcting, correcting | stable, stable => true
  | _, _ => false
  end.

Definition isSome {A} (x : option A) : bool :=
  match x with Some _ => true | None => false end.

Definition isNull {A} (x : option A) : bool := negb (isSome x).

(** [a < b] on rationals, as a boolean. *)
Definition Qltb (a b : Q) : bool := negb (Qle_bool b a).

(** Pixel tolerance for viewport alignment. *)
Definition VIEWPORT_TOLERANCE : Q := 1.
(** Number of stable iterations required before finalization. *)
Definition DEFAULT_CORRECTION_SETTLE : Z := 2.
(** Minimum delta threshold for anchor adjustments. *)
Definition ANCHOR_DELTA_EPSILON : Q := 1 # 4.
(** Default maximum number of correction attempts. *)
Definition DEFAULT_MAX_CORRECTIONS : Z := 10.

Module Op.

(** [ScrollOperation]: the state of one scroll-to request. *)
Record t := mk {
  id : Z;
  targetIndex : Z;
  behavior : ScrollBehavior;
  callback : bool;                 (* whether [start] was given a callback *)
  correctionsRemaining : Z;
  pendingCorrection : bool;
  stabilityTimeoutId : option Z;
  pinTimeoutId : option Z;
  scheduleFrameId : option Z;
  status : Status;
  maintainPosition : bool;
  isPinned : bool;
  isProgrammaticScroll : bool;
  hasMeasuredTarget : bool;
  stableIterations : Z;
  pendingAnchorDelta : Q;
  anchorFrameId : option Z;
  initialAlignmentPerformed : bool
}.

Definition set_correctionsRemaining v o :=
  mk (id o) (targetIndex o) (behavior o) (callback o) v (pendingCorrection o)
     (stabilityTimeoutId o) (pinTimeoutId o) (scheduleFrameId o) (status o)
     (maintainPosition o) (isPinned o) (isProgrammaticScroll o)
     (hasMeasuredTarget o) (stableIterations o) (pendingAnchorDelta o)
     (anchorFrameId o) (initialAlignmentPerformed o).
Definition set_pendingCorrection v o :=
  mk (id o) (targetIndex o) (behavior o) (callback o) (correctionsRemaining o) v
     (stabilityTimeoutId o) (pinTimeoutId o) (scheduleFrameId o) (status o)
     (maintainPosition o) (isPinned o) (isProgrammaticScroll o)
     (hasMeasuredTarget o) (stableIterations o) (pendingAnchorDelta o)
     (anchorFrameId o) (initialAlignmentPerformed o).
Definition set_stabilityTimeoutId v o :=
  mk (id o) (targetIndex o) (behavior o) (callback o) (correctionsRemaining o)
     (pendingCorrection o) v (pinTimeoutId o) (scheduleFrameId o) (status o)
     (maintainPosition o) (isPinned o) (isProgrammaticScroll o)
     (hasMeasuredTarget o) (stableIterations o) (pendingAnchorDelta o)
     (anchorFrameId o) (initialAlignmentPerformed o).
Definition set_pinTimeoutId v o :=
  mk (id o) (targetIndex o) (behavior o) (callback o) (correctionsRemaining o)
     (pendingCorrection o) (stabilityTimeoutId o) v (scheduleFrameId o) (status o)
     (maintainPosition o) (isPinned o) (isProgrammaticScroll o)
     (hasMeasuredTarget o) (stableIterations o) (pendingAnchorDelta o)
     (anchorFrameId o) (initialAlignmentPerformed o).
Definition set_scheduleFrameId v o :=
  mk (id o) (targetIndex o) (behavior o) (callback o) (correctionsRemaining o)
     (pendingCorrection o) (stabilityTimeoutId o) (pinTimeoutId o) v (status o)
     (maintainPosition o) (isPinned o) (isProgrammaticScroll o)
     (hasMeasuredTarget o) (stableIterations o) (pendingAnchorDelta o)
     (anchorFrameId o) (initialAlignmentPerformed o).
Definition set_status v o :=
  mk (id o) (targetIndex o) (behavior o) (callback o) (correctionsRemaining o)
     (pendingCorrection o) (stabilityTimeoutId o) (pinTimeoutId o)
     (scheduleFrameId o) v
     (maintainPosition o) (isPinned o) (isProgrammaticScroll o)
     (hasMeasuredTarget o) (stableIterations o) (pendingAnchorDelta o)
     (anchorFrameId o) (initialAlignmentPerformed o).
Definition set_isPinned v o :=
  mk (id o) (targetIndex o) (behavior o) (callback o) (correctionsRemaining o)
     (pendingCorrection o) (stabilityTimeoutId o) (pinTimeoutId o)
     (scheduleFrameId o) (status o)
     (maintainPosition o) v (isProgrammaticScroll o)
     (hasMeasuredTarget o) (stableIterations o) (pendingAnchorDelta o)
     (anchorFrameId o) (initialAlignmentPerformed o).
Definition set_isProgrammaticScroll v o :=
  mk (id o) (targetIndex o) (behavior o) (callback o) (correctionsRemaining o)
     (pendingCorrection o) (stabilityTimeoutId o) (pinTimeoutId o)
     (scheduleFrameId o) (status o)
     (maintainPosition o) (isPinned o) v
     (hasMeasuredTarget o) (stableIterations o) (pendingAnchorDelta o)
     (anchorFrameId o) (initialAlignmentPerformed o).
Definition set_hasMeasuredTarget v o :=
  mk (id o) (targetIndex o) (behavior o) (callback o) (correctionsRemaining o)
     (pendingCorrection o) (stabilityTimeoutId o) (pinTimeoutId o)
     (scheduleFrameId o) (status o)
     (maintainPosition o) (isPinned o) (isProgrammaticScroll o)
     v (stableIterations o) (pendingAnchorDelta o)
     (anchorFrameId o) (initialAlignmentPerformed o).
Definition set_stableIterations v o :=
  mk (id o) (targetIndex o) (behavior o) (callback o) (correctionsRemaining o)
     (pendingCorrection o) (stabilityTimeoutId o) (pinTimeoutId o)
     (scheduleFrameId o) (status o)
     (maintainPosition o) (isPinned o) (isProgrammaticScroll o)
     (hasMeasuredTarget o) v (pendingAnchorDelta o)
     (anchorFrameId o) (initialAlignmentPerformed o).
Definition set_pendingAnchorDelta v o :=
  mk (id o) (targetIndex o) (behavior o) (callback o) (correctionsRemaining o)
     (pendingCorrection o) (stabilityTimeoutId o) (pinTimeoutId o)
     (scheduleFrameId o) (status o)
     (maintainPosition o) (isPinned o) (isProgrammaticScroll o)
     (hasMeasuredTarget o) (stableIterations o) v
     (anchorFrameId o) (initialAlignmentPerformed o).
Definition set_anchorFrameId v o :=
  mk (id o) (targetIndex o) (behavior o) (callback o) (correctionsRemaining o)
     (pendingCorrection o) (stabilityTimeoutId o) (pinTimeoutId o)
     (scheduleFrameId o) (status o)
     (maintainPosition o) (isPinned o) (isProgrammaticScroll o)
     (hasMeasuredTarget o) (stableIterations o) (pendingAnchorDelta o)
     v (initialAlignmentPerformed o).
Definition set_initialAlignmentPerformed v o :=
  mk (id o) (targetIndex o) (behavior o) (callback o) (correctionsRemaining o)
     (pendingCorrection o) (stabilityTimeoutId o) (pinTimeoutId o)
     (scheduleFrameId o) (status o)
     (maintainPosition o) (isPinned o) (isProgrammaticScroll o)
     (hasMeasuredTarget o) (stableIterations o) (pendingAnchorDelta o)
     (anchorFrameId o) v.

End Op.

(** [ScrollToDynamicControllerParams], the props the controller reads.
    [gap], [getItemSize] and [getTotalSize] are only forwarded to
    [scrollToItemDynamic]; [stabilityTimeout] is only a timer delay. *)
Record Params := {
  axis : Axis;
  reversed : bool;
  getOffsetForIndex : option (Z -> option Q);  (* [None] result: null, undefined or not finite *)
  maintainPosition : bool;
  maxCorrections : Z;
  pinDuration : option Q
}.

(** The host environment.
    [canUseAnimationFrame] and [canUseTimeout] are what [getDefaultView]
    offers; [hookWindow] tells whether the timer hooks have a window to arm
    real timers on: without one [useTimeout] arms nothing and answers [-1],
    and [useAnimationFrame] runs the callback at once and answers [0].
    [hostScrollTo] and [scrollToItemDynamic] give the scroll position
    [(scrollTop, scrollLeft)] that the absolute positioning primitives leave
    behind. *)
Record Host := {
  canUseAnimationFrame : bool;
  canUseTimeout : bool;
  hookWindow : bool;
  hostScrollTo : Q -> ScrollBehavior -> Q * Q -> Q * Q;
  scrollToItemDynamic : Z -> ScrollBehavior -> Q * Q -> Q * Q
}.

Record DOMRect := { top : Q; left : Q; bottom : Q; right : Q }.

(** What the DOM shows while one handler runs: the scroll view
    ([scrollViewRef.current], with its bounding rectangle) and the measured
    elements ([measureRefObject.current[index]]). *)
Record Layout := {
  scrollView : option DOMRect;
  measured : Z -> option DOMRect
}.

(** Calls that leave the controller. *)
Inductive Effect :=
| EScrollBy (ax : Axis) (amount : Q)       (* scrollTop / scrollLeft += amount *)
| EScrollTo (offset : Q) (b : ScrollBehavior)
| EScrollToItemDynamic (index : Z) (b : ScrollBehavior)
| ECallback (index : Z)                    (* operation.callback(targetIndex) *)
| EOperationComplete (index : Z)
| EOperationCancel (index : Z) (reason : CancelReason)
| EPinReleased (index : Z)
| ESetFlaggedIndex (index : option Z).

(** The hook instances of the controller. *)
Inductive Slot :=
| StabilityTimeout | PinTimeout | AnchorTimeout
| ProgrammaticFrame | CorrectionFrame | AnchorFrame.

Record World := mkWorld {
  ops : gmap Z Op.t;
  operationRef : option Z;
  scrollListenerRef : bool;
  operationIdRef : Z;
  stabilityTimeoutSlot : option Z;
  pinTimeoutSlot : option Z;
  anchorTimeoutSlot : option Z;
  programmaticFrameSlot : option Z;
  correctionFrameSlot : option Z;
  anchorFrameSlot : option Z;
  nextHandle : Z;
  scrollTop : Q;
  scrollLeft : Q;
  domScrollListener : bool;
  log : list Effect
}.

Definition set_ops v w :=
  mkWorld v (operationRef w) (scrollListenerRef w) (operationIdRef w)
    (stabilityTimeoutSlot w) (pinTimeoutSlot w) (anchorTimeoutSlot w)
    (programmaticFrameSlot w) (correctionFrameSlot w) (anchorFrameSlot w)
    (nextHandle w) (scrollTop w) (scrollLeft w) (domScrollListener w) (log w).
Definition set_operationRef v w :=
  mkWorld (ops w) v (scrollListenerRef w) (operationIdRef w)
    (stabilityTimeoutSlot w) (pinTimeoutSlot w) (anchorTimeoutSlot w)
    (programmaticFrameSlot w) (correctionFrameSlot w) (anchorFrameSlot w)
    (nextHandle w) (scrollTop w) (scrollLeft w) (domScrollListener w) (log w).
Definition set_scrollListenerRef v w :=
  mkWorld (ops w) (operationRef w) v (operationIdRef w)
    (stabilityTimeoutSlot w) (pinTimeoutSlot w) (anchorTimeoutSlot w)
    (programmaticFrameSlot w) (correctionFrameSlot w) (anchorFrameSlot w)
    (nextHandle w) (scrollTop w) (scrollLeft w) (domScrollListener w) (log w).
Definition set_operationIdRef v w :=
  mkWorld (ops w) (operationRef w) (scrollListenerRef w) v
    (stabilityTimeoutSlot w) (pinTimeoutSlot w) (anchorTimeoutSlot w)
    (programmaticFrameSlot w) (correctionFrameSlot w) (anchorFrameSlot w)
    (nextHandle w) (scrollTop w) (scrollLeft w) (domScrollListener w) (log w).
Definition set_nextHandle v w :=
  mkWorld (ops w) (operationRef w) (scrollListenerRef w) (operationIdRef w)
    (stabilityTimeoutSlot w) (pinTimeoutSlot w) (anchorTimeoutSlot w)
    (programmaticFrameSlot w) (correctionFrameSlot w) (anchorFrameSlot w)
    v (scrollTop w) (scrollLeft w) (domScrollListener w) (log w).
Definition set_scroll (v : Q * Q) w :=
  mkWorld (ops w) (operationRef w) (scrollListenerRef w) (operationIdRef w)
    (stabilityTimeoutSlot w) (pinTimeoutSlot w) (anchorTimeoutSlot w)
    (programmaticFrameSlot w) (correctionFrameSlot w) (anchorFrameSlot w)
    (nextHandle w) (fst v) (snd v) (domScrollListener w) (log w).
Definition set_domScrollListener v w :=
  mkWorld (ops w) (operationRef w) (scrollListenerRef w) (operationIdRef w)
    (stabilityTimeoutSlot w) (pinTimeoutSlot w) (anchorTimeoutSlot w)
    (programmaticFrameSlot w) (correctionFrameSlot w) (anchorFrameSlot w)
    (nextHandle w) (scrollTop w) (scrollLeft w) v (log w).
Definition set_log v w :=
  mkWorld (ops w) (operationRef w) (scrollListenerRef w) (operationIdRef w)
    (stabilityTimeoutSlot w) (pinTimeoutSlot w) (anchorTimeoutSlot w)
    (programmaticFrameSlot w) (correctionFrameSlot w) (anchorFrameSlot w)
    (nextHandle w) (scrollTop w) (scrollLeft w) (domScrollListener w) v.

Definition getSlot (s : Slot) (w : World) : option Z :=
  match s with
  | StabilityTimeout => stabilityTimeoutSlot w
  | PinTimeout => pinTimeoutSlot w
  | AnchorTimeout => anchorTimeoutSlot w
  | ProgrammaticFrame => programmaticFrameSlot w
  | CorrectionFrame => correctionFrameSlot w
  | AnchorFrame => anchorFrameSlot w
  end.

Definition setSlot (s : Slot) (v : option Z) (w : World) : World :=
  let pick s' := match s, s' with
                 | StabilityTimeout, StabilityTimeout | PinTimeout, PinTimeout
                 | AnchorTimeout, AnchorTimeout
                 | ProgrammaticFrame, ProgrammaticFrame
                 | CorrectionFrame, CorrectionFrame | AnchorFrame, AnchorFrame => v
                 | _, _ => getSlot s' w
                 end in
  mkWorld (ops w) (operationRef w) (scrollListenerRef w) (operationIdRef w)
    (pick StabilityTimeout) (pick PinTimeout) (pick AnchorTimeout)
    (pick ProgrammaticFrame) (pick CorrectionFrame) (pick AnchorFrame)
    (nextHandle w) (scrollTop w) (scrollLeft w) (domScrollListener w) (log w).

(** The controller before any call: no operation, nothing scheduled. *)
Definition initialWorld : World :=
  mkWorld ∅ None false 0 None None None None None None 1 0%Q 0%Q false [].

(** ** Handlers as state transformers

    A handler maps a world to the world it leaves, or to [None] when the
    synchronous re-entry depth exceeds the fuel of the model. *)

Definition M := World -> option World.

Definition ret : M := Some.

Definition seq (f g : M) : M :=
  fun w => match f w with Some w' => g w' | None => None end.

Notation "f >> g" := (seq f g) (at level 62, right associativity).

Definition withOp (a : Z) (k : Op.t -> M) : M :=
  fun w => match ops w !! a with Some o => k o w | None => None end.

Definition modOp (a : Z) (f : Op.t -> Op.t) : M :=
  fun w => Some (set_ops (alter f a (ops w)) w).

Definition emit (e : Effect) : M :=
  fun w => Some (set_log (e :: log w) w).

Definition modWorld (f : World -> World) : M := fun w => Some (f w).

(** Continue with the current world in hand. *)
Definition readWorld (k : World -> M) : M := fun w => k w w.

(** The result of [evaluateTargetAlignment]. *)
Record Alignment := {
  elementExists : bool;
  aligned : bool;
  startDelta : Q;
  endOverflow : Q
}.

(** [scheduleCorrectionRef.current] and [scheduleStabilityCheckRef.current]:
    the two functions the controller reaches through refs. *)
Record Refs := {
  scheduleCorrectionRef : Z -> M;
  scheduleStabilityCheckRef : Z -> M
}.

Section Controller.

Variable P : Params.
Variable H : Host.
Variable L : Layout.

(** *** The timer hooks *)

(** Arms the one slot of a hook with a callback that captured operation
    id [K], and takes the next handle. *)
Definition armSlot (s : Slot) (K : Z) (w : World) : World :=
  setSlot s (Some K) (set_nextHandle (nextHandle w + 1) w).

(** [set] of a [useTimeout] instance: -1 where there is no window. *)
Definition setTimeoutHook (s : Slot) (K : Z) (k : Z -> M) : M :=
  readWorld (fun w =>
    if hookWindow H
    then modWorld (armSlot s K) >> k (nextHandle w)
    else k (-1)).

(** [set] of a [useAnimationFrame] instance; [cb] is the callback. *)
Definition requestFrameHook (s : Slot) (K : Z) (cb : M) (k : Z -> M) : M :=
  readWorld (fun w =>
    if hookWindow H
    then modWorld (armSlot s K) >> k (nextHandle w)
    else cb >> k 0).

(** [cancel] of either hook. *)
Definition clearHook (s : Slot) : M := modWorld (setSlot s None).

(** The guard every scheduled callback opens with:
    [if (!active || active.id !== operation.id) return]. *)
Definition guardActive (K : Z) (k : Z -> M) : M :=
  readWorld (fun w =>
    match operationRef w with
    | None => ret
    | Some a => withOp a (fun active =>
                  if Op.id active =? K then k a else ret)
    end).

(** *** Clearing handles *)

Definition clearStabilityTimeout (a : Z) : M :=
  withOp a (fun operation =>
    match Op.stabilityTimeoutId operation with
    | None => ret
    | Some _ => clearHook StabilityTimeout >>
                modOp a (Op.set_stabilityTimeoutId None)
    end).

Definition clearPinTimeout (a : Z) : M :=
  withOp a (fun operation =>
    match Op.pinTimeoutId operation with
    | None => ret
    | Some _ => clearHook PinTimeout >> modOp a (Op.set_pinTimeoutId None)
    end).

Definition cancelScheduledFrame (a : Z) : M :=
  withOp a (fun operation =>
    match Op.scheduleFrameId operation with
    | None => ret
    | Some _ => clearHook CorrectionFrame >>
                modOp a (Op.set_scheduleFrameId None)
    end).

Definition cancelAnchorFrame (a : Z) : M :=
  withOp a (fun operation =>
    match Op.anchorFrameId operation with
    | None => ret
    | Some _ => clearHook AnchorFrame >> clearHook AnchorTimeout >>
                modOp a (Op.set_anchorFrameId None) >>
                modOp a (Op.set_pendingAnchorDelta 0%Q)
    end).

Definition detachScrollListener : M :=
  modWorld (fun w =>
    let w1 := if scrollListenerRef w && isSome (scrollView L)
              then set_domScrollListener false w else w in
    set_scrollListenerRef false w1).

(** Clears the current operation, cancelling all timers and cleaning up
    state. *)
Definition clearOperation (reason : option CancelReason) : M :=
  readWorld (fun w =>
    match operationRef w with
    | None => ret
    | Some a =>
        clearStabilityTimeout a >>
        clearPinTimeout a >>
        cancelScheduledFrame a >>
        cancelAnchorFrame a >>
        withOp a (fun active =>
          (if Op.isPinned active then modOp a (Op.set_isPinned false)
           else ret) >>
          detachScrollListener >>
          modWorld (set_operationRef None) >>
          emit (ESetFlaggedIndex None) >>
          match reason with
          | Some r => emit (EOperationCancel (Op.targetIndex active) r)
          | None => ret
          end)
    end).

(** The scroll listener installed by [ensureScrollListener]. *)
Definition scrollListener : M :=
  readWorld (fun w =>
    match operationRef w with
    | None => ret
    | Some a => withOp a (fun active =>
                  if Op.isProgrammaticScroll active then ret
                  else clearOperation (Some user))
    end).

Definition ensureScrollListener : M :=
  modWorld (fun w =>
    if scrollListenerRef w || isNull (scrollView L) then w
    else set_scrollListenerRef true (set_domScrollListener true w)).

(** *** Alignment *)

(** Evaluates whether the target element is properly aligned within the
    viewport. *)
Definition evaluateTargetAlignment (index : Z) : Alignment :=
  match scrollView L, measured L index with
  | Some containerRect, Some elementRect =>
      let elementStart :=
        match axis P with vertical => top elementRect | horizontal => left elementRect end in
      let containerStart :=
        match axis P with vertical => top containerRect | horizontal => left containerRect end in
      let elementEnd :=
        match axis P with vertical => bottom elementRect | horizontal => right elementRect end in
      let containerEnd :=
        match axis P with vertical => bottom containerRect | horizontal => right containerRect end in
      let startDelta := (elementStart - containerStart)%Q in
      let endOverflow := Qmax 0 (elementEnd - containerEnd) in
      {| elementExists := true;
         aligned := Qle_bool (Qabs startDelta) VIEWPORT_TOLERANCE
                    && Qle_bool endOverflow VIEWPORT_TOLERANCE;
         startDelta := startDelta;
         endOverflow := endOverflow |}
  | _, element =>
      {| elementExists := isSome element;
         aligned := false;
         startDelta := 0;
         endOverflow := 0 |}
  end.

(** *** Scrolling *)

(** The frame callback of [scheduleProgrammaticScrollReset]. *)
Definition programmaticReset (K : Z) : M :=
  guardActive K (fun a => modOp a (Op.set_isProgrammaticScroll false)).

Definition scheduleProgrammaticScrollReset (a : Z) : M :=
  withOp a (fun operation =>
    requestFrameHook ProgrammaticFrame (Op.id operation)
      (programmaticReset (Op.id operation)) (fun _ => ret)).

(** Applies an instant scroll adjustment by the specified delta. *)
Definition applyScrollByDelta (a : Z) (delta : Q) : M :=
  if isNull (scrollView L) || Qeq_bool delta 0 then ret
  else
    let adjustedDelta := if reversed P then (- delta)%Q else delta in
    modOp a (Op.set_isProgrammaticScroll true) >>
    modWorld (fun w =>
      match axis P with
      | vertical => set_scroll ((scrollTop w + adjustedDelta)%Q, scrollLeft w) w
      | horizontal => set_scroll (scrollTop w, (scrollLeft w + adjustedDelta)%Q) w
      end) >>
    emit (EScrollBy (axis P) adjustedDelta) >>
    scheduleProgrammaticScrollReset a.

(** Performs the actual scroll operation to the target index. *)
Definition performScroll (a : Z) (behavior : ScrollBehavior) : M :=
  withOp a (fun operation =>
    let fallback : M :=
      modWorld (fun w =>
        set_scroll (scrollToItemDynamic H (Op.targetIndex operation) behavior
                      (scrollTop w, scrollLeft w)) w) >>
      emit (EScrollToItemDynamic (Op.targetIndex operation) behavior) in
    match reversed P, axis P, getOffsetForIndex P with
    | false, vertical, Some getOffset =>
        match getOffset (Op.targetIndex operation) with
        | Some offset =>
            if isSome (scrollView L) then
              modOp a (Op.set_isProgrammaticScroll true) >>
              modWorld (fun w =>
                set_scroll (hostScrollTo H offset behavior
                              (scrollTop w, scrollLeft w)) w) >>
              emit (EScrollTo offset behavior) >>
              scheduleProgrammaticScrollReset a
            else fallback
        | None => fallback
        end
    | _, _, _ => fallback
    end).

(** *** Pinning and finalization *)

Definition releasePin (a : Z) : M :=
  withOp a (fun operation =>
    if negb (Op.isPinned operation) then ret
    else
      let targetIndex := Op.targetIndex operation in
      modOp a (Op.set_isPinned false) >>
      clearPinTimeout a >>
      detachScrollListener >>
      emit (ESetFlaggedIndex None) >>
      modWorld (set_operationRef None) >>
      emit (EPinReleased targetIndex)).

(** The callback of the pin timer. *)
Definition pinExpired (K : Z) : M := guardActive K releasePin.

Definition startPin (a : Z) : M :=
  withOp a (fun operation =>
    if negb (maintainPosition P) || Op.isPinned operation then ret
    else
      modOp a (Op.set_isPinned true) >>
      ensureScrollListener >>
      clearPinTimeout a >>
      match pinDuration P with
      | Some _ =>
          setTimeoutHook PinTimeout (Op.id operation) (fun timeoutId =>
            if timeoutId =? -1 then ret
            else modOp a (Op.set_pinTimeoutId (Some timeoutId)))
      | None => ret
      end).

(** Finalizes a scroll operation, marking it as stable and optionally
    starting pinning. *)
Definition finalizeOperation (a : Z) : M :=
  withOp a (fun operation =>
    if Status_eqb (Op.status operation) stable then ret
    else
      modOp a (Op.set_status stable) >>
      clearStabilityTimeout a >>
      cancelScheduledFrame a >>
      (if Op.callback operation
       then emit (ECallback (Op.targetIndex operation)) else ret) >>
      emit (EOperationComplete (Op.targetIndex operation)) >>
      emit (ESetFlaggedIndex None) >>
      if maintainPosition P then startPin a
      else
        modWorld (set_operationRef None) >>
        detachScrollListener >>
        emit (EPinReleased (Op.targetIndex operation))).

(** *** Corrections, stability checks and anchor adjustments *)

Definition decrementCorrections (a : Z) : M :=
  modOp a (fun o => Op.set_correctionsRemaining (Op.correctionsRemaining o - 1) o).

Definition resetStableIterations (a : Z) : M :=
  modOp a (Op.set_stableIterations DEFAULT_CORRECTION_SETTLE).

Definition exceedsTolerance (q : Q) : bool := Qltb VIEWPORT_TOLERANCE q.

(** The minimal adjustment both loops try first; the result tells whether
    one was chosen ([correctionApplied]). *)
Definition minimalAdjustment (a : Z) (alignment : Alignment) : M * bool :=
  if exceedsTolerance (Qabs (startDelta alignment))
  then (applyScrollByDelta a (startDelta alignment), true)
  else if exceedsTolerance (endOverflow alignment)
  then (applyScrollByDelta a (endOverflow alignment), true)
  else (ret, false).

Section WithRefs.

Variable R : Refs.

Definition scheduleCorrection (a : Z) : M := scheduleCorrectionRef R a.
Definition scheduleStabilityCheck (a : Z) : M := scheduleStabilityCheckRef R a.

Definition canReschedule : bool := canUseTimeout H.

Definition rescheduleStabilityCheck (a : Z) : M :=
  if canReschedule then scheduleStabilityCheck a else ret.

(** [runCheck], the callback of the stability timer. *)
Definition runCheck (K : Z) : M :=
  guardActive K (fun a =>
    modOp a (Op.set_stabilityTimeoutId None) >>
    withOp a (fun active =>
      let alignment := evaluateTargetAlignment (Op.targetIndex active) in
      if negb (elementExists alignment) || negb (Op.hasMeasuredTarget active)
      then
        (if 0 <? Op.correctionsRemaining active
         then scheduleCorrection a else ret) >>
        rescheduleStabilityCheck a
      else if negb (aligned alignment) then
        let '(adjust, applied) := minimalAdjustment a alignment in
        adjust >>
        withOp a (fun active =>
          let budget := 0 <? Op.correctionsRemaining active in
          (if negb applied && budget
           then performScroll a instant >> decrementCorrections a
           else if applied && budget then decrementCorrections a
           else ret) >>
          let correctionApplied := applied || budget in
          if correctionApplied then
            resetStableIterations a >> rescheduleStabilityCheck a
          else
            withOp a (fun active =>
              if Op.correctionsRemaining active <=? 0
              then finalizeOperation a
              else rescheduleStabilityCheck a))
      else if Op.pendingCorrection active then rescheduleStabilityCheck a
      else if 0 <? Op.stableIterations active then
        modOp a (fun o => Op.set_stableIterations (Op.stableIterations o - 1) o) >>
        rescheduleStabilityCheck a
      else finalizeOperation a)).

(** The function stored in [scheduleStabilityCheckRef]. *)
Definition scheduleStabilityCheckImpl (a : Z) : M :=
  clearStabilityTimeout a >>
  withOp a (fun operation =>
    if canReschedule then
      setTimeoutHook StabilityTimeout (Op.id operation) (fun timeoutId =>
        if timeoutId =? -1 then runCheck (Op.id operation)
        else modOp a (Op.set_stabilityTimeoutId (Some timeoutId)))
    else
      modOp a (Op.set_stabilityTimeoutId None) >>
      runCheck (Op.id operation)).

(** [executeCorrection], the callback of the correction frame. *)
Definition executeCorrection (K : Z) : M :=
  guardActive K (fun a =>
    withOp a (fun active =>
      let alignment := evaluateTargetAlignment (Op.targetIndex active) in
      let '(adjust, applied) :=
        if elementExists alignment then minimalAdjustment a alignment
        else (ret, false) in
      adjust >>
      (if negb applied then performScroll a instant else ret) >>
      let correctionApplied := true in
      (if correctionApplied then decrementCorrections a else ret) >>
      modOp a (Op.set_pendingCorrection false) >>
      modOp a (Op.set_scheduleFrameId None) >>
      if elementExists alignment && aligned alignment
      then finalizeOperation a
      else
        withOp a (fun active =>
          if 0 <? Op.correctionsRemaining active
          then scheduleCorrection a
          else scheduleStabilityCheck a))).

(** The function stored in [scheduleCorrectionRef]. *)
Definition scheduleCorrectionImpl (a : Z) : M :=
  withOp a (fun operation =>
    if (Op.correctionsRemaining operation <=? 0)
       || Op.pendingCorrection operation
    then ret
    else
      modOp a (Op.set_pendingCorrection true) >>
      if canUseAnimationFrame H then
        requestFrameHook CorrectionFrame (Op.id operation)
          (executeCorrection (Op.id operation))
          (fun frameId => modOp a (Op.set_scheduleFrameId (Some frameId)))
      else
        modOp a (Op.set_scheduleFrameId None) >>
        executeCorrection (Op.id operation)).

Section WithSelf.

(** [scheduleAnchorAdjustment] as seen from inside its own closure. *)
Variable self : Z -> Q -> M.

(** [commitAnchor], the coalescing callback. *)
Definition commitAnchor (K : Z) : M :=
  guardActive K (fun a =>
    withOp a (fun active =>
      if negb (Op.hasMeasuredTarget active) then
        modOp a (Op.set_anchorFrameId None) >> self a 0%Q
      else
        let amount := Op.pendingAnchorDelta active in
        modOp a (Op.set_pendingAnchorDelta 0%Q) >>
        modOp a (Op.set_anchorFrameId None) >>
        (if Qle_bool ANCHOR_DELTA_EPSILON (Qabs amount)
         then applyScrollByDelta a amount >> resetStableIterations a
         else ret) >>
        scheduleStabilityCheck a)).

Definition scheduleAnchorAdjustmentBody (a : Z) (delta : Q) : M :=
  modOp a (fun o =>
    Op.set_pendingAnchorDelta (Op.pendingAnchorDelta o + delta)%Q o) >>
  withOp a (fun operation =>
    if Qltb (Qabs (Op.pendingAnchorDelta operation)) ANCHOR_DELTA_EPSILON
       && isNull (Op.anchorFrameId operation)
    then ret
    else if isSome (Op.anchorFrameId operation) then ret
    else if canUseAnimationFrame H then
      requestFrameHook AnchorFrame (Op.id operation)
        (commitAnchor (Op.id operation))
        (fun frameId => modOp a (Op.set_anchorFrameId (Some frameId)))
    else if canUseTimeout H then
      setTimeoutHook AnchorTimeout (Op.id operation)
        (fun timeoutId => modOp a (Op.set_anchorFrameId (Some timeoutId)))
    else
      (if Op.hasMeasuredTarget operation
          && Qle_bool ANCHOR_DELTA_EPSILON
               (Qabs (Op.pendingAnchorDelta operation))
       then
         let amount := Op.pendingAnchorDelta operation in
         modOp a (Op.set_pendingAnchorDelta 0%Q) >>
         applyScrollByDelta a amount >>
         resetStableIterations a
       else ret) >>
      scheduleStabilityCheck a).

End WithSelf.

(** Schedules an anchor adjustment to maintain target position when
    items above resize; [fuel] bounds how often the coalescing callback
    re-enters it synchronously. *)
Fixpoint scheduleAnchorAdjustment (fuel : nat) (a : Z) (delta : Q) : M :=
  scheduleAnchorAdjustmentBody
    (match fuel with
     | O => fun _ _ _ => None
     | S fuel' => scheduleAnchorAdjustment fuel'
     end) a delta.

(** *** Entry points *)

(** Handles when an item's size is measured or changes. *)
Definition handleItemMeasured (fuel : nat) (index : Z) (size delta : Q) : M :=
  readWorld (fun w =>
    match operationRef w with
    | None => ret
    | Some a =>
        withOp a (fun active =>
          if Status_eqb (Op.status active) stable then
            if Op.maintainPosition active
               && (index <? Op.targetIndex active)
               && negb (Qeq_bool delta 0)
            then applyScrollByDelta a delta
            else ret
          else if Op.targetIndex active <? index then ret
          else if (index <? Op.targetIndex active) && negb (Qeq_bool delta 0)
          then
            if Op.maintainPosition active then
              scheduleAnchorAdjustment fuel a delta >>
              withOp a (fun active =>
                if negb (Op.hasMeasuredTarget active)
                   && (0 <? Op.correctionsRemaining active)
                then scheduleCorrection a else ret) >>
              resetStableIterations a >>
              scheduleStabilityCheck a
            else
              (if 0 <? Op.correctionsRemaining active
               then scheduleCorrection a else ret) >>
              resetStableIterations a >>
              scheduleStabilityCheck a
          else if index =? Op.targetIndex active then
            modOp a (Op.set_hasMeasuredTarget true) >>
            (if negb (Op.initialAlignmentPerformed active)
             then performScroll a instant >>
                  modOp a (Op.set_initialAlignmentPerformed true)
             else ret) >>
            (if Op.maintainPosition active
             then scheduleAnchorAdjustment fuel a 0%Q else ret) >>
            withOp a (fun active =>
              if Qle_bool VIEWPORT_TOLERANCE (Qabs delta)
                 && (0 <? Op.correctionsRemaining active)
              then scheduleCorrection a >> resetStableIterations a
              else ret) >>
            scheduleStabilityCheck a
          else scheduleStabilityCheck a)
    end).

(** Handles when the target item is rendered in the DOM; the boolean is
    the value returned to the caller. *)
Definition handleRenderedResult (w : World) (index : Z) : bool :=
  match operationRef w with
  | None => false
  | Some a =>
      match ops w !! a with
      | None => false
      | Some active => index =? Op.targetIndex active
      end
  end.

Definition handleRenderedEffect (index : Z) : M :=
  readWorld (fun w =>
    match operationRef w with
    | None => ret
    | Some a =>
        withOp a (fun active =>
          if negb (index =? Op.targetIndex active) then ret
          else if Status_eqb (Op.status active) stable then ret
          else scheduleCorrection a >> scheduleStabilityCheck a)
    end).

Definition handleRendered (index : Z) : World -> option (bool * World) :=
  fun w =>
    match handleRenderedEffect index w with
    | Some w' => Some (handleRenderedResult w index, w')
    | None => None
    end.

(** Initiates a scroll operation to the specified index. *)
Definition start (index : Z) (behavior : ScrollBehavior) (callback : bool) : M :=
  readWorld (fun w =>
    match operationRef w with
    | Some a => cancelScheduledFrame a
    | None => ret
    end) >>
  clearOperation None >>
  readWorld (fun w =>
    let operationId := operationIdRef w + 1 in
    let operation :=
      {| Op.id := operationId;
         Op.targetIndex := index;
         Op.behavior := behavior;
         Op.callback := callback;
         Op.correctionsRemaining := maxCorrections P;
         Op.pendingCorrection := false;
         Op.stabilityTimeoutId := None;
         Op.pinTimeoutId := None;
         Op.scheduleFrameId := None;
         Op.status := initial;
         Op.maintainPosition := maintainPosition P;
         Op.isPinned := false;
         Op.isProgrammaticScroll := false;
         Op.hasMeasuredTarget := false;
         Op.stableIterations := DEFAULT_CORRECTION_SETTLE;
         Op.pendingAnchorDelta := 0;
         Op.anchorFrameId := None;
         Op.initialAlignmentPerformed := false |} in
    modWorld (set_operationIdRef operationId) >>
    modWorld (fun w => set_ops (<[operationId := operation]> (ops w)) w) >>
    modWorld (set_operationRef (Some operationId)) >>
    emit (ESetFlaggedIndex (Some index)) >>
    ensureScrollListener >>
    performScroll operationId behavior >>
    scheduleCorrection operationId >>
    scheduleStabilityCheck operationId).

End WithRefs.

(** Cancels the current scroll operation. *)
Definition cancel : M := clearOperation (Some cancelled).

(** Returns true if a scroll operation is currently active. *)
Definition isActive (w : World) : bool := isSome (operationRef w).

(** The contents of the two refs, [fuel] levels of synchronous re-entry
    deep. *)
Fixpoint refs (fuel : nat) : Refs :=
  match fuel with
  | O => {| scheduleCorrectionRef := fun _ _ => None;
            scheduleStabilityCheckRef := fun _ _ => None |}
  | S fuel' =>
      {| scheduleCorrectionRef := scheduleCorrectionImpl (refs fuel');
         scheduleStabilityCheckRef := scheduleStabilityCheckImpl (refs fuel') |}
  end.

(** *** Scheduled callbacks and the events of a run *)

Inductive Callback :=
| CorrectionCallback | StabilityCallback | AnchorCallback
| PinCallback | ProgrammaticResetCallback.

Definition callbackOf (s : Slot) : Callback :=
  match s with
  | StabilityTimeout => StabilityCallback
  | PinTimeout => PinCallback
  | AnchorTimeout | AnchorFrame => AnchorCallback
  | ProgrammaticFrame => ProgrammaticResetCallback
  | CorrectionFrame => CorrectionCallback
  end.

(** The body of a scheduled callback that captured operation id [K]. *)
Definition runCallback (fuel : nat) (c : Callback) (K : Z) : M :=
  match c with
  | CorrectionCallback => executeCorrection (refs fuel) K
  | StabilityCallback => runCheck (refs fuel) K
  | AnchorCallback =>
      commitAnchor (refs fuel) (scheduleAnchorAdjustment (refs fuel) fuel) K
  | PinCallback => pinExpired K
  | ProgrammaticResetCallback => programmaticReset K
  end.

(** What can happen to the controller: a call of one of the returned
    functions, the cleanup of its effect ([Unmount], which is
    [clearOperation()]), a scroll event on the scroll view, or the firing
    of the callback held by a hook slot. *)
Inductive Event :=
| Start (index : Z) (behavior : ScrollBehavior) (callback : bool)
| HandleItemMeasured (index : Z) (size delta : Q)
| HandleRendered (index : Z)
| Cancel
| Unmount
| ScrollEvent
| Fire (s : Slot).

(** One event, run to completion. *)
Definition step (fuel : nat) (e : Event) : M :=
  match e with
  | Start index behavior callback => start (refs fuel) index behavior callback
  | HandleItemMeasured index size delta =>
      handleItemMeasured (refs fuel) fuel index size delta
  | HandleRendered index => handleRenderedEffect (refs fuel) index
  | Cancel => cancel
  | Unmount => clearOperation None
  | ScrollEvent =>
      readWorld (fun w => if domScrollListener w then scrollListener else ret)
  | Fire s =>
      readWorld (fun w =>
        match getSlot s w with
        | None => ret
        | Some K => modWorld (setSlot s None) >> runCallback fuel (callbackOf s) K
        end)
  end.

End Controller.

(** A run: events in order, each under the layout it observes. *)
Fixpoint run (P : Params) (H : Host) (fuel : nat)
    (es : list (Layout * Event)) : M :=
  match es with
  | [] => ret
  | (L, e) :: es' => step P H L fuel e >> run P H fuel es'
  end.

(** ** Quantities the statements refer to *)

Definition axisStart (ax : Axis) (r : DOMRect) : Q :=
  match ax with vertical => top r | horizontal => left r end.

Definition axisEnd (ax : Axis) (r : DOMRect) : Q :=
  match ax with vertical => bottom r | horizontal => right r end.

(** The scroll position along an axis. *)
Definition scrollPosition (ax : Axis) (w : World) : Q :=
  match ax with vertical => scrollTop w | horizontal => scrollLeft w end.

Definition crossAxis (ax : Axis) : Axis :=
  match ax with vertical => horizontal | horizontal => vertical end.

(** A callback that captured id [K] is stale when no operation is active or
    the active operation carries another id. *)
Definition stale (K : Z) (w : World) : Prop :=
  match operationRef w with
  | None => True
  | Some a => exists active, ops w !! a = Some active /\ Op.id active <> K
  end.

Definition isScrollAdjustment (e : Effect) : bool :=
  match e with EScrollBy _ _ => true | _ => false end.

Definition isCompletion (e : Effect) : bool :=
  match e with ECallback _ | EOperationComplete _ => true | _ => false end.

Definition isCancellation (e : Effect) : bool :=
  match e with EOperationCancel _ _ => true | _ => false end.

Definition isPinRelease (e : Effect) : bool :=
  match e with EPinReleased _ => true | _ => false end.

(** The scroll adjustments of a log, oldest first. *)
Definition scrollAdjustments (l : list Effect) : list Q :=
  flat_map (fun e => match e with EScrollBy _ q => [q] | _ => [] end) (rev l).

Definition Qsum (l : list Q) : Q := fold_right Qplus 0%Q l.

(** ** Concrete hosts, props and layouts *)

(** A browser: frames and timers exist and the hooks have a window. *)
Definition browser : Host :=
  {| canUseAnimationFrame := true;
     canUseTimeout := true;
     hookWindow := true;
     hostScrollTo := fun offset _ pos => (offset, snd pos);
     scrollToItemDynamic := fun _ _ pos => pos |}.

Definition props (budget : Z) (pin : option Q) : Params :=
  {| axis := vertical;
     reversed := false;
     getOffsetForIndex := None;
     maintainPosition := true;
     maxCorrections := budget;
     pinDuration := pin |}.

Definition rect (t b : Q) : DOMRect :=
  {| top := t; left := 0; bottom := b; right := 100 |}.

(** A viewport of height 500 showing element [index] at [r]. *)
Definition layout (index : Z) (r : DOMRect) : Layout :=
  {| scrollView := Some (rect 0 500);
     measured := fun i => if i =? index then Some r else None |}.

(** Element 5 sits on the leading edge of the viewport. *)
Definition alignedLayout : Layout := layout 5 (rect 0 100).
(** Element 5 stays five units below the leading edge. *)
Definition misalignedLayout : Layout := layout 5 (rect 5 105).
(** The element is there but the scroll view is not mounted. *)
Definition unmountedLayout : Layout :=
  {| scrollView := None; measured := fun _ => Some (rect 0 100) |}.

(** The world a run from the initial controller leaves ([initialWorld] if the
    model runs out of fuel). *)
Definition after (P : Params) (H : Host) (es : list (Layout * Event)) : World :=
  match run P H 1 es initialWorld with
  | Some w => w
  | None => initialWorld
  end.

(** Operation 1 (target 5) superseded by operation 2 (target 7). *)
Definition supersededWorld : World :=
  after (props 10 None) browser
    [(alignedLayout, Start 5 instant true); (alignedLayout, Start 7 instant true)].

(** Operation 1 (target 5) measured, corrected once, found aligned and
    pinned; the pin expires by timer. *)
Definition pinnedWorld : World :=
  after (props 10 (Some 5000%Q)) browser
    [(alignedLayout, Start 5 instant true);
     (alignedLayout, HandleItemMeasured 5 100 100);
     (alignedLayout, Fire CorrectionFrame)].

(** A delta as [applyScrollByDelta] writes it: negated when the list is
    reversed. *)
Definition signAdjusted (P : Params) (delta : Q) : Q :=
  if reversed P then (- delta)%Q else delta.

(** What a step added to the log, newest first. *)
Definition newEntries (w w' : World) : list Effect :=
  firstn (length (log w') - length (log w)) (log w').

(** [f] only ever adds effects accepted by [ok] to the log. *)
Definition emitsOnly (ok : Effect -> bool) (f : M) : Prop :=
  forall w w', f w = Some w' ->
    exists new, log w' = new ++ log w /\ forallb ok new = true.

Definition notCancellation (e : Effect) : bool := negb (isCancellation e).

(** Operation 1 (target 5) measured, with an upstream delta of 10 waiting in
    the accumulator and its coalescing callback scheduled. *)
Definition anchorPendingWorld : World :=
  after (props 10 None) browser
    [(alignedLayout, Start 5 instant true);
     (alignedLayout, HandleItemMeasured 5 100 100);
     (alignedLayout, HandleItemMeasured 3 50 10)].

Definition CancelReason_eqb (a b : CancelReason) : bool :=
  match a, b with
  | user, user | cancelled, cancelled => true
  | _, _ => false
  end.

(** Cancellations, if any, carry reason [r]. *)
Definition cancellationWith (r : CancelReason) (e : Effect) : bool :=
  match e with
  | EOperationCancel _ r' => CancelReason_eqb r r'
  | _ => true
  end.






(** Operation 1 (target 5) measured, nothing pending. *)
Definition measuredWorld : World :=
  after (props 10 None) browser
    [(alignedLayout, Start 5 instant true);
     (alignedLayout, HandleItemMeasured 5 100 100)].




(** Scenario 4 of the specification: a budget of two corrections and a
    target that every measurement finds five units off.  The two correction
    frames spend the budget. *)
Definition budgetSpent : list (Layout * Event) :=
  [(misalignedLayout, Start 5 instant true);
   (misalignedLayout, HandleItemMeasured 5 100 100);
   (misalignedLayout, Fire CorrectionFrame);
   (misalignedLayout, Fire CorrectionFrame)].

Definition stabilityChecks (n : nat) : list (Layout * Event) :=
  repeat (misalignedLayout, Fire StabilityTimeout) n.

(** A budget of one correction; the stability timer fires before the
    correction frame that [start] requested. *)
Definition lateCorrectionFrame : list (Layout * Event) :=
  [(misalignedLayout, Start 5 instant true);
   (misalignedLayout, HandleItemMeasured 5 100 100);
   (misalignedLayout, Fire StabilityTimeout);
   (misalignedLayout, Fire CorrectionFrame)].

(** A pin of 100 time units.  An upstream resize is still waiting in the
    accumulator when the correction frame finds the target aligned and
    finalizes; the coalescing callback then applies it and re-arms the
    stability timer; the pin timer (100) expires before that timer (150). *)
Definition pinExpiresFirst : list (Layout * Event) :=
  [(alignedLayout, Start 5 instant true);
   (alignedLayout, HandleItemMeasured 5 100 100);
   (alignedLayout, HandleItemMeasured 3 50 10);
   (alignedLayout, Fire CorrectionFrame);
   (alignedLayout, Fire AnchorFrame);
   (alignedLayout, Fire PinTimeout)].

(** An operation at [a] whose budget is spent ([o] gives the fields that
    stay put), measured, with its stability timer armed. *)
Definition polling (a : Z) (o : Op.t) (w : World) : Prop :=
  operationRef w = Some a /\
  0 < nextHandle w /\
  getSlot StabilityTimeout w = Some (Op.id o) /\
  exists o',
    ops w !! a = Some o' /\
    Op.id o' = Op.id o /\
    Op.targetIndex o' = Op.targetIndex o /\
    Op.status o' = Op.status o /\
    Op.correctionsRemaining o' = Op.correctionsRemaining o /\
    Op.hasMeasuredTarget o' = true.

(** An update of an operation record that keeps its identity and target,
    never raises the correction budget and never leaves [stable]. *)
Definition steady (f : Op.t -> Op.t) : Prop :=
  forall o,
    Op.id (f o) = Op.id o /\
    Op.targetIndex (f o) = Op.targetIndex o /\
    Op.correctionsRemaining (f o) <= Op.correctionsRemaining o /\
    (Op.status o = stable -> Op.status (f o) = stable).

(** Handlers built from the primitive updates of the controller: field
    writes that are [steady], writes outside the store and the log, and
    effects accepted by [okE].  With [alloc] a handler may also write the
    store itself, which only [start] does, to allocate a record. *)
Inductive built (okE : Effect -> bool) (alloc : bool) : M -> Prop :=
| built_ret : built okE alloc ret
| built_stuck : built okE alloc (fun _ => None)
| built_seq (f g : M) :
    built okE alloc f -> built okE alloc g -> built okE alloc (f >> g)
| built_withOp (a : Z) (k : Op.t -> M) :
    (forall o, built okE alloc (k o)) -> built okE alloc (withOp a k)
| built_readWorld (k : World -> M) :
    (forall w, built okE alloc (k w)) -> built okE alloc (readWorld k)
| built_modOp (a : Z) (f : Op.t -> Op.t) :
    steady f -> built okE alloc (modOp a f)
| built_modWorld (g : World -> World) :
    (forall w, log (g w) = log w /\ ops (g w) = ops w
               /\ operationIdRef (g w) = operationIdRef w) ->
    built okE alloc (modWorld g)
| built_alloc (g : World -> World) :
    alloc = true -> (forall w, log (g w) = log w) ->
    built okE alloc (modWorld g)
| built_emit (e : Effect) :
    okE e = true -> built okE alloc (emit e).

(** What a handler that allocates nothing does to the store: the same
    records, each with its identity and target, a budget that did not grow,
    and [stable] kept once reached. *)
Definition keeps (o o' : Op.t) : Prop :=
  Op.id o' = Op.id o /\
  Op.targetIndex o' = Op.targetIndex o /\
  Op.correctionsRemaining o' <= Op.correctionsRemaining o /\
  (Op.status o = stable -> Op.status o' = stable).

Definition advances (w w' : World) : Prop :=
  operationIdRef w' = operationIdRef w /\
  forall a,
    match ops w !! a with
    | Some o => exists o', ops w' !! a = Some o' /\ keeps o o'
    | None => ops w' !! a = None
    end.

(** Every record of the store was allocated under an id the counter has
    passed. *)
Definition heapBounded (w : World) : Prop :=
  forall a o, ops w !! a = Some o -> a <= operationIdRef w.

Definition anyEffect (e : Effect) : bool := true.

(** What a run does to the store: the id counter never goes back and a
    record, once allocated, stays, with its identity and target, a budget
    that did not grow and [stable] kept once reached. *)
Definition grows (w w' : World) : Prop :=
  operationIdRef w <= operationIdRef w' /\
  forall a o, ops w !! a = Some o ->
    exists o', ops w' !! a = Some o' /\ keeps o o'.

(** Operation 1 (target 5) measured; an upstream delta of a tenth, below the
    epsilon, sits in the accumulator with no coalescing callback scheduled. *)
Definition residueWorld : World :=
  after (props 10 None) browser
    [(alignedLayout, Start 5 instant true);
     (alignedLayout, HandleItemMeasured 5 100 100);
     (alignedLayout, HandleItemMeasured 3 50 (1 # 10))].

(** Operation 1 (target 5) started, nothing measured yet. *)
Definition startedWorld : World :=
  after (props 10 None) browser [(alignedLayout, Start 5 instant true)].
(** ** The writes of the controller

    Every state change a handler makes is one of the writes below: a field
    of an operation record, a hook slot, the scroll listener, the scroll
    position together with the request that moves it, a notification, the
    retirement of the current operation with the notifications that go with
    it, or the allocation of a new operation by [start]. *)

Inductive FieldWrite :=
| SetStabilityTimeoutId (v : option Z)
| SetPinTimeoutId (v : option Z)
| SetScheduleFrameId (v : option Z)
| SetAnchorFrameId (v : option Z)
| ClearPendingAnchorDelta
| AddPendingAnchorDelta (delta : Q)
| SetIsPinned (v : bool)
| MarkStable
| SetIsProgrammaticScroll (v : bool)
| SpendCorrection
| ResetStableIterations
| CountStableIteration
| SetPendingCorrection (v : bool)
| MarkMeasuredTarget
| MarkInitialAlignmentPerformed.

Definition applyWrite (u : FieldWrite) : Op.t -> Op.t :=
  match u with
  | SetStabilityTimeoutId v => Op.set_stabilityTimeoutId v
  | SetPinTimeoutId v => Op.set_pinTimeoutId v
  | SetScheduleFrameId v => Op.set_scheduleFrameId v
  | SetAnchorFrameId v => Op.set_anchorFrameId v
  | ClearPendingAnchorDelta => Op.set_pendingAnchorDelta 0%Q
  | AddPendingAnchorDelta delta =>
      fun o => Op.set_pendingAnchorDelta (Op.pendingAnchorDelta o + delta)%Q o
  | SetIsPinned v => Op.set_isPinned v
  | MarkStable => Op.set_status stable
  | SetIsProgrammaticScroll v => Op.set_isProgrammaticScroll v
  | SpendCorrection =>
      fun o => Op.set_correctionsRemaining (Op.correctionsRemaining o - 1) o
  | ResetStableIterations => Op.set_stableIterations DEFAULT_CORRECTION_SETTLE
  | CountStableIteration =>
      fun o => Op.set_stableIterations (Op.stableIterations o - 1) o
  | SetPendingCorrection v => Op.set_pendingCorrection v
  | MarkMeasuredTarget => Op.set_hasMeasuredTarget true
  | MarkInitialAlignmentPerformed => Op.set_initialAlignmentPerformed true
  end.

Inductive Write :=
| WField (a : Z) (u : FieldWrite)
| WClearSlot (s : Slot)
| WArm (s : Slot) (K : Z)
| WDetach (L : Layout)
| WEnsure (L : Layout)
| WScroll (position : Q * Q) (request : Effect)
| WEmit (e : Effect)
| WRetire (detach : option Layout) (es : list Effect)
| WAllocate (index : Z) (behavior : ScrollBehavior) (callback : bool)
    (budget : Z) (maintain : bool).

(** The world a handler that cannot fail leaves. *)
Definition force (f : M) (w : World) : World :=
  match f w with Some w' => w' | None => w end.

(** The record [start] creates under id [operationId]. *)
Definition freshOperation (operationId index : Z) (behavior : ScrollBehavior)
    (callback : bool) (budget : Z) (maintain : bool) : Op.t :=
  {| Op.id := operationId;
     Op.targetIndex := index;
     Op.behavior := behavior;
     Op.callback := callback;
     Op.correctionsRemaining := budget;
     Op.pendingCorrection := false;
     Op.stabilityTimeoutId := None;
     Op.pinTimeoutId := None;
     Op.scheduleFrameId := None;
     Op.status := initial;
     Op.maintainPosition := maintain;
     Op.isPinned := false;
     Op.isProgrammaticScroll := false;
     Op.hasMeasuredTarget := false;
     Op.stableIterations := DEFAULT_CORRECTION_SETTLE;
     Op.pendingAnchorDelta := 0;
     Op.anchorFrameId := None;
     Op.initialAlignmentPerformed := false |}.

Definition perform (u : Write) (w : World) : World :=
  match u with
  | WField a f => set_ops (alter (applyWrite f) a (ops w)) w
  | WClearSlot s => setSlot s None w
  | WArm s K => armSlot s K w
  | WDetach L => force (detachScrollListener L) w
  | WEnsure L => force (ensureScrollListener L) w
  | WScroll position request =>
      set_log (request :: log w) (set_scroll position w)
  | WEmit e => set_log (e :: log w) w
  | WRetire detach es =>
      let w1 := set_operationRef None w in
      let w2 := match detach with
                | Some L => force (detachScrollListener L) w1
                | None => w1
                end in
      set_log (rev es ++ log w2) w2
  | WAllocate index behavior callback budget maintain =>
      let operationId := operationIdRef w + 1 in
      let operation :=
        freshOperation operationId index behavior callback budget maintain in
      set_operationRef (Some operationId)
        (set_ops (<[operationId := operation]> (ops w))
           (set_operationIdRef operationId w))
  end.

Inductive WriteKind :=
| Plain | Spend | Scroll | Drop | Cancelled | Released | Allocate.

Definition isScrollRequest (e : Effect) : bool :=
  match e with
  | EScrollBy _ _ | EScrollTo _ _ | EScrollToItemDynamic _ _ => true
  | _ => false
  end.

(** The notifications a handler sends while the operation stays current. *)
Definition isProgressNote (e : Effect) : bool :=
  match e with
  | ECallback _ | EOperationComplete _ | ESetFlaggedIndex _ => true
  | _ => false
  end.

(** The kind of a write; [None] for a write the controller never makes.
    A retirement is [Cancelled] when it notifies a cancellation, [Released]
    when it notifies a pin release, and a silent [Drop] otherwise. *)
Definition kind (u : Write) : option WriteKind :=
  match u with
  | WField _ SpendCorrection => Some Spend
  | WScroll _ request => if isScrollRequest request then Some Scroll else None
  | WEmit e => if isProgressNote e then Some Plain else None
  | WRetire _ es =>
      if existsb isScrollRequest es then None
      else if existsb isCancellation es then Some Cancelled
      else if existsb isPinRelease es then Some Released
      else Some Drop
  | WAllocate _ _ _ _ _ => Some Allocate
  | _ => Some Plain
  end.

(** One write, among those [allowed]. *)
Definition written (allowed : Write -> Prop) (w w' : World) : Prop :=
  exists u, allowed u /\ w' = perform u w.

(** [f] changes the world only through [allowed] writes. *)
Definition writesOnly (allowed : Write -> Prop) (f : M) : Prop :=
  forall w w', f w = Some w' -> rtc (written allowed) w w'.

(** The kinds of write an event may lead to.  Only [start] allocates; only
    [cancel] and a scroll event retire the operation with a cancellation;
    only the cleanup on unmount and [start] drop it silently; and none of
    these three scrolls or touches the budget. *)
Definition mayUse (e : Event) (k : WriteKind) : bool :=
  match e, k with
  | _, Plain => true
  | Start _ _ _, Cancelled => false
  | Start _ _ _, _ => true
  | (Cancel | ScrollEvent), Cancelled => true
  | Unmount, Drop => true
  | (Cancel | ScrollEvent | Unmount), _ => false
  | _, (Spend | Scroll | Released) => true
  | _, _ => false
  end.

Definition usedBy (e : Event) (u : Write) : Prop :=
  match kind u with
  | Some k => mayUse e k = true
  | None => False
  end.

Definition usedByRun (es : list (Layout * Event)) (u : Write) : Prop :=
  exists L e, In (L, e) es /\ usedBy e u.

(** ** What stays of an operation over a run *)

(** [o'] is a later state of the record [o]: the request it was created for
    is the same, the budget did not grow, and what was reached stays
    reached. *)
Definition laterOf (o o' : Op.t) : Prop :=
  Op.id o' = Op.id o /\
  Op.targetIndex o' = Op.targetIndex o /\
  Op.behavior o' = Op.behavior o /\
  Op.callback o' = Op.callback o /\
  Op.maintainPosition o' = Op.maintainPosition o /\
  Op.correctionsRemaining o' <= Op.correctionsRemaining o /\
  (Op.status o = stable -> Op.status o' = stable) /\
  (Op.hasMeasuredTarget o = true -> Op.hasMeasuredTarget o' = true) /\
  (Op.initialAlignmentPerformed o = true ->
   Op.initialAlignmentPerformed o' = true).

Definition persists (w w' : World) : Prop :=
  forall a o, ops w !! a = Some o ->
    exists o', ops w' !! a = Some o' /\ laterOf o o'.

(** The number of [start] calls in a run. *)
Definition starts (es : list (Layout * Event)) : Z :=
  Z.of_nat (length (List.filter
                      (fun le => match snd le with
                                 | Start _ _ _ => true
                                 | _ => false
                                 end) es)).

(** The arguments of the last [start] of a run. *)
Fixpoint lastStart (es : list (Layout * Event))
    : option (Z * ScrollBehavior * bool) :=
  match es with
  | [] => None
  | (_, e) :: es' =>
      match lastStart es' with
      | Some request => Some request
      | None =>
          match e with
          | Start index behavior callback => Some (index, behavior, callback)
          | _ => None
          end
      end
  end.

(** The notifications that end an operation for its caller. *)
Definition isEnding (e : Effect) : bool := isCancellation e || isPinRelease e.

(** What a write adds to the log, newest first. *)
Definition logged (u : Write) : list Effect :=
  match u with
  | WScroll _ request => [request]
  | WEmit e => [e]
  | WRetire _ es => rev es
  | _ => []
  end.

(** Since [w] the log grew by [new], and the current operation either was
    retired or is the same and no ending was notified. *)
Definition endsIdle (w w' : World) : Prop :=
  exists new,
    log w' = new ++ log w /\
    (operationRef w' = None \/
     (operationRef w' = operationRef w /\ existsb isEnding new = false)).

(** Since [w] the log grew, by no ending. *)
Definition endsNothing (w w' : World) : Prop :=
  exists new, log w' = new ++ log w /\ existsb isEnding new = false.

(** The current operation after the events [es]: the request of the last
    [start], under the id the counter shows. *)
Definition currentIsLast (es : list (Layout * Event)) (w : World) : Prop :=
  heapBounded w /\
  operationIdRef w = starts es /\
  forall a, operationRef w = Some a ->
    exists o index behavior callback,
      lastStart es = Some (index, behavior, callback) /\
      a = starts es /\
      ops w !! a = Some o /\
      Op.id o = a /\
      Op.targetIndex o = index /\
      Op.behavior o = behavior /\
      Op.callback o = callback.


(** ** Requests and outcomes the statements refer to *)

(** The offset [performScroll] scrolls to directly, when it can: the list is
    not reversed and vertical, [getOffsetForIndex] gives a finite offset and
    the scroll view is mounted. *)
Definition directOffset (P : Params) (L : Layout) (index : Z) : option Q :=
  match reversed P, axis P, getOffsetForIndex P with
  | false, vertical, Some getOffset =>
      match getOffset index with
      | Some offset => if isSome (scrollView L) then Some offset else None
      | None => None
      end
  | _, _, _ => None
  end.

(** The request [performScroll] issues for [index]. *)
Definition scrollRequest (P : Params) (L : Layout) (index : Z)
    (behavior : ScrollBehavior) : Effect :=
  match directOffset P L index with
  | Some offset => EScrollTo offset behavior
  | None => EScrollToItemDynamic index behavior
  end.

(** What finalization notifies, newest first. *)
Definition finalNotes (P : Params) (o : Op.t) : list Effect :=
  (if maintainPosition P then [] else [EPinReleased (Op.targetIndex o)])
  ++ ESetFlaggedIndex None
  :: EOperationComplete (Op.targetIndex o)
  :: (if Op.callback o then [ECallback (Op.targetIndex o)] else []).

(** The request a correction frame issues for the operation [o]: a minimal
    adjustment by the leading delta or by the trailing overflow when the
    target element is there and one of them exceeds the tolerance, and the
    absolute scroll of [performScroll] otherwise. *)
Definition correctionRequest (P : Params) (L : Layout) (o : Op.t) : Effect :=
  let alignment := evaluateTargetAlignment P L (Op.targetIndex o) in
  if elementExists alignment
     && exceedsTolerance (Qabs (startDelta alignment))
  then EScrollBy (axis P) (signAdjusted P (startDelta alignment))
  else if elementExists alignment && exceedsTolerance (endOverflow alignment)
  then EScrollBy (axis P) (signAdjusted P (endOverflow alignment))
  else scrollRequest P L (Op.targetIndex o) instant.

(** The target of [o] is in place when a check or a correction looks. *)
Definition inPlace (P : Params) (L : Layout) (o : Op.t) : bool :=
  let alignment := evaluateTargetAlignment P L (Op.targetIndex o) in
  elementExists alignment && aligned alignment.


(** An operation at [a] that is settling: current, measured, with no
    correction pending, its stability timer armed and [k] stable iterations
    to go ([o] gives the fields that stay put). *)
Definition settling (a : Z) (o : Op.t) (k : Z) (w : World) : Prop :=
  operationRef w = Some a /\
  0 < nextHandle w /\
  getSlot StabilityTimeout w = Some (Op.id o) /\
  exists o',
    ops w !! a = Some o' /\
    Op.id o' = Op.id o /\
    Op.targetIndex o' = Op.targetIndex o /\
    Op.callback o' = Op.callback o /\
    Op.status o' = Op.status o /\
    Op.correctionsRemaining o' = Op.correctionsRemaining o /\
    Op.hasMeasuredTarget o' = true /\
    Op.pendingCorrection o' = false /\
    Op.stableIterations o' = k.

(** [n] firings of the stability timer, all under the layout [L]. *)
Definition stabilityTicks (L : Layout) (n : nat) : list (Layout * Event) :=
  repeat (L, Fire StabilityTimeout) n.

(** A measurement the controller has no use for. *)
Definition irrelevantMeasurement (w : World) (index : Z) (delta : Q) : Prop :=
  match operationRef w with
  | None => True
  | Some a =>
      exists active,
        ops w !! a = Some active /\
        if Status_eqb (Op.status active) stable
        then Op.maintainPosition active = false
             \/ Op.targetIndex active <= index \/ (delta == 0)%Q
        else Op.targetIndex active < index
  end.


(** * The scroll view that drives the controller

    An embedding of the part of
    [packages/react-virtualizer/src/components/VirtualizerScrollViewDynamic/useVirtualizerScrollViewDynamic.tsx]
    that talks to the controller: the refs the hook keeps, the handlers it
    passes to the controller, and the imperative [scrollTo] and
    [scrollToPosition].

    Callbacks given by the user are opaque: they are named by a number and a
    call of one is recorded, with its argument, in [calls].  The controller
    keeps of the callback it is started with only whether there is one;
    [operationCallback] holds the function itself, as the operation object
    does in the source.  The handlers the hook passes to the controller do
    not call back into it, so they are run over the notifications of a
    controller step once the step is done, oldest first. *)

Module View.

Inductive Call :=
| Invoke (callback index : Z)         (* a scroll callback is called *)
| FlagIndex (index : option Z)        (* the virtualizer's setFlaggedIndex *)
| ScrollViewTo (ax : Axis) (position : Q) (behavior : ScrollBehavior).

Record State := mk {
  scrollCallbackRef : option Z;
  isScrollToActiveRef : bool;
  measuredIndexSetRef : gset Z;
  wired : bool;       (* the two callback refs hold the controller's handlers *)
  operationCallback : option Z;
  controller : World;
  calls : list Call   (* newest first *)
}.

Definition set_scrollCallbackRef x v :=
  mk x (isScrollToActiveRef v) (measuredIndexSetRef v) (wired v)
     (operationCallback v) (controller v) (calls v).
Definition set_isScrollToActiveRef x v :=
  mk (scrollCallbackRef v) x (measuredIndexSetRef v) (wired v)
     (operationCallback v) (controller v) (calls v).
Definition set_measuredIndexSetRef x v :=
  mk (scrollCallbackRef v) (isScrollToActiveRef v) x (wired v)
     (operationCallback v) (controller v) (calls v).
Definition set_wired x v :=
  mk (scrollCallbackRef v) (isScrollToActiveRef v) (measuredIndexSetRef v) x
     (operationCallback v) (controller v) (calls v).
Definition set_operationCallback x v :=
  mk (scrollCallbackRef v) (isScrollToActiveRef v) (measuredIndexSetRef v)
     (wired v) x (controller v) (calls v).
Definition set_controller x v :=
  mk (scrollCallbackRef v) (isScrollToActiveRef v) (measuredIndexSetRef v)
     (wired v) (operationCallback v) x (calls v).
Definition call (c : Call) v :=
  mk (scrollCallbackRef v) (isScrollToActiveRef v) (measuredIndexSetRef v)
     (wired v) (operationCallback v) (controller v) (c :: calls v).

(** The hook before its first effect ran. *)
Definition initial : State :=
  mk None false ∅ false None initialWorld [].

(** The props of the hook that reach the controller, and what the hook
    sees of its surroundings. *)
Record Props := {
  axis : Axis;
  reversed : bool;
  enableScrollAnchor : option bool;        (* [None]: not given *)
  offsetForIndex : Z -> option Q;          (* [getOffsetForIndex] of this render *)
  virtualizer : bool;                      (* [_imperativeVirtualizerRef.current] is set *)
  domScrollTo : Axis -> Q -> ScrollBehavior -> Q * Q -> Q * Q
}.

(** [const maintainPosition = enableScrollAnchor !== false]. *)
Definition maintainPosition (p : Props) : bool :=
  match enableScrollAnchor p with Some false => false | _ => true end.

(** The parameters [useScrollToDynamicController] is called with; what the
    hook leaves out takes the controller's default. *)
Definition controllerParams (p : Props) : Params :=
  Build_Params (axis p) (reversed p) (Some (offsetForIndex p))
    (maintainPosition p) DEFAULT_MAX_CORRECTIONS None.

Definition resolveScrollCallback (index : Z) (v : State) : State :=
  match scrollCallbackRef v with
  | Some callback => call (Invoke callback index) (set_scrollCallbackRef None v)
  | None => v
  end.

Definition handleOperationComplete (index : Z) (v : State) : State :=
  resolveScrollCallback index v.

Definition handleOperationCancel (index : Z) (reason : CancelReason)
    (v : State) : State :=
  set_scrollCallbackRef None (set_isScrollToActiveRef false v).

Definition handlePinReleased (index : Z) (v : State) : State :=
  set_isScrollToActiveRef false v.

Definition setFlaggedIndex (p : Props) (flaggedIndex : option Z)
    (v : State) : State :=
  if virtualizer p then call (FlagIndex flaggedIndex) v else v.

(** One notification of the controller, as the hook receives it. *)
Definition notify (p : Props) (e : Effect) (v : State) : State :=
  match e with
  | ECallback index =>
      match operationCallback v with
      | Some callback => call (Invoke callback index) v
      | None => v
      end
  | EOperationComplete index => handleOperationComplete index v
  | EOperationCancel index reason => handleOperationCancel index reason v
  | EPinReleased index => handlePinReleased index v
  | ESetFlaggedIndex index => setFlaggedIndex p index v
  | EScrollBy _ _ | EScrollTo _ _ | EScrollToItemDynamic _ _ => v
  end.

(** The notifications [new] (newest first), delivered in order. *)
Definition deliver (p : Props) (new : list Effect) (v : State) : State :=
  fold_left (fun v e => notify p e v) (rev new) v.

Section Hook.

Variable p : Props.
Variable H : Host.
Variable L : Layout.
Variable fuel : nat.

(** A call into the controller, with the notifications it sends. *)
Definition drive (e : Event) (v : State) : option State :=
  match step (controllerParams p) H L fuel e (controller v) with
  | Some w' =>
      Some (deliver p (newEntries (controller v) w') (set_controller w' v))
  | None => None
  end.

Definition handleItemMeasured (index : Z) (size delta : Q) (v : State)
    : option State :=
  let v := set_measuredIndexSetRef ({[index]} ∪ measuredIndexSetRef v) v in
  if wired v then drive (HandleItemMeasured index size delta) v else Some v.

Definition handleRenderedIndex (index : Z) (v : State) : option State :=
  if wired v then
    let handled := handleRenderedResult (controller v) index in
    match drive (HandleRendered index) v with
    | Some v' =>
        Some (if handled then v' else resolveScrollCallback index v')
    | None => None
    end
  else Some (resolveScrollCallback index v).

(** [scrollTo] of the imperative handle. *)
Definition scrollTo (index : Z) (behavior : ScrollBehavior)
    (callback : option Z) (v : State) : option State :=
  let v := set_scrollCallbackRef callback v in
  let v := set_isScrollToActiveRef true v in
  drive (Start index behavior (isSome callback))
    (set_operationCallback callback v).

(** [scrollToPosition] of the imperative handle. *)
Definition scrollToPosition (position : Q) (behavior : ScrollBehavior)
    (index : option Z) (callback : option Z) (v : State) : option State :=
  let v := match callback with
           | Some _ => set_scrollCallbackRef callback v
           | None => v
           end in
  match drive Cancel v with
  | Some v =>
      Some
        (if virtualizer p then
           let v := match index with
                    | Some i => setFlaggedIndex p (Some i) v
                    | None => v
                    end in
           if isSome (scrollView L) then
             let w := controller v in
             call (ScrollViewTo (axis p) position behavior)
               (set_controller
                  (set_scroll (domScrollTo p (axis p) position behavior
                                 (scrollTop w, scrollLeft w)) w) v)
           else v
         else v)
  | None => None
  end.

Inductive Event :=
| ScrollTo (index : Z) (behavior : ScrollBehavior) (callback : option Z)
| ScrollToPosition (position : Q) (behavior : ScrollBehavior)
    (index : option Z) (callback : option Z)
| ItemMeasured (index : Z) (size delta : Q)
| RenderedIndex (index : Z)
| Wire                 (* the effect that stores the controller's handlers *)
| Unwire               (* its cleanup *)
| Timer (s : Slot)
| Scrolled
| Unmounted.

Definition step (e : Event) (v : State) : option State :=
  match e with
  | ScrollTo index behavior callback => scrollTo index behavior callback v
  | ScrollToPosition position behavior index callback =>
      scrollToPosition position behavior index callback v
  | ItemMeasured index size delta => handleItemMeasured index size delta v
  | RenderedIndex index => handleRenderedIndex index v
  | Wire => Some (set_wired true v)
  | Unwire => Some (set_wired false v)
  | Timer s => drive (Fire s) v
  | Scrolled => drive ScrollEvent v
  | Unmounted => drive Unmount v
  end.

End Hook.

Fixpoint run (p : Props) (H : Host) (fuel : nat)
    (es : list (Layout * Event)) (v : State) : option State :=
  match es with
  | [] => Some v
  | (L, e) :: es' =>
      match step p H L fuel e v with
      | Some v' => run p H fuel es' v'
      | None => None
      end
  end.

(** The scroll callbacks called so far, oldest first. *)
Definition invocations (v : State) : list (Z * Z) :=
  flat_map (fun c => match c with
                     | Invoke callback index => [(callback, index)]
                     | _ => []
                     end) (rev (calls v)).

End View.

(** While the controller has a current operation the flag that switches the
    measuring hook's own scroll compensation off is up. *)
Definition compensationOff (v : View.State) : Prop :=
  isActive (View.controller v) = true -> View.isScrollToActiveRef v = true.


(** ** Sizes and offsets of the scroll view

    The functions of [useVirtualizerScrollViewDynamic] that turn tracked
    sizes into the offsets and sizes the controller scrolls by.  Numbers are
    rationals; an entry of [progressiveSizes] that is not a finite number is
    [None], and so is the [undefined] an array gives outside its bounds. *)

Module Sizes.

Record t := {
  itemSize : Q;                               (* props.itemSize *)
  gap : Q;
  sizeTrackingArray : list Q;                 (* sizeTrackingArray.current *)
  progressiveSizes : option (list (option Q)) (* [None]: no virtualizer ref *)
}.

(** [array[index]]. *)
Definition item {A} (array : list A) (index : Z) : option A :=
  if index <? 0 then None else array !! Z.to_nat index.

Definition len {A} (array : list A) : Z := Z.of_nat (length array).

Definition getChildSizeAuto (s : t) (index : Z) : option Q :=
  if (len (sizeTrackingArray s) <=? index)
     || match item (sizeTrackingArray s) index with
        | Some size => Qle_bool size 0
        | None => false                       (* undefined <= 0 *)
        end
  then Some (itemSize s)
  else item (sizeTrackingArray s) index.

Definition getTotalSize (s : t) : option Q :=
  match progressiveSizes s with
  | Some sizes =>
      if 0 <? len sizes
      then match item sizes (Z.max (len sizes - 1) 0) with
           | Some total => total
           | None => None
           end
      else Some 0%Q
  | None => Some 0%Q
  end.

(** One turn of the loop of [getOffsetForIndex]. *)
Definition addItem (s : t) (index : Z) (total : Q) (i : Z) : Q :=
  let size :=
    match item (sizeTrackingArray s) i with
    | Some size => if Qltb 0 size then size else itemSize s
    | None => itemSize s
    end in
  let total := (total + size)%Q in
  if negb (Qeq_bool (gap s) 0) && (i <? index - 1)
  then (total + gap s)%Q else total.

Definition getOffsetForIndex (s : t) (index : Z) : Q :=
  if index <=? 0 then 0%Q
  else
    let summed :=
      let limit := Z.min index (len (sizeTrackingArray s)) in
      fold_left (addItem s index) (seqZ 0 limit) 0%Q in
    match progressiveSizes s with
    | Some sizes =>
        if (0 <? len sizes) && (index - 1 <? len sizes)
        then match item sizes (index - 1) with
             | Some (Some value) => value
             | _ => summed
             end
        else summed
    | None => summed
    end.


(** The size the loop counts for a tracked size. *)
Definition effectiveSize (s : t) (size : Q) : Q :=
  if Qltb 0 size then size else itemSize s.



End Sizes.

(** ** Concrete scroll views and sizes *)

(** A vertical scroll view with a virtualizer, items of a hundred units. *)
Definition viewProps : View.Props :=
  {| View.axis := vertical;
     View.reversed := false;
     View.enableScrollAnchor := None;
     View.offsetForIndex := fun index => Some (inject_Z (100 * index));
     View.virtualizer := true;
     View.domScrollTo := fun ax position _ pos =>
       match ax with
       | vertical => (position, snd pos)
       | horizontal => (fst pos, position)
       end |}.

(** The scroll view a run from the initial hook leaves ([View.initial] if the
    model runs out of fuel). *)
Definition viewAfter (es : list (Layout * View.Event)) : View.State :=
  match View.run viewProps browser 1 es View.initial with
  | Some v => v
  | None => View.initial
  end.

(** Three tracked sizes, the second not measured yet. *)
Definition trackedSizes : Sizes.t :=
  {| Sizes.itemSize := 50;
     Sizes.gap := 4;
     Sizes.sizeTrackingArray := [100; 0; 70]%Q;
     Sizes.progressiveSizes := None |}.

(** Operation 1 (target 5) measured, with no correction budget: only the
    stability timer is armed. *)
Definition settlingWorld : World :=
  after (props 0 None) browser
    [(alignedLayout, Start 5 instant true);
     (alignedLayout, HandleItemMeasured 5 100 100)].

(** Operation 1 (target 5) measured, then cancelled. *)
Definition cancelledWorld : World :=
  after (props 10 None) browser
    [(alignedLayout, Start 5 instant true);
     (alignedLayout, HandleItemMeasured 5 100 100);
     (alignedLayout, Cancel)].


(** ** Proof tools *)

#[local] Arguments Qplus : simpl never.
#[local] Arguments Qabs : simpl never.
#[local] Arguments Qopp : simpl never.
#[local] Arguments Qminus : simpl never.
#[local] Arguments Qle_bool : simpl never.
#[local] Arguments Qeq_bool : simpl never.
#[local] Arguments Qltb : simpl never.

Lemma withOp_hit (a : Z) (k : Op.t -> M) (w : World) (o : Op.t) :
  ops w !! a = Some o -> withOp a k w = k o w.
Proof. unfold withOp. intros ->. reflexivity. Qed.

Lemma newEntries_app (w w' : World) (new : list Effect) :
  log w' = new ++ log w -> newEntries w w' = new.
Proof.
  intros E. unfold newEntries. rewrite E, length_app.
  replace (length new + length (log w) - length (log w))%nat with (length new) by lia.
  rewrite firstn_app, Nat.sub_diag, firstn_all. cbn. apply app_nil_r.
Qed.

Lemma run_app (P : Params) (H : Host) (fuel : nat)
    (es1 es2 : list (Layout * Event)) (w w1 : World) :
  run P H fuel es1 w = Some w1 ->
  run P H fuel (es1 ++ es2) w = run P H fuel es2 w1.
Proof.
  revert w. induction es1 as [|[L e] es1 IH]; intros w Hrun.
  - cbn in Hrun. injection Hrun as <-. reflexivity.
  - cbn [run app] in *. unfold seq in *.
    destruct (step P H L fuel e w); [|discriminate]. apply IH, Hrun.
Qed.

Ltac heap Ho := rewrite ?lookup_alter_eq, ?lookup_insert_eq, ?Ho.

Ltac break_match :=
  match goal with
  | |- context [match ?x with _ => _ end] =>
      lazymatch x with
      | context [match _ with _ => _ end] => fail
      | _ => destruct x eqn:?
      end
  end.

(** Symbolic execution of a handler on a world whose active operation is
    known through [Ho]. *)
Ltac exec Ho := repeat (cbn; heap Ho; cbn; try break_match).

Ltac unfold_monad :=
  unfold withOp, seq, modOp, modWorld, emit, ret, readWorld in *.

(** ** Alignment evaluation *)

(** C9, as the claim states it, fails: with the element there and the scroll
    view not mounted, the evaluation answers exists = true and aligned =
    false, although the leading delta and the trailing overflow it reports
    are both zero, within the tolerance. *)
Lemma unmounted_alignment_is_not_aligned :
  let r := evaluateTargetAlignment (props 10 None) unmountedLayout 5 in
  elementExists r = true /\
  aligned r = false /\
  (Qabs (startDelta r) <= VIEWPORT_TOLERANCE)%Q /\
  (endOverflow r <= VIEWPORT_TOLERANCE)%Q.
Proof. repeat split; vm_compute; discriminate. Qed.

(** C9, amended. For every index the evaluation returns a trailing overflow
    floored at zero, and [aligned] holds iff the scroll view is mounted, the
    element is located, and the absolute leading delta and the trailing
    overflow are both within the tolerance of one unit.  When the element is
    not located it answers exists = false and aligned = false.  When the
    scroll view is not mounted it answers aligned = false and zero for both
    magnitudes, and exists tells whether the element is there.  When both
    are there, exists = true and the two magnitudes are read off the two
    rectangles. *)
Theorem evaluateTargetAlignment_spec (P : Params) (L : Layout) (index : Z) :
  let r := evaluateTargetAlignment P L index in
  (0 <= endOverflow r)%Q /\
  (aligned r = true <->
   isSome (scrollView L) = true /\
   isSome (measured L index) = true /\
   (Qabs (startDelta r) <= VIEWPORT_TOLERANCE)%Q /\
   (endOverflow r <= VIEWPORT_TOLERANCE)%Q) /\
  (measured L index = None ->
   elementExists r = false /\ aligned r = false) /\
  (scrollView L = None ->
   elementExists r = isSome (measured L index) /\
   aligned r = false /\
   startDelta r = 0%Q /\
   endOverflow r = 0%Q) /\
  (forall container element,
      scrollView L = Some container -> measured L index = Some element ->
      elementExists r = true /\
      startDelta r = (axisStart (axis P) element - axisStart (axis P) container)%Q /\
      endOverflow r = Qmax 0 (axisEnd (axis P) element - axisEnd (axis P) container)).
Proof.
  unfold evaluateTargetAlignment.
  destruct (scrollView L) as [c|], (measured L index) as [e|]; cbn.
  - split; [apply Q.le_max_l|].
    split.
    { rewrite andb_true_iff, !Qle_bool_iff. tauto. }
    split; [discriminate|]. split; [discriminate|].
    intros c' e' [= <-] [= <-].
    split; [reflexivity|].
    split; destruct (axis P); reflexivity.
  - split; [apply Qle_refl|].
    split; [split; [discriminate | intros (_ & E & _); discriminate E]|].
    split; [auto|]. split; [discriminate|]. intros ? ? _ [=].
  - split; [apply Qle_refl|].
    split; [split; [discriminate | intros (E & _); discriminate E]|].
    split; [discriminate|]. split; [auto|]. intros ? ? [=].
  - split; [apply Qle_refl|].
    split; [split; [discriminate | intros (E & _); discriminate E]|].
    split; [auto|]. split; [auto|]. intros ? ? [=].
Qed.

Lemma evaluateTargetAlignment_spec_witness :
  aligned (evaluateTargetAlignment (props 10 None) alignedLayout 5) = true /\
  aligned (evaluateTargetAlignment (props 10 None) misalignedLayout 5) = false /\
  elementExists (evaluateTargetAlignment (props 10 None) alignedLayout 6) = false /\
  aligned (evaluateTargetAlignment (props 10 None) unmountedLayout 5) = false.
Proof.
  pose proof (evaluateTargetAlignment_spec (props 10 None) alignedLayout 5)
    as (_ & Hiff & _).
  pose proof (evaluateTargetAlignment_spec (props 10 None) alignedLayout 6)
    as (_ & _ & Hout & _).
  pose proof (evaluateTargetAlignment_spec (props 10 None) unmountedLayout 5)
    as (_ & _ & _ & Hview & _).
  split; [|split; [|split]].
  - apply Hiff. repeat split; vm_compute; discriminate.
  - reflexivity.
  - apply Hout. reflexivity.
  - apply Hview. reflexivity.
Defined.

(** ** Stale callbacks *)

Section Proofs.

Variable P : Params.
Variable H : Host.
Variable L : Layout.

Lemma guardActive_stale (K : Z) (k : Z -> M) (w : World) :
  stale K w -> guardActive K k w = Some w.
Proof.
  unfold stale, guardActive, readWorld.
  destruct (operationRef w) as [a|]; [|reflexivity].
  intros (active & Ho & Hid). rewrite (withOp_hit _ _ _ _ Ho).
  apply Z.eqb_neq in Hid. rewrite Hid. reflexivity.
Qed.

Lemma runCallback_stale (fuel : nat) (c : Callback) (K : Z) (w : World) :
  stale K w -> runCallback P H L fuel c K w = Some w.
Proof.
  intros Hs. destruct c; cbn;
    unfold executeCorrection, runCheck, commitAnchor, pinExpired, programmaticReset;
    apply guardActive_stale; exact Hs.
Qed.

Lemma stale_setSlot (K : Z) (s : Slot) (v : option Z) (w : World) :
  stale K w -> stale K (setSlot s v w).
Proof. unfold stale. destruct s; cbn; auto. Qed.

End Proofs.

(** C1. A scheduled callback (correction frame, stability timer, anchor
    callback, pin timer, programmatic-scroll reset) that captured operation
    id [K] and fires when no operation is active or the active operation has
    another id leaves the whole controller state as it was: no operation
    field changes, nothing is logged, the scroll position stays.  Firing the
    slot that held it only empties that slot. *)
Theorem stale_callback_is_noop (P : Params) (H : Host) (L : Layout)
    (fuel : nat) (K : Z) (w : World) :
  stale K w ->
  (forall c, runCallback P H L fuel c K w = Some w) /\
  (forall s, getSlot s w = Some K ->
             step P H L fuel (Fire s) w = Some (setSlot s None w)).
Proof.
  intros Hs. split.
  - intros c. apply runCallback_stale. exact Hs.
  - intros s Hslot. cbn. unfold readWorld. rewrite Hslot.
    unfold seq, modWorld. apply runCallback_stale, stale_setSlot, Hs.
Qed.

Lemma stale_callback_is_noop_witness :
  stale 1 supersededWorld /\
  runCallback (props 10 None) browser alignedLayout 1 CorrectionCallback 1
    supersededWorld = Some supersededWorld.
Proof.
  assert (Hs : stale 1 supersededWorld).
  { vm_compute. eexists. split; [reflexivity | discriminate]. }
  split; [exact Hs|].
  exact (proj1 (stale_callback_is_noop (props 10 None) browser alignedLayout
                  1 1 supersededWorld Hs) CorrectionCallback).
Defined.

(** ** Finalization *)

Lemma Status_eqb_stable (s : Status) : Status_eqb s stable = true <-> s = stable.
Proof. destruct s; cbn; split; congruence. Qed.

Lemma finalizeOperation_stable (P : Params) (H : Host) (L : Layout)
    (a : Z) (w : World) (o : Op.t) :
  ops w !! a = Some o -> Op.status o = stable ->
  finalizeOperation P H L a w = Some w.
Proof.
  intros Ho Hs. unfold finalizeOperation.
  rewrite (withOp_hit _ _ _ _ Ho), Hs. reflexivity.
Qed.

Ltac unfold_finalize :=
  unfold finalizeOperation, startPin, releasePin, clearStabilityTimeout,
    cancelScheduledFrame, clearPinTimeout, cancelAnchorFrame, setTimeoutHook,
    clearHook, ensureScrollListener, detachScrollListener.

(** C7. [finalizeOperation] is idempotent.  On an operation that is already
    stable it changes nothing and fires nothing.  On any other operation it
    sets the status to stable and invokes the completion callbacks with the
    target index, once; running it again on the result is the no-op of the
    first case, so the completion callback fires at most once. *)
Theorem finalizeOperation_idempotent (P : Params) (H : Host) (L : Layout)
    (a : Z) (w : World) (o : Op.t) :
  ops w !! a = Some o ->
  (Op.status o = stable -> finalizeOperation P H L a w = Some w) /\
  (Op.status o <> stable ->
   exists w' o',
     finalizeOperation P H L a w = Some w' /\
     ops w' !! a = Some o' /\
     Op.status o' = stable /\
     log w' =
       (if maintainPosition P then [] else [EPinReleased (Op.targetIndex o)])
       ++ ESetFlaggedIndex None
       :: EOperationComplete (Op.targetIndex o)
       :: (if Op.callback o then [ECallback (Op.targetIndex o)] else [])
       ++ log w /\
     finalizeOperation P H L a w' = Some w').
Proof.
  intros Ho. split; [apply finalizeOperation_stable; exact Ho|].
  intros Hs.
  assert (Hne : Status_eqb (Op.status o) stable = false).
  { destruct (Status_eqb (Op.status o) stable) eqn:E; [|reflexivity].
    apply Status_eqb_stable in E. contradiction. }
  assert (Hmain : exists w' o',
     finalizeOperation P H L a w = Some w' /\
     ops w' !! a = Some o' /\
     Op.status o' = stable /\
     log w' =
       (if maintainPosition P then [] else [EPinReleased (Op.targetIndex o)])
       ++ ESetFlaggedIndex None
       :: EOperationComplete (Op.targetIndex o)
       :: (if Op.callback o then [ECallback (Op.targetIndex o)] else [])
       ++ log w).
  { unfold_finalize. unfold_monad. rewrite Ho, Hne.
    exec Ho; eexists; eexists; (split; [reflexivity|]); cbn; heap Ho; cbn;
      (split; [reflexivity|]); split; reflexivity. }
  destruct Hmain as (w' & o' & Hf & Ho' & Hs' & Hlog).
  exists w', o'. repeat split; try assumption.
  apply (finalizeOperation_stable P H L a w' o' Ho' Hs').
Qed.

Lemma finalizeOperation_idempotent_witness :
  exists w', finalizeOperation (props 10 None) browser alignedLayout 1
               pinnedWorld = Some w' /\ w' = pinnedWorld.
Proof.
  assert (Ho : exists o, ops pinnedWorld !! 1 = Some o /\ Op.status o = stable).
  { eexists. split; vm_compute; reflexivity. }
  destruct Ho as (o & Ho & Hs).
  exists pinnedWorld. split; [|reflexivity].
  exact (proj1 (finalizeOperation_idempotent (props 10 None) browser
                  alignedLayout 1 pinnedWorld o Ho) Hs).
Defined.

(** ** Compensation while stable *)

Ltac unfold_scroll :=
  unfold applyScrollByDelta, scheduleProgrammaticScrollReset, requestFrameHook,
    programmaticReset, guardActive, signAdjusted.

Lemma Qeq_bool_false (a b : Q) : ~ (a == b)%Q -> Qeq_bool a b = false.
Proof.
  intros Hne. destruct (Qeq_bool a b) eqn:E; [|reflexivity].
  apply Qeq_bool_iff in E. contradiction.
Qed.

(** C5, as the claim states it, fails: the adjustment is not unconditional.
    On a stable operation that maintains position, a measurement of an index
    below the target with a nonzero delta changes nothing while the scroll
    view is not mounted: nothing is scrolled. *)
Lemma unmounted_stable_resize_scrolls_nothing :
  exists o,
    operationRef pinnedWorld = Some 1 /\
    ops pinnedWorld !! 1 = Some o /\
    Op.status o = stable /\
    Op.maintainPosition o = true /\
    3 < Op.targetIndex o /\
    ~ (120 == 0)%Q /\
    step (props 10 (Some 5000%Q)) browser unmountedLayout 1
      (HandleItemMeasured 3 300 120) pinnedWorld = Some pinnedWorld.
Proof.
  eexists. split; [reflexivity|]. split; [vm_compute; reflexivity|].
  repeat split; try (vm_compute; reflexivity). vm_compute. discriminate.
Qed.

(** C5, amended. While the active operation is stable and maintains
    position, a measurement of an index strictly below the target with a
    nonzero delta is answered at once.  With the scroll view mounted, by one
    direct scroll adjustment of that delta (negated for a reversed list):
    the scroll position along the axis moves by exactly that amount, and
    neither the coalescing accumulator, its callback, nor the correction
    budget is touched.  With the scroll view not mounted, by nothing: the
    controller is left as it was. *)
Theorem stable_resize_is_compensated_at_once (P : Params) (H : Host)
    (L : Layout) (fuel : nat) (w : World) (a : Z) (o : Op.t)
    (index : Z) (size delta : Q) :
  operationRef w = Some a ->
  ops w !! a = Some o ->
  Op.status o = stable ->
  Op.maintainPosition o = true ->
  index < Op.targetIndex o ->
  ~ (delta == 0)%Q ->
  if isSome (scrollView L) then
    exists w' o',
      step P H L fuel (HandleItemMeasured index size delta) w = Some w' /\
      scrollPosition (axis P) w' = (scrollPosition (axis P) w + signAdjusted P delta)%Q /\
      scrollPosition (crossAxis (axis P)) w' = scrollPosition (crossAxis (axis P)) w /\
      log w' = EScrollBy (axis P) (signAdjusted P delta) :: log w /\
      operationRef w' = Some a /\
      ops w' !! a = Some o' /\
      Op.status o' = stable /\
      Op.pendingAnchorDelta o' = Op.pendingAnchorDelta o /\
      Op.anchorFrameId o' = Op.anchorFrameId o /\
      Op.correctionsRemaining o' = Op.correctionsRemaining o /\
      getSlot AnchorFrame w' = getSlot AnchorFrame w /\
      getSlot AnchorTimeout w' = getSlot AnchorTimeout w
  else
    step P H L fuel (HandleItemMeasured index size delta) w = Some w.
Proof.
  intros Hactive Ho Hstable Hmaintain Hbelow Hdelta.
  apply Qeq_bool_false in Hdelta. apply Z.ltb_lt in Hbelow.
  destruct (scrollView L) as [container|] eqn:Hview; cbn [isSome].
  - destruct w; cbn in Hactive, Ho; subst.
    cbn [step]. unfold handleItemMeasured. unfold_scroll. unfold_monad.
    cbn. rewrite Ho, Hstable, Hmaintain, Hbelow, Hdelta, Hview.
    exec Ho;
      eexists; eexists; (split; [reflexivity|]); cbn; heap Ho; cbn;
      repeat split; first [reflexivity | exact Hstable].
  - cbn [step]. unfold handleItemMeasured, readWorld. rewrite Hactive.
    unfold withOp. rewrite Ho, Hstable, Hmaintain, Hbelow, Hdelta.
    cbn. unfold applyScrollByDelta. rewrite Hview. reflexivity.
Qed.

Lemma stable_resize_is_compensated_at_once_witness :
  exists w',
    step (props 10 (Some 5000%Q)) browser alignedLayout 1
      (HandleItemMeasured 3 300 120) pinnedWorld = Some w' /\
    scrollTop w' = (scrollTop pinnedWorld + 120)%Q /\
    log w' = EScrollBy vertical 120 :: log pinnedWorld.
Proof.
  assert (Ho : exists o, ops pinnedWorld !! 1 = Some o /\
                         Op.status o = stable /\
                         Op.maintainPosition o = true /\
                         3 < Op.targetIndex o).
  { eexists. split; [vm_compute; reflexivity|]. repeat split. }
  destruct Ho as (o & Ho & Hs & Hm & Hlt).
  destruct (stable_resize_is_compensated_at_once (props 10 (Some 5000%Q))
              browser alignedLayout 1 pinnedWorld 1 o 3 300 120
              eq_refl Ho Hs Hm Hlt)
    as (w' & o' & Hstep & Hpos & _ & Hlog & _).
  { vm_compute. discriminate. }
  exists w'. split; [exact Hstep|]. split; [exact Hpos | exact Hlog].
Defined.

(** ** Teardown *)

(** What [clearOperation] does to an active operation, field by field. *)
Lemma clearOperation_active (L : Layout) (reason : option CancelReason)
    (w : World) (a : Z) (o : Op.t) :
  operationRef w = Some a ->
  ops w !! a = Some o ->
  exists w' o',
    clearOperation L reason w = Some w' /\
    operationRef w' = None /\
    scrollTop w' = scrollTop w /\
    scrollLeft w' = scrollLeft w /\
    log w' =
      match reason with
      | Some r => [EOperationCancel (Op.targetIndex o) r]
      | None => []
      end ++ ESetFlaggedIndex None :: log w /\
    ops w' !! a = Some o' /\
    Op.isPinned o' = false /\
    Op.stabilityTimeoutId o' = None /\
    Op.pinTimeoutId o' = None /\
    Op.scheduleFrameId o' = None /\
    Op.anchorFrameId o' = None /\
    scrollListenerRef w' = false /\
    nextHandle w' = nextHandle w /\
    operationIdRef w' = operationIdRef w /\
    (isSome (Op.stabilityTimeoutId o) = true -> getSlot StabilityTimeout w' = None) /\
    (isSome (Op.pinTimeoutId o) = true -> getSlot PinTimeout w' = None) /\
    (isSome (Op.scheduleFrameId o) = true -> getSlot CorrectionFrame w' = None) /\
    (isSome (Op.anchorFrameId o) = true ->
     getSlot AnchorFrame w' = None /\
     getSlot AnchorTimeout w' = None /\
     Op.pendingAnchorDelta o' = 0%Q).
Proof.
  intros Hactive Ho. destruct w; cbn in Hactive, Ho; subst.
  unfold clearOperation. unfold_finalize. unfold_monad.
  exec Ho; eexists; eexists; (split; [reflexivity|]); cbn; heap Ho; cbn;
    repeat split; try reflexivity; try discriminate; assumption.
Qed.

(** What [clearOperation] leaves of the accumulator when no coalescing
    callback is outstanding. *)
Lemma clearOperation_residue (L : Layout) (reason : option CancelReason)
    (w : World) (a : Z) (o : Op.t) :
  operationRef w = Some a ->
  ops w !! a = Some o ->
  Op.anchorFrameId o = None ->
  exists w' o',
    clearOperation L reason w = Some w' /\
    ops w' !! a = Some o' /\
    Op.pendingAnchorDelta o' = Op.pendingAnchorDelta o /\
    getSlot AnchorFrame w' = getSlot AnchorFrame w /\
    getSlot AnchorTimeout w' = getSlot AnchorTimeout w.
Proof.
  intros Hactive Ho Hnone. destruct w; cbn in Hactive, Ho; subst.
  unfold clearOperation. unfold_finalize. unfold_monad.
  exec Ho; try congruence;
    eexists; eexists; (split; [reflexivity|]); cbn; heap Ho; cbn;
    repeat split; reflexivity.
Qed.

(** C10, as the claim states it, fails: the accumulator is not always
    zeroed.  An upstream delta of a tenth stays below the epsilon, so no
    coalescing callback is scheduled for it; [cancel] then drops the record
    with the tenth still in its accumulator. *)
Lemma clearOperation_keeps_small_residue :
  exists w' o o',
    ops residueWorld !! 1 = Some o /\
    Op.anchorFrameId o = None /\
    Op.pendingAnchorDelta o = (0 + (1 # 10))%Q /\
    cancel alignedLayout residueWorld = Some w' /\
    operationRef w' = None /\
    ops w' !! 1 = Some o' /\
    ~ (Op.pendingAnchorDelta o' == 0)%Q.
Proof.
  eexists. eexists. eexists.
  split; [vm_compute; reflexivity|]. split; [reflexivity|].
  split; [reflexivity|]. split; [vm_compute; reflexivity|].
  split; [reflexivity|]. split; [vm_compute; reflexivity|].
  vm_compute. discriminate.
Qed.

(** C10, amended. Tearing the active operation down with [clearOperation]
    (explicit cancel, user scroll, supersession, unmount) leaves the scroll
    position where it was and logs no scroll adjustment, and the record is
    dropped: what the accumulator holds is never applied.  When a coalescing
    callback was outstanding it is cancelled and the accumulator is zeroed;
    when none was, the accumulator keeps what it held, in the dropped
    record. *)
Theorem clearOperation_discards_pending_anchor (L : Layout)
    (reason : option CancelReason) (w : World) (a : Z) (o : Op.t) :
  operationRef w = Some a ->
  ops w !! a = Some o ->
  exists w' o',
    clearOperation L reason w = Some w' /\
    operationRef w' = None /\
    scrollTop w' = scrollTop w /\
    scrollLeft w' = scrollLeft w /\
    scrollAdjustments (newEntries w w') = [] /\
    ops w' !! a = Some o' /\
    Op.anchorFrameId o' = None /\
    (isSome (Op.anchorFrameId o) = true ->
     getSlot AnchorFrame w' = None /\
     getSlot AnchorTimeout w' = None /\
     Op.pendingAnchorDelta o' = 0%Q) /\
    (Op.anchorFrameId o = None ->
     getSlot AnchorFrame w' = getSlot AnchorFrame w /\
     getSlot AnchorTimeout w' = getSlot AnchorTimeout w /\
     Op.pendingAnchorDelta o' = Op.pendingAnchorDelta o).
Proof.
  intros Hactive Ho.
  destruct (clearOperation_active L reason w a o Hactive Ho)
    as (w' & o' & Hc & Href & Htop & Hleft & Hlog & Ho' & _ & _ & _ & _ & Hid
        & _ & _ & _ & _ & _ & _ & Hanchor).
  exists w', o'. repeat (split; [assumption|]).
  split.
  { destruct reason.
    - rewrite (newEntries_app w w' [_; _] Hlog). reflexivity.
    - rewrite (newEntries_app w w' [_] Hlog). reflexivity. }
  split; [assumption|]. split; [assumption|]. split; [exact Hanchor|].
  intros Hnone.
  destruct (clearOperation_residue L reason w a o Hactive Ho Hnone)
    as (w2 & o2 & Hc2 & Ho2 & Hp & Hs1 & Hs2).
  rewrite Hc in Hc2. injection Hc2 as <-.
  rewrite Ho' in Ho2. injection Ho2 as <-.
  repeat split; assumption.
Qed.

Lemma clearOperation_discards_pending_anchor_witness :
  exists w',
    cancel alignedLayout anchorPendingWorld = Some w' /\
    scrollTop w' = scrollTop anchorPendingWorld /\
    getSlot AnchorFrame anchorPendingWorld = Some 1 /\
    getSlot AnchorFrame w' = None.
Proof.
  assert (Ho : exists o, ops anchorPendingWorld !! 1 = Some o /\
                         isSome (Op.anchorFrameId o) = true).
  { eexists. split; [vm_compute; reflexivity | reflexivity]. }
  destruct Ho as (o & Ho & Hframe).
  destruct (clearOperation_discards_pending_anchor alignedLayout (Some cancelled)
              anchorPendingWorld 1 o eq_refl Ho)
    as (w' & o' & Hc & _ & Htop & _ & _ & _ & _ & Hanchor & _).
  exists w'. split; [exact Hc|]. split; [exact Htop|].
  split; [vm_compute; reflexivity|]. apply Hanchor. exact Hframe.
Defined.

(** ** Releasing the pin *)




(** ** How the handlers are built *)

Create HintDb built.

Lemma built_emitsOnly (okE : Effect -> bool) (alloc : bool) (f : M) :
  built okE alloc f -> emitsOnly okE f.
Proof.
  induction 1 as [| |f g _ IHf _ IHg|a k _ IH|k _ IH|a f _|g Hg|g _ Hg|e He];
    intros w w' Hrun.
  - injection Hrun as <-. exists []. split; reflexivity.
  - discriminate.
  - unfold seq in Hrun. destruct (f w) as [w1|] eqn:E; [|discriminate].
    destruct (IHf _ _ E) as (n1 & E1 & F1).
    destruct (IHg _ _ Hrun) as (n2 & E2 & F2).
    exists (n2 ++ n1). split.
    + rewrite E2, E1. apply app_assoc.
    + rewrite forallb_app, F1, F2. reflexivity.
  - unfold withOp in Hrun. destruct (ops w !! a); [|discriminate].
    eapply IH, Hrun.
  - eapply IH, Hrun.
  - injection Hrun as <-. exists []. split; reflexivity.
  - injection Hrun as <-. exists []. split; [apply Hg | reflexivity].
  - injection Hrun as <-. exists []. split; [apply Hg | reflexivity].
  - injection Hrun as <-. exists [e]. split; [reflexivity|].
    cbn. rewrite He. reflexivity.
Qed.

Lemma keeps_refl (o : Op.t) : keeps o o.
Proof. unfold keeps. repeat split; [lia | auto]. Qed.

Lemma keeps_trans (o1 o2 o3 : Op.t) : keeps o1 o2 -> keeps o2 o3 -> keeps o1 o3.
Proof.
  intros (Hi & Ht & Hb & Hs) (Hi' & Ht' & Hb' & Hs').
  unfold keeps. repeat split; [congruence | congruence | lia | auto].
Qed.

Lemma advances_refl (w : World) : advances w w.
Proof.
  split; [reflexivity|]. intros a. destruct (ops w !! a) as [o|]; [|reflexivity].
  exists o. split; [reflexivity | apply keeps_refl].
Qed.

Lemma advances_trans (w1 w2 w3 : World) :
  advances w1 w2 -> advances w2 w3 -> advances w1 w3.
Proof.
  intros [Hc H12] [Hc' H23]. split; [congruence|]. intros a.
  specialize (H12 a). specialize (H23 a).
  destruct (ops w1 !! a) as [o1|].
  - destruct H12 as (o2 & E2 & K12). rewrite E2 in H23.
    destruct H23 as (o3 & E3 & K23). exists o3. split; [exact E3|].
    eapply keeps_trans; eassumption.
  - rewrite H12 in H23. exact H23.
Qed.

Lemma advances_same_store (w w' : World) :
  ops w' = ops w -> operationIdRef w' = operationIdRef w -> advances w w'.
Proof.
  intros Hops Hc. split; [exact Hc|]. intros a. rewrite Hops.
  destruct (ops w !! a) as [o|]; [|reflexivity].
  exists o. split; [reflexivity | apply keeps_refl].
Qed.

Lemma built_advances (okE : Effect -> bool) (f : M) :
  built okE false f -> forall w w', f w = Some w' -> advances w w'.
Proof.
  induction 1 as [| |f g _ IHf _ IHg|a k _ IH|k _ IH|a f Hf|g Hg|g Halloc _|e _];
    intros w w' Hrun.
  - injection Hrun as <-. apply advances_refl.
  - discriminate.
  - unfold seq in Hrun. destruct (f w) as [w1|] eqn:E; [|discriminate].
    eapply advances_trans; [eapply IHf, E | eapply IHg, Hrun].
  - unfold withOp in Hrun. destruct (ops w !! a); [|discriminate].
    eapply IH, Hrun.
  - eapply IH, Hrun.
  - injection Hrun as <-. split; [reflexivity|]. intros b. cbn.
    destruct (decide (a = b)) as [->|Hne].
    + rewrite lookup_alter_eq. destruct (ops w !! b) as [o|]; [|reflexivity].
      exists (f o). split; [reflexivity | apply Hf].
    + rewrite lookup_alter_ne by exact Hne.
      destruct (ops w !! b) as [o|]; [|reflexivity].
      exists o. split; [reflexivity | apply keeps_refl].
  - injection Hrun as <-. apply advances_same_store; apply Hg.
  - discriminate.
  - injection Hrun as <-. apply advances_same_store; reflexivity.
Qed.

Ltac steady_ok :=
  unfold steady; intros; cbn; repeat split;
  first [reflexivity | lia | (intros; assumption)].

Ltac world_ok :=
  intros; repeat split; cbn; repeat (break_match; cbn); reflexivity.

Ltac destruct_innermost x :=
  lazymatch x with
  | context [match ?y with _ => _ end] => destruct_innermost y
  | _ => destruct x; cbv beta iota
  end.

Ltac built_step :=
  lazymatch goal with
  | |- built _ _ ret => apply built_ret
  | |- built _ _ (fun _ => None) => apply built_stuck
  | |- built _ _ (_ >> _) => apply built_seq
  | |- built _ _ (withOp _ _) => apply built_withOp; intro
  | |- built _ _ (readWorld _) => apply built_readWorld; intro
  | |- built _ _ (modOp _ _) => apply built_modOp; steady_ok
  | |- built _ _ (modWorld _) => apply built_modWorld; world_ok
  | |- built _ _ (emit _) =>
      apply built_emit;
      first [ reflexivity
            | match goal with
              | Hok : forall e, isCancellation e = false -> _ |- _ =>
                  apply Hok; reflexivity
              end ]
  | |- built _ _ (match ?x with _ => _ end) => destruct_innermost x
  | |- built _ _ _ => first [assumption | solve [auto with built]]
  end.

Section Built.

Variable P : Params.
Variable H : Host.
Variable L : Layout.

(** The effects that may be emitted; every effect but a cancellation is
    among them. *)
Variable okE : Effect -> bool.
Hypothesis okE_other : forall e, isCancellation e = false -> okE e = true.

Variable alloc : bool.

Local Abbreviation ok := (built okE alloc).

Lemma built_setTimeoutHook s K k :
  (forall h, ok (k h)) -> ok (setTimeoutHook H s K k).
Proof. intros Hk. unfold setTimeoutHook, armSlot. repeat built_step; apply Hk. Qed.

Lemma built_requestFrameHook s K cb k :
  ok cb -> (forall h, ok (k h)) -> ok (requestFrameHook H s K cb k).
Proof.
  intros Hcb Hk. unfold requestFrameHook, armSlot. repeat built_step; apply Hk.
Qed.

Lemma built_guardActive K k : (forall a, ok (k a)) -> ok (guardActive K k).
Proof. intros Hk. unfold guardActive. repeat built_step; apply Hk. Qed.

Ltac builds :=
  repeat first
    [ built_step
    | lazymatch goal with
      | |- built _ _ (setTimeoutHook _ _ _ _) =>
          apply built_setTimeoutHook; intro
      | |- built _ _ (requestFrameHook _ _ _ _ _) =>
          apply built_requestFrameHook; [|intro]
      | |- built _ _ (guardActive _ _) => apply built_guardActive; intro
      end ].

Lemma built_clearHook s : ok (clearHook s).
Proof. unfold clearHook. builds. Qed.

Hint Resolve built_clearHook : built.

Lemma built_clearStabilityTimeout a : ok (clearStabilityTimeout a).
Proof. unfold clearStabilityTimeout. builds. Qed.

Lemma built_clearPinTimeout a : ok (clearPinTimeout a).
Proof. unfold clearPinTimeout. builds. Qed.

Lemma built_cancelScheduledFrame a : ok (cancelScheduledFrame a).
Proof. unfold cancelScheduledFrame. builds. Qed.

Lemma built_cancelAnchorFrame a : ok (cancelAnchorFrame a).
Proof. unfold cancelAnchorFrame. builds. Qed.

Lemma built_detachScrollListener : ok (detachScrollListener L).
Proof. unfold detachScrollListener. builds. Qed.

Lemma built_ensureScrollListener : ok (ensureScrollListener L).
Proof. unfold ensureScrollListener. builds. Qed.

Hint Resolve built_clearStabilityTimeout built_clearPinTimeout
  built_cancelScheduledFrame built_cancelAnchorFrame
  built_detachScrollListener built_ensureScrollListener : built.

(** [clearOperation] notifies a cancellation only when given a reason. *)
Lemma built_clearOperation reason :
  (forall index r, reason = Some r -> okE (EOperationCancel index r) = true) ->
  ok (clearOperation L reason).
Proof.
  intros Hreason. unfold clearOperation. builds.
  apply built_emit. apply Hreason. reflexivity.
Qed.

Lemma built_clearOperation_None : ok (clearOperation L None).
Proof. apply built_clearOperation. discriminate. Qed.

Lemma built_programmaticReset K : ok (programmaticReset K).
Proof. unfold programmaticReset. builds. Qed.

Hint Resolve built_clearOperation_None built_programmaticReset : built.

Lemma built_scheduleProgrammaticScrollReset a :
  ok (scheduleProgrammaticScrollReset H a).
Proof. unfold scheduleProgrammaticScrollReset. builds. Qed.

Hint Resolve built_scheduleProgrammaticScrollReset : built.

Lemma built_applyScrollByDelta a delta : ok (applyScrollByDelta P H L a delta).
Proof. unfold applyScrollByDelta. builds. Qed.

Lemma built_performScroll a b : ok (performScroll P H L a b).
Proof. unfold performScroll. builds. Qed.

Lemma built_releasePin a : ok (releasePin L a).
Proof. unfold releasePin. builds. Qed.

Hint Resolve built_applyScrollByDelta built_performScroll built_releasePin : built.

Lemma built_pinExpired K : ok (pinExpired L K).
Proof. unfold pinExpired. builds. Qed.

Lemma built_startPin a : ok (startPin P H L a).
Proof. unfold startPin. builds. Qed.

Hint Resolve built_startPin built_pinExpired : built.

Lemma built_finalizeOperation a : ok (finalizeOperation P H L a).
Proof. unfold finalizeOperation. builds. Qed.

Hint Resolve built_finalizeOperation : built.

Section WithRefs.

Variable R : Refs.
Hypothesis built_scheduleCorrectionRef : forall a, ok (scheduleCorrectionRef R a).
Hypothesis built_scheduleStabilityCheckRef :
  forall a, ok (scheduleStabilityCheckRef R a).

Lemma built_scheduleCorrection a : ok (scheduleCorrection R a).
Proof. apply built_scheduleCorrectionRef. Qed.

Lemma built_scheduleStabilityCheck a : ok (scheduleStabilityCheck R a).
Proof. apply built_scheduleStabilityCheckRef. Qed.

Hint Resolve built_scheduleCorrection built_scheduleStabilityCheck : built.

Lemma built_rescheduleStabilityCheck a : ok (rescheduleStabilityCheck H R a).
Proof. unfold rescheduleStabilityCheck. builds. Qed.

Hint Resolve built_rescheduleStabilityCheck : built.

Lemma built_runCheck K : ok (runCheck P H L R K).
Proof.
  unfold runCheck, decrementCorrections, resetStableIterations,
    minimalAdjustment, exceedsTolerance.
  builds.
Qed.

Hint Resolve built_runCheck : built.

Lemma built_scheduleStabilityCheckImpl a :
  ok (scheduleStabilityCheckImpl P H L R a).
Proof. unfold scheduleStabilityCheckImpl. builds. Qed.

Lemma built_executeCorrection K : ok (executeCorrection P H L R K).
Proof.
  unfold executeCorrection, decrementCorrections, minimalAdjustment,
    exceedsTolerance.
  builds.
Qed.

Hint Resolve built_executeCorrection : built.

Lemma built_scheduleCorrectionImpl a : ok (scheduleCorrectionImpl P H L R a).
Proof. unfold scheduleCorrectionImpl. builds. Qed.

Section WithSelf.

Variable self : Z -> Q -> M.
Hypothesis built_self : forall a delta, ok (self a delta).

Lemma built_commitAnchor K : ok (commitAnchor P H L R self K).
Proof. unfold commitAnchor, resetStableIterations. builds. Qed.

Hint Resolve built_commitAnchor : built.

Lemma built_scheduleAnchorAdjustmentBody a delta :
  ok (scheduleAnchorAdjustmentBody P H L R self a delta).
Proof. unfold scheduleAnchorAdjustmentBody, resetStableIterations. builds. Qed.

End WithSelf.

Lemma built_scheduleAnchorAdjustment fuel a delta :
  ok (scheduleAnchorAdjustment P H L R fuel a delta).
Proof.
  revert a delta. induction fuel as [|fuel IH]; intros a delta; cbn;
    apply built_scheduleAnchorAdjustmentBody; [intros; builds | exact IH].
Qed.

Hint Resolve built_scheduleAnchorAdjustment : built.

Lemma built_handleItemMeasured fuel index size delta :
  ok (handleItemMeasured P H L R fuel index size delta).
Proof. unfold handleItemMeasured, resetStableIterations. builds. Qed.

Lemma built_handleRenderedEffect index : ok (handleRenderedEffect R index).
Proof. unfold handleRenderedEffect. builds. Qed.

(** What [start] does once the record is allocated. *)
Lemma built_start_launch index behavior a :
  ok (modWorld (set_operationRef (Some a)) >>
      emit (ESetFlaggedIndex (Some index)) >>
      ensureScrollListener L >>
      performScroll P H L a behavior >>
      scheduleCorrection R a >>
      scheduleStabilityCheck R a).
Proof. builds. Qed.

End WithRefs.

Lemma built_refs fuel :
  (forall a, ok (scheduleCorrectionRef (refs P H L fuel) a)) /\
  (forall a, ok (scheduleStabilityCheckRef (refs P H L fuel) a)).
Proof.
  induction fuel as [|fuel [IHc IHs]]; cbn.
  - split; intros; builds.
  - split; intro a.
    + apply built_scheduleCorrectionImpl; assumption.
    + apply built_scheduleStabilityCheckImpl; assumption.
Qed.

Lemma built_runCallback fuel c K : ok (runCallback P H L fuel c K).
Proof.
  destruct (built_refs fuel) as [Hc Hs].
  destruct c; cbn.
  - apply built_executeCorrection; assumption.
  - apply built_runCheck; assumption.
  - apply built_commitAnchor; try assumption.
    intros. apply built_scheduleAnchorAdjustment; assumption.
  - apply built_pinExpired.
  - apply built_programmaticReset.
Qed.

Lemma built_scrollListener :
  (forall index, okE (EOperationCancel index user) = true) ->
  ok (scrollListener L).
Proof.
  intros Huser. unfold scrollListener. builds.
  apply built_clearOperation. intros index r [= <-]. apply Huser.
Qed.

End Built.

(** Every event but [start] is built without allocation, from any effects. *)
Lemma built_step_no_start (P : Params) (H : Host) (L : Layout) (fuel : nat)
    (e : Event) :
  (forall index behavior callback, e <> Start index behavior callback) ->
  built anyEffect false (step P H L fuel e).
Proof.
  intros Hns.
  assert (Hany : forall e0, isCancellation e0 = false -> anyEffect e0 = true)
    by reflexivity.
  destruct (built_refs P H L anyEffect Hany false fuel) as [Hrc Hrs].
  destruct e; cbn.
  - exfalso. eapply Hns. reflexivity.
  - apply built_handleItemMeasured; assumption.
  - apply built_handleRenderedEffect; assumption.
  - apply built_clearOperation; reflexivity.
  - apply built_clearOperation; reflexivity.
  - repeat built_step. apply built_scrollListener; reflexivity.
  - repeat built_step. apply built_runCallback. exact Hany.
Qed.

(** ** What a run does to the store *)

Lemma advances_grows (w w' : World) : advances w w' -> grows w w'.
Proof.
  intros [Hc Hrec]. split; [lia|]. intros a o Ho.
  specialize (Hrec a). rewrite Ho in Hrec. exact Hrec.
Qed.

Lemma advances_heapBounded (w w' : World) :
  advances w w' -> heapBounded w -> heapBounded w'.
Proof.
  intros [Hc Hrec] Hb a o' Ho'. specialize (Hrec a).
  destruct (ops w !! a) as [o|] eqn:Ho.
  - rewrite Hc. eapply Hb, Ho.
  - congruence.
Qed.

Lemma grows_refl (w : World) : grows w w.
Proof.
  split; [lia|]. intros a o Ho. exists o. split; [exact Ho | apply keeps_refl].
Qed.

Lemma grows_trans (w1 w2 w3 : World) : grows w1 w2 -> grows w2 w3 -> grows w1 w3.
Proof.
  intros [Hc H12] [Hc' H23]. split; [lia|]. intros a o1 Ho1.
  destruct (H12 _ _ Ho1) as (o2 & Ho2 & K12).
  destruct (H23 _ _ Ho2) as (o3 & Ho3 & K23).
  exists o3. split; [exact Ho3 | eapply keeps_trans; eassumption].
Qed.

(** Allocation under the next id, as [start] does it. *)
Lemma allocation_grows (w : World) (o : Op.t) :
  heapBounded w ->
  let n := operationIdRef w + 1 in
  let w' := set_ops (<[n := o]> (ops (set_operationIdRef n w)))
              (set_operationIdRef n w) in
  heapBounded w' /\ grows w w'.
Proof.
  intros Hb n w'. split.
  - intros a o' Ho'. subst w'. cbn in Ho' |- *.
    destruct (decide (n = a)) as [<-|Hne]; [lia|].
    rewrite lookup_insert_ne in Ho' by exact Hne.
    specialize (Hb _ _ Ho'). lia.
  - split; [subst w' n; cbn; lia|]. intros a o0 Ho0.
    exists o0. split; [|apply keeps_refl]. subst w'. cbn.
    rewrite lookup_insert_ne; [exact Ho0|].
    specialize (Hb _ _ Ho0). lia.
Qed.

Lemma start_grows (P : Params) (H : Host) (L : Layout) (fuel : nat)
    (index : Z) (behavior : ScrollBehavior) (callback : bool) (w w' : World) :
  heapBounded w ->
  start P H L (refs P H L fuel) index behavior callback w = Some w' ->
  heapBounded w' /\ grows w w'.
Proof.
  intros Hb Hrun.
  assert (Hany : forall e0, isCancellation e0 = false -> anyEffect e0 = true)
    by reflexivity.
  destruct (built_refs P H L anyEffect Hany false fuel) as [Hrc Hrs].
  unfold start in Hrun. unfold seq at 1, readWorld at 1 in Hrun.
  destruct (match operationRef w with
            | Some a => cancelScheduledFrame a
            | None => ret
            end w) as [w1|] eqn:E1; [|discriminate].
  assert (A1 : advances w w1).
  { eapply (built_advances anyEffect), E1.
    destruct (operationRef w); [apply built_cancelScheduledFrame | apply built_ret]. }
  unfold seq at 1 in Hrun.
  destruct (clearOperation L None w1) as [w2|] eqn:E2; [|discriminate].
  assert (A2 : advances w1 w2).
  { eapply (built_advances anyEffect), E2.
    apply built_clearOperation_None. exact Hany. }
  pose proof (advances_trans _ _ _ A1 A2) as A12.
  pose proof (advances_heapBounded _ _ A12 Hb) as Hb2.
  unfold readWorld at 1 in Hrun.
  unfold seq at 1 in Hrun. unfold modWorld at 1 in Hrun.
  unfold seq at 1 in Hrun. unfold modWorld at 1 in Hrun.
  match type of Hrun with
  | _ (set_ops (<[_ := ?o]> _) _) = _ =>
      destruct (allocation_grows w2 o Hb2) as [Hb3 G3]
  end.
  cbv zeta in Hb3, G3.
  eapply (built_advances anyEffect) in Hrun;
    [|apply built_start_launch; first [exact Hany | assumption]].
  split.
  - eapply advances_heapBounded; eassumption.
  - eapply grows_trans; [apply advances_grows, A12|].
    eapply grows_trans; [exact G3 | apply advances_grows, Hrun].
Qed.

Lemma step_grows (P : Params) (H : Host) (L : Layout) (fuel : nat)
    (e : Event) (w w' : World) :
  heapBounded w -> step P H L fuel e w = Some w' ->
  heapBounded w' /\ grows w w'.
Proof.
  intros Hb Hrun.
  assert (Hstart : (exists i b c, e = Start i b c)
                   \/ forall i b c, e <> Start i b c).
  { destruct e; first [left; solve [eauto] | right; intros; discriminate]. }
  destruct Hstart as [(i & b & c & ->)|Hns].
  - eapply start_grows; eassumption.
  - pose proof (built_advances _ _ (built_step_no_start P H L fuel e Hns) _ _ Hrun)
      as A.
    split; [eapply advances_heapBounded; eassumption | apply advances_grows, A].
Qed.

(** Over a whole run: the correction budget of an operation never grows,
    a [stable] operation stays [stable], and no record changes its id or
    its target. *)
Lemma run_grows (P : Params) (H : Host) (fuel : nat)
    (es : list (Layout * Event)) (w w' : World) :
  heapBounded w -> run P H fuel es w = Some w' ->
  heapBounded w' /\ grows w w'.
Proof.
  revert w. induction es as [|[L e] es IH]; intros w Hb Hrun.
  - injection Hrun as <-. split; [exact Hb | apply grows_refl].
  - cbn in Hrun. unfold seq in Hrun.
    destruct (step P H L fuel e w) as [w1|] eqn:E; [|discriminate].
    destruct (step_grows _ _ _ _ _ _ _ Hb E) as [Hb1 G1].
    destruct (IH _ Hb1 Hrun) as [Hb' G'].
    split; [exact Hb' | eapply grows_trans; eassumption].
Qed.

Lemma initialWorld_heapBounded : heapBounded initialWorld.
Proof. intros a o Ho. cbn in Ho. rewrite lookup_empty in Ho. discriminate. Qed.

Section NoCancellation.

Variable P : Params.
Variable H : Host.
Variable L : Layout.

Lemma notCancellation_other (e : Effect) :
  isCancellation e = false -> notCancellation e = true.
Proof. unfold notCancellation. intros ->. reflexivity. Qed.

(** [start]: teardown without a reason, allocation, launch. *)
Lemma built_start fuel index behavior callback :
  built notCancellation true
    (start P H L (refs P H L fuel) index behavior callback).
Proof.
  destruct (built_refs P H L notCancellation notCancellation_other true fuel)
    as [Hrc Hrs].
  unfold start.
  repeat first
    [ built_step
    | apply built_alloc; [reflexivity | world_ok]
    | apply built_cancelScheduledFrame
    | apply built_clearOperation_None
    | apply built_ensureScrollListener
    | apply built_performScroll
    | apply Hrc
    | apply Hrs ];
    exact notCancellation_other.
Qed.

(** Every event but [Cancel] and a scroll event leaves the cancellation
    callback alone. *)
Lemma quiet_step fuel e :
  e <> Cancel -> e <> ScrollEvent ->
  emitsOnly notCancellation (step P H L fuel e).
Proof.
  intros Hc Hs. apply (built_emitsOnly _ true).
  destruct (built_refs P H L notCancellation notCancellation_other true fuel)
    as [Hrc Hrs].
  destruct e; cbn; try contradiction.
  - apply built_start.
  - apply built_handleItemMeasured; first [exact notCancellation_other | assumption].
  - apply built_handleRenderedEffect; assumption.
  - apply built_clearOperation_None. exact notCancellation_other.
  - repeat built_step. apply built_runCallback. exact notCancellation_other.
Qed.

End NoCancellation.

Lemma clearOperation_reason (L : Layout) (r : CancelReason) :
  emitsOnly (cancellationWith r) (clearOperation L (Some r)).
Proof.
  intros w w' Hc.
  destruct (operationRef w) as [a|] eqn:Hactive.
  - destruct (ops w !! a) as [o|] eqn:Ho.
    + destruct (clearOperation_active L (Some r) w a o Hactive Ho)
        as (w1 & o' & Hc1 & _ & _ & _ & Hlog & _).
      rewrite Hc in Hc1. injection Hc1 as <-.
      exists [EOperationCancel (Op.targetIndex o) r; ESetFlaggedIndex None].
      split; [exact Hlog|]. cbn. destruct r; reflexivity.
    + unfold clearOperation, readWorld in Hc. rewrite Hactive in Hc.
      unfold clearStabilityTimeout, seq, withOp in Hc. rewrite Ho in Hc.
      discriminate.
  - unfold clearOperation, readWorld in Hc. rewrite Hactive in Hc.
    injection Hc as <-. exists []. split; reflexivity.
Qed.

Lemma scrollListener_reason (L : Layout) :
  emitsOnly (cancellationWith user) (scrollListener L).
Proof.
  apply (built_emitsOnly _ false). apply built_scrollListener.
  - intros e He. destruct e; try reflexivity. discriminate.
  - reflexivity.
Qed.

Lemma cancellation_in (ok : Effect -> bool) (new : list Effect)
    (index : Z) (reason : CancelReason) :
  forallb ok new = true -> In (EOperationCancel index reason) new ->
  ok (EOperationCancel index reason) = true.
Proof. intros Hall Hin. rewrite forallb_forall in Hall. apply Hall, Hin. Qed.

Ltac unfold_start :=
  unfold ensureScrollListener, performScroll, scheduleCorrection,
    scheduleStabilityCheck, scheduleCorrectionImpl, scheduleStabilityCheckImpl,
    canReschedule, clearStabilityTimeout, requestFrameHook, setTimeoutHook,
    clearHook, armSlot, scheduleProgrammaticScrollReset.

(** In a browser, [start] on an idle controller creates operation
    [operationIdRef + 1] and makes it current; it touches no other record
    and neither the pin timer nor the coalescing callback. *)
Lemma start_creates (P : Params) (H : Host) (L : Layout) (fuel : nat)
    (index : Z) (behavior : ScrollBehavior) (callback : bool) (w : World) :
  hookWindow H = true -> canUseAnimationFrame H = true ->
  canUseTimeout H = true -> 0 < nextHandle w ->
  operationRef w = None ->
  exists w' o',
    start P H L (refs P H L (S fuel)) index behavior callback w = Some w' /\
    operationRef w' = Some (operationIdRef w + 1) /\
    ops w' !! (operationIdRef w + 1) = Some o' /\
    Op.targetIndex o' = index /\
    Op.status o' = initial /\
    (forall b, b <> operationIdRef w + 1 -> ops w' !! b = ops w !! b) /\
    getSlot PinTimeout w' = getSlot PinTimeout w /\
    getSlot AnchorFrame w' = getSlot AnchorFrame w /\
    getSlot AnchorTimeout w' = getSlot AnchorTimeout w.
Proof.
  intros Hhook Hraf Htimeout Hhandle Hnone.
  destruct w as [store current listening counter s1 s2 s3 s4 s5 s6 handle
                 top0 left0 dom entries];
    cbn in Hhandle, Hnone; subst.
  assert (Hh1 : (handle =? -1) = false) by (apply Z.eqb_neq; lia).
  assert (Hh2 : (handle + 1 =? -1) = false) by (apply Z.eqb_neq; lia).
  assert (Hh3 : (handle + 1 + 1 =? -1) = false) by (apply Z.eqb_neq; lia).
  unfold start, clearOperation.
  cbn [refs scheduleCorrectionRef scheduleStabilityCheckRef].
  destruct listening;
    destruct (reversed P) eqn:Hrev; destruct (axis P) eqn:Hax;
    destruct (getOffsetForIndex P) as [f|] eqn:Hget;
    try destruct (f index) eqn:Hf;
    destruct (scrollView L) eqn:Hview;
    destruct (maxCorrections P <=? 0) eqn:Hmax;
    repeat (progress (cbn; unfold_start; unfold_monad;
                      rewrite ?lookup_alter_eq, ?lookup_insert_eq, ?Hhook,
                        ?Hraf, ?Htimeout, ?Hh1, ?Hh2, ?Hh3, ?Hrev, ?Hax, ?Hget,
                        ?Hf, ?Hview, ?Hmax)).
  all: eexists; eexists; (split; [reflexivity|]).
  all: repeat (progress (cbn; rewrite ?lookup_alter_eq, ?lookup_insert_eq)).
  all: repeat split; try reflexivity.
  all: intros b Hb;
    rewrite ?lookup_alter_ne, ?lookup_insert_ne by congruence; reflexivity.
Qed.

(** The teardown [start] begins with, on a busy controller:
    [cancelScheduledFrame] and [clearOperation] without a reason. *)
Lemma start_teardown (L : Layout) (w : World) (a : Z) (o : Op.t) :
  operationRef w = Some a ->
  ops w !! a = Some o ->
  exists w1 o1,
    (cancelScheduledFrame a >> clearOperation L None) w = Some w1 /\
    operationRef w1 = None /\
    scrollListenerRef w1 = false /\
    log w1 = ESetFlaggedIndex None :: log w /\
    scrollTop w1 = scrollTop w /\
    scrollLeft w1 = scrollLeft w /\
    nextHandle w1 = nextHandle w /\
    operationIdRef w1 = operationIdRef w /\
    (forall b, b <> a -> ops w1 !! b = ops w !! b) /\
    ops w1 !! a = Some o1 /\
    Op.stabilityTimeoutId o1 = None /\
    Op.pinTimeoutId o1 = None /\
    Op.scheduleFrameId o1 = None /\
    Op.anchorFrameId o1 = None /\
    Op.isPinned o1 = false /\
    (isSome (Op.stabilityTimeoutId o) = true ->
     getSlot StabilityTimeout w1 = None) /\
    (isSome (Op.pinTimeoutId o) = true -> getSlot PinTimeout w1 = None) /\
    (isSome (Op.scheduleFrameId o) = true ->
     getSlot CorrectionFrame w1 = None) /\
    (isSome (Op.anchorFrameId o) = true ->
     getSlot AnchorFrame w1 = None /\ getSlot AnchorTimeout w1 = None).
Proof.
  intros Hactive Ho.
  destruct w as [store current listening counter s1 s2 s3 s4 s5 s6 handle
                 top0 left0 dom entries];
    cbn in Hactive, Ho; subst.
  unfold clearOperation. unfold_finalize.
  destruct (Op.stabilityTimeoutId o) eqn:Hst;
    destruct (Op.pinTimeoutId o) eqn:Hpt;
    destruct (Op.scheduleFrameId o) eqn:Hsf;
    destruct (Op.anchorFrameId o) eqn:Haf;
    destruct (Op.isPinned o) eqn:Hpin;
    destruct listening; destruct (scrollView L) eqn:Hview;
    repeat (progress (cbn; unfold_monad;
                      rewrite ?lookup_alter_eq, ?Ho, ?Hst, ?Hpt, ?Hsf, ?Haf,
                        ?Hpin, ?Hview)).
  all: eexists; eexists; (split; [reflexivity|]).
  all: repeat (progress (cbn; rewrite ?lookup_alter_eq, ?Ho)).
  all: repeat split; try reflexivity; try discriminate; try assumption.
  all: intros b Hb; rewrite ?lookup_alter_ne by congruence; reflexivity.
Qed.

(** [start] on a busy controller is its teardown followed by [start] on the
    idle controller the teardown leaves. *)
Lemma start_after_teardown (P : Params) (H : Host) (L : Layout) (R : Refs)
    (index : Z) (behavior : ScrollBehavior) (callback : bool)
    (w w1 : World) (a : Z) :
  operationRef w = Some a ->
  (cancelScheduledFrame a >> clearOperation L None) w = Some w1 ->
  operationRef w1 = None ->
  start P H L R index behavior callback w
  = start P H L R index behavior callback w1.
Proof.
  intros Hactive Htear Hidle.
  unfold seq in Htear.
  destruct (cancelScheduledFrame a w) as [wA|] eqn:HA; [|discriminate].
  unfold start at 1. unfold seq at 1. unfold readWorld at 1.
  rewrite Hactive, HA. unfold seq at 1. rewrite Htear.
  unfold start, clearOperation, seq, readWorld, ret.
  repeat (progress (rewrite ?Hidle; cbv beta iota)).
  reflexivity.
Qed.

(** C8. The cancellation callback has two sources only: an explicit
    [cancel], with reason [cancelled], and a scroll event handled by the
    listener, with reason [user].  Every other event, at any depth of
    synchronous re-entry, adds no cancellation to the log; among them
    [start].  On an active operation [cancel] does invoke the callback, with
    the target index, and so does a scroll event that reaches the listener
    while no programmatic scroll is in flight.  [start] on an active
    operation begins by tearing it down without a reason: every timer and
    frame the old record holds a handle for is cancelled, its four handles
    and its pin are cleared, the scroll listener is taken off, the operation
    is dropped and only [setFlaggedIndex(null)] is notified; [start] then
    goes on as on the idle controller this leaves.  In a browser it ends
    with the new operation current under the next id, no cancellation
    logged, and the old record as the teardown left it. *)
Theorem cancellation_callback_sources (P : Params) (H : Host) (L : Layout)
    (fuel : nat) (w : World) :
  (forall e w',
      step P H L fuel e w = Some w' ->
      exists new,
        log w' = new ++ log w /\
        forall index reason,
          In (EOperationCancel index reason) new ->
          (e = Cancel /\ reason = cancelled) \/ (e = ScrollEvent /\ reason = user)) /\
  (forall a o,
      operationRef w = Some a -> ops w !! a = Some o ->
      (exists w',
          step P H L fuel Cancel w = Some w' /\
          operationRef w' = None /\
          log w' = EOperationCancel (Op.targetIndex o) cancelled
                   :: ESetFlaggedIndex None :: log w) /\
      (domScrollListener w = true -> Op.isProgrammaticScroll o = false ->
       exists w',
          step P H L fuel ScrollEvent w = Some w' /\
          operationRef w' = None /\
          log w' = EOperationCancel (Op.targetIndex o) user
                   :: ESetFlaggedIndex None :: log w) /\
      (exists w1 o1,
          (cancelScheduledFrame a >> clearOperation L None) w = Some w1 /\
          (forall index behavior callback,
              step P H L fuel (Start index behavior callback) w
              = step P H L fuel (Start index behavior callback) w1) /\
          operationRef w1 = None /\
          scrollListenerRef w1 = false /\
          log w1 = ESetFlaggedIndex None :: log w /\
          ops w1 !! a = Some o1 /\
          Op.stabilityTimeoutId o1 = None /\
          Op.pinTimeoutId o1 = None /\
          Op.scheduleFrameId o1 = None /\
          Op.anchorFrameId o1 = None /\
          Op.isPinned o1 = false /\
          (isSome (Op.stabilityTimeoutId o) = true ->
           getSlot StabilityTimeout w1 = None) /\
          (isSome (Op.pinTimeoutId o) = true -> getSlot PinTimeout w1 = None) /\
          (isSome (Op.scheduleFrameId o) = true ->
           getSlot CorrectionFrame w1 = None) /\
          (isSome (Op.anchorFrameId o) = true ->
           getSlot AnchorFrame w1 = None /\ getSlot AnchorTimeout w1 = None) /\
          (hookWindow H = true -> canUseAnimationFrame H = true ->
           canUseTimeout H = true -> 0 < nextHandle w -> heapBounded w ->
           forall index behavior callback,
           exists w' o',
              step P H L (S fuel) (Start index behavior callback) w = Some w' /\
              operationRef w' = Some (operationIdRef w + 1) /\
              ops w' !! (operationIdRef w + 1) = Some o' /\
              Op.targetIndex o' = index /\
              existsb isCancellation (newEntries w w') = false /\
              ops w' !! a = Some o1 /\
              (isSome (Op.pinTimeoutId o) = true ->
               getSlot PinTimeout w' = None) /\
              (isSome (Op.anchorFrameId o) = true ->
               getSlot AnchorFrame w' = None /\
               getSlot AnchorTimeout w' = None)))).
Proof.
  split.
  - intros e w' Hstep.
    assert (Hcases : e = Cancel \/ e = ScrollEvent
                     \/ (e <> Cancel /\ e <> ScrollEvent)).
    { destruct e; auto; right; right; split; discriminate. }
    destruct Hcases as [-> | [-> | [Hc Hs]]].
    + destruct (clearOperation_reason L cancelled w w' Hstep)
        as (new & Hlog & Hall).
      exists new. split; [exact Hlog|].
      intros index reason Hin. left. split; [reflexivity|].
      pose proof (cancellation_in _ _ _ _ Hall Hin) as Hok.
      destruct reason; [discriminate | reflexivity].
    + cbn in Hstep. unfold readWorld in Hstep.
      assert (Hl : exists new, log w' = new ++ log w
                               /\ forallb (cancellationWith user) new = true).
      { destruct (domScrollListener w).
        - apply (scrollListener_reason L w w' Hstep).
        - injection Hstep as <-. exists []. split; reflexivity. }
      destruct Hl as (new & Hlog & Hall).
      exists new. split; [exact Hlog|].
      intros index reason Hin. right. split; [reflexivity|].
      pose proof (cancellation_in _ _ _ _ Hall Hin) as Hok.
      destruct reason; [reflexivity | discriminate].
    + destruct (quiet_step P H L fuel e Hc Hs w w' Hstep) as (new & Hlog & Hall).
      exists new. split; [exact Hlog|].
      intros index reason Hin.
      pose proof (cancellation_in _ _ _ _ Hall Hin) as Hok. discriminate.
  - intros a o Hactive Ho. split; [|split].
    + destruct (clearOperation_active L (Some cancelled) w a o Hactive Ho)
        as (w' & o' & Hc & Href & _ & _ & Hlog & _).
      exists w'. repeat split; assumption.
    + intros Hlistener Hprog.
      destruct (clearOperation_active L (Some user) w a o Hactive Ho)
        as (w' & o' & Hc & Href & _ & _ & Hlog & _).
      exists w'. repeat split; try assumption.
      cbn. unfold readWorld, scrollListener, readWorld.
      rewrite Hlistener, Hactive, (withOp_hit _ _ _ _ Ho), Hprog. exact Hc.
    + destruct (start_teardown L w a o Hactive Ho)
        as (w1 & o1 & Htear & Href1 & Hlisten1 & Hlog1 & _ & _ & Hh1 & Hid1
            & Hother1 & Ho1 & Hst1 & Hpt1 & Hsf1 & Haf1 & Hpin1 & Hs1 & Hs2
            & Hs3 & Hs4).
      exists w1, o1. split; [exact Htear|].
      split.
      { intros index behavior callback. cbn [step].
        apply (start_after_teardown P H L _ index behavior callback w w1 a
                 Hactive Htear Href1). }
      do 13 (split; [assumption|]).
      intros Hhook Hraf Htimeout Hhandle Hbound index behavior callback.
      rewrite <- Hh1 in Hhandle.
      destruct (start_creates P H L fuel index behavior callback w1
                  Hhook Hraf Htimeout Hhandle Href1)
        as (w' & o' & Hstart & Href' & Ho' & Htarget & _ & Hother & Hpin'
            & Haf' & Hat').
      rewrite Hid1 in Href', Ho', Hother.
      assert (Hstep : step P H L (S fuel) (Start index behavior callback) w
                      = Some w').
      { cbn [step].
        rewrite (start_after_teardown P H L _ index behavior callback w w1 a
                   Hactive Htear Href1).
        exact Hstart. }
      exists w', o'. do 4 (split; [assumption|]).
      split.
      { assert (Hstart_ne : Start index behavior callback <> Cancel)
          by discriminate.
        assert (Hstart_ns : Start index behavior callback <> ScrollEvent)
          by discriminate.
        destruct (quiet_step P H L (S fuel) _ Hstart_ne Hstart_ns w w' Hstep)
          as (new & Hlog & Hall).
        rewrite (newEntries_app _ _ _ Hlog). clear - Hall.
        induction new as [|x new IH]; [reflexivity|].
        cbn in *. apply andb_true_iff in Hall. destruct Hall as [Hx Hall].
        rewrite (IH Hall). unfold notCancellation in Hx.
        apply negb_true_iff in Hx. rewrite Hx. reflexivity. }
      split.
      { rewrite Hother; [exact Ho1|]. specialize (Hbound a o Ho). lia. }
      split.
      { intros Hheld. rewrite Hpin'. apply Hs2, Hheld. }
      intros Hheld. rewrite Haf', Hat'. apply Hs4, Hheld.
Qed.

Lemma cancellation_callback_sources_witness :
  exists w' o1,
    step (props 10 None) browser alignedLayout 1 (Start 7 instant true)
      startedWorld = Some w' /\
    operationRef w' = Some 2 /\
    existsb isCancellation (newEntries startedWorld w') = false /\
    ops w' !! 1 = Some o1 /\
    Op.stabilityTimeoutId o1 = None /\
    Op.scheduleFrameId o1 = None.
Proof.
  assert (Ho : exists o, ops startedWorld !! 1 = Some o).
  { eexists. vm_compute. reflexivity. }
  destruct Ho as (o & Ho).
  assert (Hactive : operationRef startedWorld = Some 1)
    by (vm_compute; reflexivity).
  assert (Hhandle : 0 < nextHandle startedWorld) by (vm_compute; reflexivity).
  assert (Hid : operationIdRef startedWorld + 1 = 2)
    by (vm_compute; reflexivity).
  assert (Hbound : heapBounded startedWorld).
  { assert (Hrun : run (props 10 None) browser 1
                     [(alignedLayout, Start 5 instant true)] initialWorld
                   = Some startedWorld) by (vm_compute; reflexivity).
    exact (proj1 (run_grows _ _ _ _ _ _ initialWorld_heapBounded Hrun)). }
  destruct (proj2 (cancellation_callback_sources (props 10 None) browser
                     alignedLayout 0 startedWorld) 1 o Hactive Ho)
    as (_ & _ & w1 & o1 & _ & _ & _ & _ & _ & _ & Hst & _ & Hsf & _ & _ & _ & _
        & _ & _ & Hbrowser).
  destruct (Hbrowser eq_refl eq_refl eq_refl Hhandle Hbound 7 instant true)
    as (w' & o' & Hstep & Href & _ & _ & Hquiet & Ho1 & _).
  exists w', o1.
  split; [exact Hstep|].
  split; [rewrite <- Hid; exact Href|].
  split; [exact Hquiet|].
  split; [exact Ho1|].
  split; [exact Hst | exact Hsf].
Defined.

(** ** Coalescing of upstream measurements *)

Lemma Qltb_lt (a b : Q) : Qltb a b = true <-> (a < b)%Q.
Proof.
  unfold Qltb. rewrite negb_true_iff. split.
  - intros E. apply Qnot_le_lt. intros Hle. apply Qle_bool_iff in Hle. congruence.
  - intros Hlt. destruct (Qle_bool b a) eqn:E; [|reflexivity].
    apply Qle_bool_iff in E. apply Qle_not_lt in E. contradiction.
Qed.


Ltac unfold_anchor :=
  unfold handleItemMeasured, scheduleAnchorAdjustmentBody, commitAnchor,
    scheduleStabilityCheck, scheduleCorrection, resetStableIterations,
    scheduleStabilityCheckImpl, canReschedule, clearStabilityTimeout,
    requestFrameHook, setTimeoutHook, clearHook, armSlot, guardActive,
    runCallback, callbackOf, applyScrollByDelta,
    scheduleProgrammaticScrollReset, programmaticReset, signAdjusted.

(** Symbolic execution that also rewrites with the facts [known] holds. *)
Ltac sym Ho known :=
  repeat (progress (cbn; unfold_anchor; unfold_monad;
                    rewrite ?lookup_alter_eq, ?Ho; known)).










(** ** The correction budget *)

#[local] Arguments evaluateTargetAlignment : simpl never.
#[local] Arguments exceedsTolerance : simpl never.

Ltac unfold_check :=
  unfold runCheck, minimalAdjustment, rescheduleStabilityCheck,
    decrementCorrections.

(** With the budget spent and the target still off its leading edge, a
    stability check scrolls once more and re-arms itself: it neither
    finalizes nor gives up. *)
Lemma polling_step (P : Params) (H : Host) (L : Layout) (fuel : nat)
    (a : Z) (o : Op.t) (w : World) (container : DOMRect) :
  hookWindow H = true -> canUseTimeout H = true ->
  scrollView L = Some container ->
  elementExists (evaluateTargetAlignment P L (Op.targetIndex o)) = true ->
  exceedsTolerance
    (Qabs (startDelta (evaluateTargetAlignment P L (Op.targetIndex o)))) = true ->
  Op.correctionsRemaining o <= 0 ->
  polling a o w ->
  exists w',
    step P H L (S fuel) (Fire StabilityTimeout) w = Some w' /\
    polling a o w' /\
    log w' =
      EScrollBy (axis P)
        (signAdjusted P
           (startDelta (evaluateTargetAlignment P L (Op.targetIndex o))))
      :: log w.
Proof.
  intros Hhook Htimeout Hview Hexists Hoff Hspent
    (Hactive & Hhandle & Hslot & o' & Ho & Hid & Htarget & Hst & Hbudget & Hmeasured).
  set (alignment := evaluateTargetAlignment P L (Op.targetIndex o)) in *.
  assert (Hal : evaluateTargetAlignment P L (Op.targetIndex o') = alignment).
  { rewrite Htarget. reflexivity. }
  assert (Hmis : aligned alignment = false).
  { subst alignment. unfold evaluateTargetAlignment in *.
    destruct (scrollView L), (measured L (Op.targetIndex o)); try reflexivity.
    cbn in *. unfold exceedsTolerance, Qltb in Hoff.
    apply negb_true_iff in Hoff. rewrite Hoff. reflexivity. }
  assert (Hnz : Qeq_bool (startDelta alignment) 0 = false).
  { apply Qeq_bool_false. intros Hz. unfold exceedsTolerance in Hoff.
    apply Qltb_lt in Hoff. rewrite Hz in Hoff. vm_compute in Hoff. discriminate. }
  assert (Hno : (0 <? Op.correctionsRemaining o') = false).
  { apply Z.ltb_ge. lia. }
  assert (Hself : (Op.id o =? Op.id o) = true) by apply Z.eqb_refl.
  unfold polling in *.
  destruct w; cbn in Hactive, Ho, Hslot, Hhandle; subst.
  assert (Hh1 : (nextHandle0 =? -1) = false) by (apply Z.eqb_neq; lia).
  assert (Hh2 : (nextHandle0 + 1 =? -1) = false) by (apply Z.eqb_neq; lia).
  cbn [step getSlot stabilityTimeoutSlot]. unfold readWorld.
  unfold seq at 1. unfold modWorld at 1.
  cbn [callbackOf runCallback refs scheduleCorrectionRef scheduleStabilityCheckRef].
  destruct (axis P) eqn:Haxis;
    sym Ho ltac:(unfold_check;
                 rewrite ?Hid, ?Hself, ?Hal, ?Hexists, ?Hmis, ?Hoff, ?Hnz,
                   ?Hmeasured, ?Hview, ?Hno, ?Htimeout, ?Hhook, ?Hh1, ?Hh2,
                   ?Haxis).
  all: eexists; (split; [reflexivity|]); sym Ho idtac.
  all: split; [|reflexivity].
  all: split; [reflexivity|]; split; [lia|]; split; [reflexivity|].
  all: eexists; (split; [reflexivity|]); cbn; repeat split; assumption.
Qed.

Lemma polling_forever (P : Params) (H : Host) (L : Layout) (fuel : nat)
    (a : Z) (o : Op.t) (container : DOMRect) (n : nat) :
  hookWindow H = true -> canUseTimeout H = true ->
  scrollView L = Some container ->
  elementExists (evaluateTargetAlignment P L (Op.targetIndex o)) = true ->
  exceedsTolerance
    (Qabs (startDelta (evaluateTargetAlignment P L (Op.targetIndex o)))) = true ->
  Op.correctionsRemaining o <= 0 ->
  forall w,
    polling a o w ->
    exists w',
      run P H (S fuel) (repeat (L, Fire StabilityTimeout) n) w = Some w' /\
      polling a o w' /\
      log w' =
        repeat (EScrollBy (axis P)
                  (signAdjusted P
                     (startDelta (evaluateTargetAlignment P L (Op.targetIndex o)))))
               n ++ log w.
Proof.
  intros Hhook Htimeout Hview Hexists Hoff Hspent.
  induction n as [|n IH]; intros w Hpoll.
  - exists w. split; [reflexivity|]. split; [exact Hpoll | reflexivity].
  - destruct (polling_step P H L fuel a o w container Hhook Htimeout Hview
                Hexists Hoff Hspent Hpoll) as (w1 & Hstep & Hpoll1 & Hlog1).
    destruct (IH w1 Hpoll1) as (w' & Hrun & Hpoll' & Hlog').
    exists w'. split; [|split; [exact Hpoll'|]].
    + cbn [repeat run]. unfold seq. rewrite Hstep. exact Hrun.
    + rewrite Hlog', Hlog1. cbn [repeat].
      match goal with
      | |- ?r ++ ?x :: ?l = _ =>
          change (r ++ x :: l) with (r ++ [x] ++ l);
          rewrite (app_assoc r [x] l), <- (repeat_cons n x)
      end.
      reflexivity.
Qed.

Lemma filter_repeat_scroll (ax : Axis) (q : Q) (n : nat) :
  List.filter isScrollAdjustment (repeat (EScrollBy ax q) n) = repeat (EScrollBy ax q) n /\
  existsb isCompletion (repeat (EScrollBy ax q) n) = false.
Proof. induction n as [|n [IH1 IH2]]; cbn; [split; reflexivity|]. rewrite IH1. auto. Qed.

(** C2 on the code. (1) Scenario 4: with a budget of two and a target that
    stays five units off, the two correction frames spend the budget; after
    that every stability check scrolls again and re-arms, so after any
    number [n] of them the operation is still active and not stable, the
    completion callback has not fired, and [2 + n] corrective scrolls were
    issued.  (2) With a budget of one, a stability check that runs before
    the pending correction frame takes the budget to zero, and the frame
    then takes it to -1. *)
Theorem spent_budget_never_finalizes :
  (forall n, exists w' o',
      run (props 2 None) browser 1 (budgetSpent ++ stabilityChecks n)
        initialWorld = Some w' /\
      operationRef w' = Some 1 /\
      ops w' !! 1 = Some o' /\
      Op.status o' = initial /\
      Op.correctionsRemaining o' = 0 /\
      existsb isCompletion (log w') = false /\
      length (List.filter isScrollAdjustment (log w')) = (2 + n)%nat) /\
  (exists w' o',
      run (props 1 None) browser 1 lateCorrectionFrame initialWorld = Some w' /\
      ops w' !! 1 = Some o' /\
      Op.correctionsRemaining o' = -1).
Proof.
  split.
  - intros n.
    pose (w0 := after (props 2 None) browser budgetSpent).
    assert (Hrun0 : run (props 2 None) browser 1 budgetSpent initialWorld = Some w0).
    { vm_compute. reflexivity. }
    assert (Ho : exists o, ops w0 !! 1 = Some o /\
                   Op.id o = 1 /\ Op.targetIndex o = 5 /\
                   Op.status o = initial /\ Op.correctionsRemaining o = 0 /\
                   Op.hasMeasuredTarget o = true).
    { eexists. split; [vm_compute; reflexivity|]. repeat split. }
    destruct Ho as (o & Ho & Hid & Htarget & Hst & Hbudget & Hmeasured).
    assert (Hpoll : polling 1 o w0).
    { unfold polling. split; [reflexivity|]. split; [vm_compute; reflexivity|].
      split; [rewrite Hid; vm_compute; reflexivity|].
      exists o. repeat split; assumption. }
    assert (Hlog0 : existsb isCompletion (log w0) = false /\
                    length (List.filter isScrollAdjustment (log w0)) = 2%nat).
    { split; vm_compute; reflexivity. }
    destruct Hlog0 as [Hnone Htwo].
    destruct (polling_forever (props 2 None) browser misalignedLayout 0 1 o
                (rect 0 500) n eq_refl eq_refl eq_refl) with (w := w0)
      as (w' & Hrun & (Hactive & _ & _ & o' & Ho' & _ & _ & Hst' & Hbudget' & _)
          & Hlog); try assumption.
    { rewrite Htarget. vm_compute. reflexivity. }
    { rewrite Htarget. vm_compute. reflexivity. }
    { lia. }
    exists w', o'. split; [|split; [exact Hactive|split; [exact Ho'|]]].
    + rewrite (run_app _ _ _ _ _ _ _ Hrun0). exact Hrun.
    + split; [congruence|]. split; [congruence|].
      rewrite Hlog.
      destruct (filter_repeat_scroll (axis (props 2 None))
                  (signAdjusted (props 2 None)
                     (startDelta (evaluateTargetAlignment (props 2 None)
                                    misalignedLayout (Op.targetIndex o)))) n)
        as [Hfilter Hquiet].
      split.
      * rewrite existsb_app, Hquiet, Hnone. reflexivity.
      * rewrite List.filter_app, length_app, Hfilter, repeat_length, Htwo. lia.
  - eexists. eexists. split; [vm_compute; reflexivity|].
    split; [vm_compute; reflexivity|]. reflexivity.
Qed.

(** ** Handles left behind by a pin release *)

(** C4 on the code. A pin of 100 time units expires while the stability
    timer, re-armed by the coalescing callback after finalization, is still
    pending: [releasePin] drops the operation record although the record
    holds a stability handle and the timer slot still holds the callback. *)
Theorem pin_release_leaves_stability_timer :
  exists w' o',
    run (props 10 (Some 100%Q)) browser 1 pinExpiresFirst initialWorld = Some w' /\
    operationRef w' = None /\
    ops w' !! 1 = Some o' /\
    isSome (Op.stabilityTimeoutId o') = true /\
    getSlot StabilityTimeout w' = Some 1 /\
    hd_error (log w') = Some (EPinReleased 5).
Proof.
  eexists. eexists. split; [vm_compute; reflexivity|].
  split; [reflexivity|]. split; [vm_compute; reflexivity|].
  repeat split.
Qed.

(** ** Handlers as sequences of writes *)

Lemma writesOnly_ret allowed : writesOnly allowed ret.
Proof. intros w w' [= <-]. apply rtc_refl. Qed.

Lemma writesOnly_stuck allowed : writesOnly allowed (fun _ => None).
Proof. intros w w' [=]. Qed.

Lemma writesOnly_seq allowed (f g : M) :
  writesOnly allowed f -> writesOnly allowed g -> writesOnly allowed (f >> g).
Proof.
  intros Hf Hg w w' Hrun. unfold seq in Hrun.
  destruct (f w) as [w1|] eqn:E; [|discriminate].
  eapply rtc_trans; [eapply Hf, E | eapply Hg, Hrun].
Qed.

Lemma writesOnly_seq2 allowed (f g h : M) :
  writesOnly allowed (f >> g) -> writesOnly allowed h ->
  writesOnly allowed (f >> g >> h).
Proof.
  intros Hfg Hh w w' Hrun. unfold seq in Hrun.
  destruct (f w) as [w1|] eqn:E1; [|discriminate].
  destruct (g w1) as [w2|] eqn:E2; [|discriminate].
  eapply rtc_trans; [|eapply Hh, Hrun].
  apply Hfg. unfold seq. rewrite E1. exact E2.
Qed.

Lemma writesOnly_withOp allowed (a : Z) (k : Op.t -> M) :
  (forall o, writesOnly allowed (k o)) -> writesOnly allowed (withOp a k).
Proof.
  intros Hk w w' Hrun. unfold withOp in Hrun.
  destruct (ops w !! a); [|discriminate]. eapply Hk, Hrun.
Qed.

Lemma writesOnly_readWorld allowed (k : World -> M) :
  (forall w, writesOnly allowed (k w)) -> writesOnly allowed (readWorld k).
Proof. intros Hk w w' Hrun. eapply Hk, Hrun. Qed.

(** A handler that is one write. *)
Lemma writesOnly_write (allowed : Write -> Prop) (f : M) (u : World -> Write) :
  (forall w, allowed (u w)) ->
  (forall w, f w = Some (perform (u w) w)) ->
  writesOnly allowed f.
Proof.
  intros Hallowed Hf w w' Hrun. rewrite Hf in Hrun. injection Hrun as <-.
  apply rtc_once. exists (u w). split; [apply Hallowed | reflexivity].
Qed.

Lemma writesOnly_weaken (allowed allowed' : Write -> Prop) (f : M) :
  (forall u, allowed u -> allowed' u) ->
  writesOnly allowed f -> writesOnly allowed' f.
Proof.
  intros Hsub Hf w w' Hrun. specialize (Hf w w' Hrun). clear Hrun.
  induction Hf as [|x y z (u & Hu & ->) _ IH]; [apply rtc_refl|].
  eapply rtc_l; [|exact IH]. exists u. split; [apply Hsub, Hu | reflexivity].
Qed.

(** What every allowed write preserves, a handler preserves. *)
Lemma written_preserves (allowed : Write -> Prop) (I : World -> Prop) :
  (forall u w, allowed u -> I w -> I (perform u w)) ->
  forall w w', rtc (written allowed) w w' -> I w -> I w'.
Proof.
  intros Hstep w w' Hrtc. induction Hrtc as [|x y z (u & Hu & ->) _ IH]; [auto|].
  intros Hx. apply IH, Hstep; assumption.
Qed.

(** A reflexive and transitive relation that every allowed write respects
    relates the two ends of a handler. *)
Lemma written_relates (allowed : Write -> Prop) (R : World -> World -> Prop) :
  (forall w, R w w) ->
  (forall w1 w2 w3, R w1 w2 -> R w2 w3 -> R w1 w3) ->
  (forall u w, allowed u -> R w (perform u w)) ->
  forall w w', rtc (written allowed) w w' -> R w w'.
Proof.
  intros Hrefl Htrans Hstep w w' Hrtc.
  induction Hrtc as [|x y z (u & Hu & ->) _ IH]; [apply Hrefl|].
  eapply Htrans; [apply Hstep, Hu | exact IH].
Qed.

Tactic Notation "one_write" open_constr(U) :=
  apply (writesOnly_write _ _ (fun _ => U));
  [ | intro; reflexivity ];
  [ intro;
    match goal with
    | Hk : forall u, kind u = Some _ -> _ |- _ => apply Hk; reflexivity
    end ].

Ltac field_write a :=
  first
    [ one_write (WField a (SetStabilityTimeoutId _))
    | one_write (WField a (SetPinTimeoutId _))
    | one_write (WField a (SetScheduleFrameId _))
    | one_write (WField a (SetAnchorFrameId _))
    | one_write (WField a ClearPendingAnchorDelta)
    | one_write (WField a (AddPendingAnchorDelta _))
    | one_write (WField a (SetIsPinned _))
    | one_write (WField a MarkStable)
    | one_write (WField a (SetIsProgrammaticScroll _))
    | one_write (WField a SpendCorrection)
    | one_write (WField a ResetStableIterations)
    | one_write (WField a CountStableIteration)
    | one_write (WField a (SetPendingCorrection _))
    | one_write (WField a MarkMeasuredTarget)
    | one_write (WField a MarkInitialAlignmentPerformed) ].

Ltac writes_step :=
  lazymatch goal with
  | |- writesOnly _ ret => apply writesOnly_ret
  | |- writesOnly _ (fun _ => None) => apply writesOnly_stuck
  | |- writesOnly _ (_ >> _) => apply writesOnly_seq
  | |- writesOnly _ (withOp _ _) => apply writesOnly_withOp; intro
  | |- writesOnly _ (readWorld _) => apply writesOnly_readWorld; intro
  | |- writesOnly _ (modOp ?a _) => field_write a
  | |- writesOnly _ (modWorld (setSlot ?s None)) => one_write (WClearSlot s)
  | |- writesOnly _ (modWorld (armSlot ?s ?K)) => one_write (WArm s K)
  | |- writesOnly _ (emit ?e) => one_write (WEmit e)
  | |- writesOnly _ (match ?x with _ => _ end) => destruct_innermost x
  | |- writesOnly _ _ => first [assumption | solve [auto with writes]]
  end.

Create HintDb writes.

Section Writes.

Variable P : Params.
Variable H : Host.
Variable L : Layout.

Variable allowed : Write -> Prop.
Hypothesis allowed_plain : forall u, kind u = Some Plain -> allowed u.
Hypothesis allowed_spend : forall u, kind u = Some Spend -> allowed u.
Hypothesis allowed_scroll : forall u, kind u = Some Scroll -> allowed u.
Hypothesis allowed_released : forall u, kind u = Some Released -> allowed u.

Local Abbreviation ok := (writesOnly allowed).

Lemma writes_setTimeoutHook s K k :
  (forall h, ok (k h)) -> ok (setTimeoutHook H s K k).
Proof. intros Hk. unfold setTimeoutHook. repeat writes_step; apply Hk. Qed.

Lemma writes_requestFrameHook s K cb k :
  ok cb -> (forall h, ok (k h)) -> ok (requestFrameHook H s K cb k).
Proof. intros Hcb Hk. unfold requestFrameHook. repeat writes_step; apply Hk. Qed.

Lemma writes_guardActive K k : (forall a, ok (k a)) -> ok (guardActive K k).
Proof. intros Hk. unfold guardActive. repeat writes_step; apply Hk. Qed.

Ltac writes :=
  repeat first
    [ writes_step
    | lazymatch goal with
      | |- writesOnly _ (setTimeoutHook _ _ _ _) =>
          apply writes_setTimeoutHook; intro
      | |- writesOnly _ (requestFrameHook _ _ _ _ _) =>
          apply writes_requestFrameHook; [|intro]
      | |- writesOnly _ (guardActive _ _) => apply writes_guardActive; intro
      end ].

Lemma writes_clearHook s : ok (clearHook s).
Proof. unfold clearHook. writes. Qed.

Hint Resolve writes_clearHook : writes.

Lemma writes_clearStabilityTimeout a : ok (clearStabilityTimeout a).
Proof. unfold clearStabilityTimeout. writes. Qed.

Lemma writes_clearPinTimeout a : ok (clearPinTimeout a).
Proof. unfold clearPinTimeout. writes. Qed.

Lemma writes_cancelScheduledFrame a : ok (cancelScheduledFrame a).
Proof. unfold cancelScheduledFrame. writes. Qed.

Lemma writes_cancelAnchorFrame a : ok (cancelAnchorFrame a).
Proof. unfold cancelAnchorFrame. writes. Qed.

Lemma writes_detachScrollListener : ok (detachScrollListener L).
Proof. one_write (WDetach L). Qed.

Lemma writes_ensureScrollListener : ok (ensureScrollListener L).
Proof. one_write (WEnsure L). Qed.

Hint Resolve writes_clearStabilityTimeout writes_clearPinTimeout
  writes_cancelScheduledFrame writes_cancelAnchorFrame
  writes_detachScrollListener writes_ensureScrollListener : writes.

(** The tail of [clearOperation]: the operation is retired and the
    notifications follow. *)
Lemma writes_clearOperation_None :
  (forall u, kind u = Some Drop -> allowed u) ->
  ok (clearOperation L None).
Proof.
  intros allowed_drop. unfold clearOperation.
  repeat first
    [ lazymatch goal with
      | |- writesOnly _ (modWorld (set_operationRef None) >> _) =>
          one_write (WRetire None [ESetFlaggedIndex None])
      end
    | writes_step ].
Qed.

Lemma writes_clearOperation_Some r :
  (forall u, kind u = Some Cancelled -> allowed u) ->
  ok (clearOperation L (Some r)).
Proof.
  intros allowed_cancelled. unfold clearOperation.
  repeat first
    [ lazymatch goal with
      | |- writesOnly _ (modWorld (set_operationRef None) >> _) =>
          one_write (WRetire None [ESetFlaggedIndex None;
                                   EOperationCancel _ r])
      end
    | writes_step ].
Qed.

Lemma writes_programmaticReset K : ok (programmaticReset K).
Proof. unfold programmaticReset. writes. Qed.

Hint Resolve writes_programmaticReset : writes.

Lemma writes_scheduleProgrammaticScrollReset a :
  ok (scheduleProgrammaticScrollReset H a).
Proof. unfold scheduleProgrammaticScrollReset. writes. Qed.

Hint Resolve writes_scheduleProgrammaticScrollReset : writes.

Ltac scroll_write :=
  lazymatch goal with
  | |- writesOnly _ (modWorld ?g >> emit ?e) =>
      apply (writesOnly_write _ _
               (fun w => WScroll (scrollTop (g w), scrollLeft (g w)) e));
      [ intro; apply allowed_scroll; reflexivity
      | intros []; try destruct (axis P); reflexivity ]
  end.

(** Handlers that scroll: the position moves together with the request. *)
Ltac writes_scrolling :=
  repeat first
    [ lazymatch goal with
      | |- writesOnly _ (modWorld _ >> emit _ >> _) => apply writesOnly_seq2
      | |- writesOnly _ (modWorld _ >> emit _) => scroll_write
      end
    | writes_step ].

Lemma writes_applyScrollByDelta a delta : ok (applyScrollByDelta P H L a delta).
Proof. unfold applyScrollByDelta. writes_scrolling. Qed.

Lemma writes_performScroll a b : ok (performScroll P H L a b).
Proof. unfold performScroll. writes_scrolling. Qed.

Hint Resolve writes_applyScrollByDelta writes_performScroll : writes.

Lemma writes_releasePin a : ok (releasePin L a).
Proof.
  unfold releasePin.
  repeat first
    [ lazymatch goal with
      | |- writesOnly _ (modWorld (set_operationRef None) >> _) =>
          one_write (WRetire None [EPinReleased _])
      end
    | writes_step ].
Qed.

Hint Resolve writes_releasePin : writes.

Lemma writes_pinExpired K : ok (pinExpired L K).
Proof. unfold pinExpired. writes. Qed.

Lemma writes_startPin a : ok (startPin P H L a).
Proof. unfold startPin. writes. Qed.

Hint Resolve writes_startPin writes_pinExpired : writes.

Lemma writes_finalizeOperation a : ok (finalizeOperation P H L a).
Proof.
  unfold finalizeOperation.
  repeat first
    [ lazymatch goal with
      | |- writesOnly _ (modWorld (set_operationRef None) >> _) =>
          one_write (WRetire (Some L) [EPinReleased _])
      end
    | writes_step ].
Qed.

Hint Resolve writes_finalizeOperation : writes.

Lemma writes_decrementCorrections a : ok (decrementCorrections a).
Proof. unfold decrementCorrections. writes. Qed.

Lemma writes_resetStableIterations a : ok (resetStableIterations a).
Proof. unfold resetStableIterations. writes. Qed.

Hint Resolve writes_decrementCorrections writes_resetStableIterations : writes.

Section WithRefs.

Variable R : Refs.
Hypothesis writes_scheduleCorrectionRef :
  forall a, ok (scheduleCorrectionRef R a).
Hypothesis writes_scheduleStabilityCheckRef :
  forall a, ok (scheduleStabilityCheckRef R a).

Lemma writes_scheduleCorrection a : ok (scheduleCorrection R a).
Proof. apply writes_scheduleCorrectionRef. Qed.

Lemma writes_scheduleStabilityCheck a : ok (scheduleStabilityCheck R a).
Proof. apply writes_scheduleStabilityCheckRef. Qed.

Hint Resolve writes_scheduleCorrection writes_scheduleStabilityCheck : writes.

Lemma writes_rescheduleStabilityCheck a : ok (rescheduleStabilityCheck H R a).
Proof. unfold rescheduleStabilityCheck. writes. Qed.

Hint Resolve writes_rescheduleStabilityCheck : writes.

Lemma writes_runCheck K : ok (runCheck P H L R K).
Proof. unfold runCheck, minimalAdjustment, exceedsTolerance. writes. Qed.

Hint Resolve writes_runCheck : writes.

Lemma writes_scheduleStabilityCheckImpl a :
  ok (scheduleStabilityCheckImpl P H L R a).
Proof. unfold scheduleStabilityCheckImpl. writes. Qed.

Lemma writes_executeCorrection K : ok (executeCorrection P H L R K).
Proof. unfold executeCorrection, minimalAdjustment, exceedsTolerance. writes. Qed.

Hint Resolve writes_executeCorrection : writes.

Lemma writes_scheduleCorrectionImpl a : ok (scheduleCorrectionImpl P H L R a).
Proof. unfold scheduleCorrectionImpl. writes. Qed.

Section WithSelf.

Variable self : Z -> Q -> M.
Hypothesis writes_self : forall a delta, ok (self a delta).

Lemma writes_commitAnchor K : ok (commitAnchor P H L R self K).
Proof. unfold commitAnchor. writes. Qed.

Hint Resolve writes_commitAnchor : writes.

Lemma writes_scheduleAnchorAdjustmentBody a delta :
  ok (scheduleAnchorAdjustmentBody P H L R self a delta).
Proof. unfold scheduleAnchorAdjustmentBody. writes. Qed.

End WithSelf.

Lemma writes_scheduleAnchorAdjustment fuel a delta :
  ok (scheduleAnchorAdjustment P H L R fuel a delta).
Proof.
  revert a delta. induction fuel as [|fuel IH]; intros a delta; cbn;
    apply writes_scheduleAnchorAdjustmentBody; [intros; writes | exact IH].
Qed.

Hint Resolve writes_scheduleAnchorAdjustment : writes.

Lemma writes_handleItemMeasured fuel index size delta :
  ok (handleItemMeasured P H L R fuel index size delta).
Proof. unfold handleItemMeasured. writes. Qed.

Lemma writes_handleRenderedEffect index : ok (handleRenderedEffect R index).
Proof. unfold handleRenderedEffect. writes. Qed.

(** What [start] does once the record is allocated. *)
Lemma writes_start_launch index behavior a :
  ok (emit (ESetFlaggedIndex (Some index)) >>
      ensureScrollListener L >>
      performScroll P H L a behavior >>
      scheduleCorrection R a >>
      scheduleStabilityCheck R a).
Proof. writes. Qed.

(** [start]: the old operation is torn down, the new one allocated and
    launched. *)
Lemma writes_start index behavior callback :
  (forall u, kind u = Some Drop -> allowed u) ->
  (forall u, kind u = Some Allocate -> allowed u) ->
  ok (start P H L R index behavior callback).
Proof.
  intros allowed_drop allowed_allocate w w' Hrun.
  unfold start in Hrun. unfold seq at 1, readWorld at 1 in Hrun.
  destruct (match operationRef w with
            | Some a => cancelScheduledFrame a
            | None => ret
            end w) as [w1|] eqn:E1; [|discriminate].
  assert (A1 : rtc (written allowed) w w1).
  { destruct (operationRef w);
      [eapply writes_cancelScheduledFrame, E1 | eapply writesOnly_ret, E1]. }
  unfold seq at 1 in Hrun.
  destruct (clearOperation L None w1) as [w2|] eqn:E2; [|discriminate].
  assert (A2 : rtc (written allowed) w1 w2)
    by (eapply writes_clearOperation_None, E2; exact allowed_drop).
  unfold readWorld at 1 in Hrun.
  do 3 (unfold seq at 1 in Hrun; unfold modWorld at 1 in Hrun).
  cbv zeta in Hrun.
  eapply rtc_trans; [exact A1|]. eapply rtc_trans; [exact A2|].
  eapply rtc_l;
    [ exists (WAllocate index behavior callback (maxCorrections P)
                (maintainPosition P));
      split; [apply allowed_allocate; reflexivity | reflexivity]
    | eapply writes_start_launch, Hrun ].
Qed.

End WithRefs.

End Writes.

(** The contents of the two refs, at any depth of re-entry. *)
Lemma writes_refs (P : Params) (H : Host) (L : Layout) (allowed : Write -> Prop)
    (fuel : nat) :
  (forall u, kind u = Some Plain -> allowed u) ->
  (forall u, kind u = Some Spend -> allowed u) ->
  (forall u, kind u = Some Scroll -> allowed u) ->
  (forall u, kind u = Some Released -> allowed u) ->
  (forall a, writesOnly allowed (scheduleCorrectionRef (refs P H L fuel) a)) /\
  (forall a, writesOnly allowed (scheduleStabilityCheckRef (refs P H L fuel) a)).
Proof.
  intros Hplain Hspend Hscroll Hretire.
  induction fuel as [|fuel [IHc IHs]]; cbn.
  - split; intros; apply writesOnly_stuck.
  - split; intro a.
    + apply writes_scheduleCorrectionImpl; assumption.
    + apply writes_scheduleStabilityCheckImpl; assumption.
Qed.

Lemma usedBy_kind (e : Event) (k : WriteKind) (u : Write) :
  mayUse e k = true -> kind u = Some k -> usedBy e u.
Proof. unfold usedBy. intros Hmay ->. exact Hmay. Qed.

Ltac by_kind :=
  let u := fresh "u" in
  intros u;
  lazymatch goal with
  | |- kind _ = Some ?k -> usedBy ?e _ => exact (usedBy_kind e k u eq_refl)
  end.

(** Every event changes the world only through the writes its kind of
    event may use. *)
Lemma step_writes (P : Params) (H : Host) (L : Layout) (fuel : nat) (e : Event) :
  writesOnly (usedBy e) (step P H L fuel e).
Proof.
  destruct e as [index behavior callback|index size delta|index| | | |s];
    cbn [step].
  - destruct (writes_refs P H L (usedBy (Start index behavior callback)) fuel)
      as [Hc Hs]; try by_kind.
    apply writes_start; try assumption; by_kind.
  - destruct (writes_refs P H L (usedBy (HandleItemMeasured index size delta)) fuel)
      as [Hc Hs]; try by_kind.
    apply writes_handleItemMeasured; try assumption; by_kind.
  - destruct (writes_refs P H L (usedBy (HandleRendered index)) fuel)
      as [Hc Hs]; try by_kind.
    apply writes_handleRenderedEffect; assumption.
  - unfold cancel. apply writes_clearOperation_Some; by_kind.
  - apply writes_clearOperation_None; by_kind.
  - apply writesOnly_readWorld. intros w. cbv beta.
    destruct (domScrollListener w); [|apply writesOnly_ret].
    unfold scrollListener. apply writesOnly_readWorld. intros w0.
    destruct (operationRef w0); [|apply writesOnly_ret].
    apply writesOnly_withOp. intros o.
    destruct (Op.isProgrammaticScroll o); [apply writesOnly_ret|].
    apply writes_clearOperation_Some; by_kind.
  - destruct (writes_refs P H L (usedBy (Fire s)) fuel)
      as [Hc Hs]; try by_kind.
    assert (Hplain : forall u, kind u = Some Plain -> usedBy (Fire s) u)
      by by_kind.
    assert (Hspend : forall u, kind u = Some Spend -> usedBy (Fire s) u)
      by by_kind.
    assert (Hscroll : forall u, kind u = Some Scroll -> usedBy (Fire s) u)
      by by_kind.
    assert (Hreleased : forall u, kind u = Some Released -> usedBy (Fire s) u)
      by by_kind.
    apply writesOnly_readWorld. intros w. cbv beta.
    destruct (getSlot s w) as [K|]; [|apply writesOnly_ret].
    apply writesOnly_seq; [one_write (WClearSlot s)|].
    destruct s; cbn [callbackOf runCallback].
    + apply writes_runCheck; assumption.
    + apply writes_pinExpired; assumption.
    + apply writes_commitAnchor; try assumption.
      intros. apply writes_scheduleAnchorAdjustment; assumption.
    + apply writes_programmaticReset; assumption.
    + apply writes_executeCorrection; assumption.
    + apply writes_commitAnchor; try assumption.
      intros. apply writes_scheduleAnchorAdjustment; assumption.
Qed.

Lemma run_writes (P : Params) (H : Host) (fuel : nat)
    (es : list (Layout * Event)) :
  writesOnly (usedByRun es) (run P H fuel es).
Proof.
  induction es as [|[L e] es IH]; cbn [run].
  - apply writesOnly_ret.
  - apply writesOnly_seq.
    + eapply writesOnly_weaken; [|apply step_writes].
      intros u Hu. exists L, e. split; [left; reflexivity | exact Hu].
    + eapply writesOnly_weaken; [|exact IH].
      intros u (L' & e' & Hin & Hu). exists L', e'. split; [right; exact Hin | exact Hu].
Qed.

(** [start] in three parts: the teardown of the cleanup on unmount, the
    allocation, and a launch that writes what a rendered target may. *)
Lemma start_parts (P : Params) (H : Host) (L : Layout) (fuel : nat)
    (index : Z) (behavior : ScrollBehavior) (callback : bool) (w w' : World) :
  start P H L (refs P H L fuel) index behavior callback w = Some w' ->
  exists w2,
    rtc (written (usedBy Unmount)) w w2 /\
    rtc (written (usedBy (HandleRendered index)))
      (perform (WAllocate index behavior callback (maxCorrections P)
                  (maintainPosition P)) w2) w'.
Proof.
  intros Hrun.
  unfold start in Hrun. unfold seq at 1, readWorld at 1 in Hrun.
  destruct (match operationRef w with
            | Some a => cancelScheduledFrame a
            | None => ret
            end w) as [w1|] eqn:E1; [|discriminate].
  assert (A1 : rtc (written (usedBy Unmount)) w w1).
  { destruct (operationRef w);
      [eapply writes_cancelScheduledFrame, E1; by_kind
      | eapply writesOnly_ret, E1]. }
  unfold seq at 1 in Hrun.
  destruct (clearOperation L None w1) as [w2|] eqn:E2; [|discriminate].
  assert (A2 : rtc (written (usedBy Unmount)) w1 w2)
    by (eapply writes_clearOperation_None, E2; by_kind).
  unfold readWorld at 1 in Hrun.
  do 3 (unfold seq at 1 in Hrun; unfold modWorld at 1 in Hrun).
  cbv zeta in Hrun.
  exists w2. split; [eapply rtc_trans; eassumption|].
  destruct (writes_refs P H L (usedBy (HandleRendered index)) fuel)
    as [Hc Hs]; try by_kind.
  eapply writes_start_launch, Hrun; try assumption; by_kind.
Qed.

(** ** What stays of an operation over a run *)

Lemma laterOf_refl (o : Op.t) : laterOf o o.
Proof. unfold laterOf. repeat split; auto; lia. Qed.

Lemma laterOf_trans (o1 o2 o3 : Op.t) :
  laterOf o1 o2 -> laterOf o2 o3 -> laterOf o1 o3.
Proof.
  unfold laterOf.
  intros (Hi & Ht & Hb & Hc & Hm & Hn & Hs & Hh & Ha)
         (Hi' & Ht' & Hb' & Hc' & Hm' & Hn' & Hs' & Hh' & Ha').
  repeat split; try congruence; try lia; auto.
Qed.

Lemma laterOf_applyWrite (u : FieldWrite) (o : Op.t) : laterOf o (applyWrite u o).
Proof. destruct u; unfold laterOf; cbn; repeat split; auto; lia. Qed.

Lemma force_detach (L : Layout) (w : World) :
  ops (force (detachScrollListener L) w) = ops w /\
  operationRef (force (detachScrollListener L) w) = operationRef w /\
  operationIdRef (force (detachScrollListener L) w) = operationIdRef w /\
  log (force (detachScrollListener L) w) = log w.
Proof.
  unfold force, detachScrollListener, modWorld.
  destruct (scrollListenerRef w && isSome (scrollView L)); repeat split.
Qed.

Lemma force_ensure (L : Layout) (w : World) :
  ops (force (ensureScrollListener L) w) = ops w /\
  operationRef (force (ensureScrollListener L) w) = operationRef w /\
  operationIdRef (force (ensureScrollListener L) w) = operationIdRef w /\
  log (force (ensureScrollListener L) w) = log w.
Proof.
  unfold force, ensureScrollListener, modWorld.
  destruct (scrollListenerRef w || isNull (scrollView L)); repeat split.
Qed.

(** What a write does to the store, the id counter and the current
    operation. *)
Lemma perform_store (u : Write) (w : World) :
  match u with
  | WField a f =>
      ops (perform u w) = alter (applyWrite f) a (ops w) /\
      operationIdRef (perform u w) = operationIdRef w /\
      operationRef (perform u w) = operationRef w
  | WRetire _ _ =>
      ops (perform u w) = ops w /\
      operationIdRef (perform u w) = operationIdRef w /\
      operationRef (perform u w) = None
  | WAllocate index behavior callback budget maintain =>
      ops (perform u w) =
        <[operationIdRef w + 1 :=
            freshOperation (operationIdRef w + 1) index behavior callback
              budget maintain]> (ops w) /\
      operationIdRef (perform u w) = operationIdRef w + 1 /\
      operationRef (perform u w) = Some (operationIdRef w + 1)
  | _ => ops (perform u w) = ops w /\
         operationIdRef (perform u w) = operationIdRef w /\
         operationRef (perform u w) = operationRef w
  end.
Proof.
  destruct u as [a f|s|s K|L|L|position request|e|[L|] es| ]; cbn;
    try (repeat split; reflexivity).
  - destruct (force_detach L w) as (? & ? & ? & _). repeat split; assumption.
  - destruct (force_ensure L w) as (? & ? & ? & _). repeat split; assumption.
  - destruct (force_detach L (set_operationRef None w)) as (? & ? & ? & _).
    repeat split; assumption.
Qed.

Lemma perform_persists (u : Write) (w : World) :
  (forall a o, ops w !! a = Some o -> a <= operationIdRef w) ->
  persists w (perform u w).
Proof.
  intros Hbound a o Ho. pose proof (perform_store u w) as Hstore.
  destruct u as [b f| | | | | | | | ];
    try (destruct Hstore as (-> & _ & _); exists o; split; [exact Ho | apply laterOf_refl]).
  - destruct Hstore as (-> & _ & _). destruct (decide (b = a)) as [->|Hne].
    + rewrite lookup_alter_eq, Ho. exists (applyWrite f o).
      split; [reflexivity | apply laterOf_applyWrite].
    + rewrite lookup_alter_ne by exact Hne. exists o.
      split; [exact Ho | apply laterOf_refl].
  - destruct Hstore as (-> & _ & _). exists o. split; [|apply laterOf_refl].
    rewrite lookup_insert_ne; [exact Ho|]. specialize (Hbound _ _ Ho). lia.
Qed.

Lemma perform_bounded (u : Write) (w : World) :
  (forall a o, ops w !! a = Some o -> a <= operationIdRef w) ->
  forall a o, ops (perform u w) !! a = Some o -> a <= operationIdRef (perform u w).
Proof.
  intros Hbound a o. pose proof (perform_store u w) as Hstore.
  destruct u as [b f| | | | | | | | ];
    try (destruct Hstore as (-> & -> & _); apply Hbound).
  - destruct Hstore as (-> & -> & _). intros Ho.
    destruct (decide (b = a)) as [->|Hne].
    + rewrite lookup_alter_eq in Ho. destruct (ops w !! a) eqn:E; [|discriminate].
      eapply Hbound, E.
    + rewrite lookup_alter_ne in Ho by exact Hne. eapply Hbound, Ho.
  - destruct Hstore as (-> & -> & _). intros Ho.
    destruct (decide (operationIdRef w + 1 = a)) as [<-|Hne]; [lia|].
    rewrite lookup_insert_ne in Ho by exact Hne. specialize (Hbound _ _ Ho). lia.
Qed.

Lemma persists_refl (w : World) : persists w w.
Proof. intros a o Ho. exists o. split; [exact Ho | apply laterOf_refl]. Qed.

Lemma persists_trans (w1 w2 w3 : World) :
  persists w1 w2 -> persists w2 w3 -> persists w1 w3.
Proof.
  intros H12 H23 a o1 Ho1.
  destruct (H12 _ _ Ho1) as (o2 & Ho2 & K12).
  destruct (H23 _ _ Ho2) as (o3 & Ho3 & K23).
  exists o3. split; [exact Ho3 | eapply laterOf_trans; eassumption].
Qed.

Lemma written_persists (allowed : Write -> Prop) (w w' : World) :
  rtc (written allowed) w w' ->
  (forall a o, ops w !! a = Some o -> a <= operationIdRef w) ->
  (forall a o, ops w' !! a = Some o -> a <= operationIdRef w') /\ persists w w'.
Proof.
  intros Hrtc. induction Hrtc as [w|w w1 w' (u & _ & ->) _ IH]; intros Hbound.
  - split; [exact Hbound | apply persists_refl].
  - destruct (IH (perform_bounded u w Hbound)) as [Hbound' Hp].
    split; [exact Hbound'|].
    eapply persists_trans; [apply perform_persists, Hbound | exact Hp].
Qed.

(** X1. Over a run of any events, from the controller as it is created, a
    record never changes the request it stands for (id, target index,
    behavior, callback, maintainPosition); its correction budget never
    grows; and [stable], [hasMeasuredTarget] and
    [initialAlignmentPerformed], once set, stay set. *)
Theorem operation_persists (P : Params) (H : Host) (fuel : nat)
    (es1 es2 : list (Layout * Event)) (w1 w2 : World) (a : Z) (o : Op.t) :
  run P H fuel es1 initialWorld = Some w1 ->
  run P H fuel es2 w1 = Some w2 ->
  ops w1 !! a = Some o ->
  exists o', ops w2 !! a = Some o' /\ laterOf o o'.
Proof.
  intros Hrun1 Hrun2 Ho.
  pose proof (run_writes P H fuel es1 _ _ Hrun1) as W1.
  pose proof (run_writes P H fuel es2 _ _ Hrun2) as W2.
  destruct (written_persists _ _ _ W1) as [Hbound1 _].
  { intros b ob Hb. cbn in Hb. rewrite lookup_empty in Hb. discriminate. }
  destruct (written_persists _ _ _ W2 Hbound1) as [_ Hp].
  apply Hp, Ho.
Qed.

Lemma operation_persists_witness :
  exists o', ops supersededWorld !! 1 = Some o' /\ Op.targetIndex o' = 5.
Proof.
  pose (w1 := after (props 10 None) browser
                [(alignedLayout, Start 5 instant true)]).
  assert (H1 : run (props 10 None) browser 1
                 [(alignedLayout, Start 5 instant true)] initialWorld = Some w1).
  { vm_compute. reflexivity. }
  assert (H2 : run (props 10 None) browser 1
                 [(alignedLayout, Start 7 instant true)] w1
               = Some supersededWorld).
  { vm_compute. reflexivity. }
  assert (Ho : exists o, ops w1 !! 1 = Some o /\ Op.targetIndex o = 5).
  { eexists. split; vm_compute; reflexivity. }
  destruct Ho as (o & Ho & Ht).
  destruct (operation_persists (props 10 None) browser 1 _ _ w1 supersededWorld
              1 o H1 H2 Ho) as (o' & Ho' & _ & Ht' & _).
  exists o'. split; [exact Ho' | congruence].
Defined.

(** ** Which operation is current *)

(** A write that allocates nothing leaves the id counter alone, and the
    current operation either stays or is retired. *)
Lemma written_follows (allowed : Write -> Prop) (w w' : World) :
  (forall u, allowed u -> kind u <> Some Allocate) ->
  rtc (written allowed) w w' ->
  operationIdRef w' = operationIdRef w /\
  (operationRef w' = None \/ operationRef w' = operationRef w).
Proof.
  intros Hno Hrtc.
  induction Hrtc as [w|w w1 w' (u & Hu & ->) _ IH]; [auto|].
  pose proof (perform_store u w) as Hstore. specialize (Hno u Hu).
  destruct IH as [Hc Hr].
  destruct u; try (exfalso; apply Hno; reflexivity);
    destruct Hstore as (_ & Hc1 & Hr1); (split; [congruence|]);
    destruct Hr as [Hr|Hr]; auto; rewrite Hr, Hr1; auto.
Qed.

Lemma usedBy_no_allocation (e : Event) (u : Write) :
  (forall index behavior callback, e <> Start index behavior callback) ->
  usedBy e u -> kind u <> Some Allocate.
Proof.
  unfold usedBy. intros Hns Hu Hk. rewrite Hk in Hu.
  destruct e; try discriminate. eapply Hns. reflexivity.
Qed.

Lemma starts_snoc (es : list (Layout * Event)) (L : Layout) (e : Event) :
  starts (es ++ [(L, e)]) =
  starts es + match e with Start _ _ _ => 1 | _ => 0 end.
Proof.
  unfold starts. rewrite List.filter_app, length_app. cbn.
  destruct e; cbn; lia.
Qed.

Lemma lastStart_snoc (es : list (Layout * Event)) (L : Layout) (e : Event) :
  lastStart (es ++ [(L, e)]) =
  match e with
  | Start index behavior callback => Some (index, behavior, callback)
  | _ => lastStart es
  end.
Proof.
  induction es as [|[L0 e0] es IH]; cbn.
  - destruct e; reflexivity.
  - rewrite IH. destruct e; reflexivity.
Qed.

Lemma currentIsLast_step (P : Params) (H : Host) (L : Layout) (fuel : nat)
    (es : list (Layout * Event)) (e : Event) (w w' : World) :
  currentIsLast es w ->
  step P H L fuel e w = Some w' ->
  currentIsLast (es ++ [(L, e)]) w'.
Proof.
  intros (Hbound & Hcount & Hcur) Hstep.
  assert (Hcase : (exists i b c, e = Start i b c)
                  \/ forall i b c, e <> Start i b c).
  { destruct e; first [left; solve [eauto] | right; intros; discriminate]. }
  destruct Hcase as [(index & behavior & callback & ->)|Hns].
  - cbn [step] in Hstep. apply start_parts in Hstep.
    destruct Hstep as (w2 & Hpre & Hpost).
    destruct (written_persists _ _ _ Hpre Hbound) as [Hbound2 _].
    assert (Hpre_no : forall u, usedBy Unmount u -> kind u <> Some Allocate)
      by (intros u0; apply usedBy_no_allocation; discriminate).
    assert (Hpost_no : forall u, usedBy (HandleRendered index) u ->
                                 kind u <> Some Allocate)
      by (intros u0; apply usedBy_no_allocation; discriminate).
    destruct (written_follows _ _ _ Hpre_no Hpre) as [Hc2 _].
    set (u := WAllocate index behavior callback (maxCorrections P)
                (maintainPosition P)) in *.
    pose proof (perform_store u w2) as (Hops3 & Hc3 & Hr3).
    pose proof (perform_bounded u w2 Hbound2) as Hbound3.
    destruct (written_persists _ _ _ Hpost Hbound3) as [Hbound' Hp].
    destruct (written_follows _ _ _ Hpost_no Hpost) as [Hc' Hr'].
    unfold currentIsLast. rewrite starts_snoc, lastStart_snoc.
    split; [exact Hbound'|]. split; [lia|].
    intros a Ha. destruct Hr' as [Hr'|Hr']; [congruence|].
    rewrite Hr', Hr3 in Ha. injection Ha as <-.
    destruct (Hp (operationIdRef w2 + 1)
                (freshOperation (operationIdRef w2 + 1) index behavior callback
                   (maxCorrections P) (maintainPosition P)))
      as (o' & Ho' & Hi & Ht & Hb & Hcb & _).
    { rewrite Hops3. apply lookup_insert_eq. }
    exists o', index, behavior, callback.
    cbn in Hi, Ht, Hb, Hcb. repeat split; try assumption; lia.
  - pose proof (step_writes P H L fuel e _ _ Hstep) as Hw.
    destruct (written_persists _ _ _ Hw Hbound) as [Hbound' Hp].
    destruct (written_follows _ _ _ (fun u => usedBy_no_allocation e u Hns) Hw)
      as [Hc' Hr'].
    unfold currentIsLast. rewrite starts_snoc, lastStart_snoc.
    split; [exact Hbound'|].
    split; [destruct e; try lia; exfalso; eapply Hns; reflexivity|].
    intros a Ha. destruct Hr' as [Hr'|Hr']; [congruence|].
    rewrite Hr' in Ha. destruct (Hcur a Ha)
      as (o & index & behavior & callback & Hlast & Hids & Ho & Hi & Ht & Hb & Hcb).
    destruct (Hp _ _ Ho) as (o' & Ho' & Hi' & Ht' & Hb' & Hcb' & _).
    exists o', index, behavior, callback.
    repeat split; try congruence.
    + destruct e; try exact Hlast. exfalso. eapply Hns. reflexivity.
    + destruct e; try lia. exfalso. eapply Hns. reflexivity.
Qed.

Lemma currentIsLast_run (P : Params) (H : Host) (fuel : nat)
    (es2 es1 : list (Layout * Event)) (w w' : World) :
  currentIsLast es1 w ->
  run P H fuel es2 w = Some w' ->
  currentIsLast (es1 ++ es2) w'.
Proof.
  revert es1 w. induction es2 as [|[L e] es2 IH]; intros es1 w Hinv Hrun.
  - cbn in Hrun. injection Hrun as <-. rewrite app_nil_r. exact Hinv.
  - cbn [run] in Hrun. unfold seq in Hrun.
    destruct (step P H L fuel e w) as [w1|] eqn:E; [|discriminate].
    replace (es1 ++ (L, e) :: es2) with ((es1 ++ [(L, e)]) ++ es2)
      by (rewrite <- app_assoc; reflexivity).
    eapply IH; [|exact Hrun]. eapply currentIsLast_step; eassumption.
Qed.

(** X2. After any run from the controller as it is created, the id counter
    shows the number of [start] calls so far, and the current operation, if
    there is one, is the request of the last [start]: it carries that id and
    the target index, behavior and callback that [start] was given. *)
Theorem current_operation_is_last_start (P : Params) (H : Host) (fuel : nat)
    (es : list (Layout * Event)) (w : World) :
  run P H fuel es initialWorld = Some w ->
  operationIdRef w = starts es /\
  forall a, operationRef w = Some a ->
    exists o index behavior callback,
      lastStart es = Some (index, behavior, callback) /\
      a = starts es /\
      ops w !! a = Some o /\
      Op.id o = a /\
      Op.targetIndex o = index /\
      Op.behavior o = behavior /\
      Op.callback o = callback.
Proof.
  intros Hrun.
  apply (currentIsLast_run P H fuel es [] initialWorld w); [|exact Hrun].
  split; [|split; [reflexivity | intros a [=]]].
  intros a o Ho. cbn in Ho. rewrite lookup_empty in Ho. discriminate.
Qed.

Lemma current_operation_is_last_start_witness :
  operationIdRef supersededWorld = 2 /\
  exists o, ops supersededWorld !! 2 = Some o /\ Op.targetIndex o = 7.
Proof.
  assert (Hrun : run (props 10 None) browser 1
                   [(alignedLayout, Start 5 instant true);
                    (alignedLayout, Start 7 instant true)] initialWorld
                 = Some supersededWorld).
  { vm_compute. reflexivity. }
  destruct (current_operation_is_last_start (props 10 None) browser 1 _
              supersededWorld Hrun) as [Hid Hcur].
  split; [exact Hid|].
  assert (Href : operationRef supersededWorld = Some 2).
  { vm_compute. reflexivity. }
  destruct (Hcur 2 Href)
    as (o & index & behavior & callback & Hlast & _ & Ho & _ & Ht & _).
  exists o. split; [exact Ho|].
  vm_compute in Hlast. congruence.
Defined.

(** ** Endings leave the controller idle *)

Lemma perform_log (u : Write) (w : World) :
  log (perform u w) = logged u ++ log w.
Proof.
  destruct u as [a f|s|s K|L|L|position request|e|[L|] es| ];
    cbn [perform logged]; try reflexivity.
  - apply force_detach.
  - apply force_ensure.
  - cbv zeta. cbn [log set_log].
    destruct (force_detach L (set_operationRef None w)) as (_ & _ & _ & ->).
    reflexivity.
Qed.

Lemma existsb_rev {A} (f : A -> bool) (l : list A) :
  existsb f (rev l) = existsb f l.
Proof.
  induction l as [|x l IH]; [reflexivity|].
  cbn. rewrite existsb_app, IH. cbn. rewrite orb_false_r. apply orb_comm.
Qed.

Lemma endsIdle_refl (w : World) : endsIdle w w.
Proof. exists []. split; [reflexivity|]. right. split; reflexivity. Qed.

Lemma endsIdle_trans (w1 w2 w3 : World) :
  endsIdle w1 w2 -> endsIdle w2 w3 -> endsIdle w1 w3.
Proof.
  intros (n1 & E1 & H1) (n2 & E2 & H2). exists (n2 ++ n1).
  split; [rewrite E2, E1; apply app_assoc|].
  destruct H2 as [H2|[H2 Q2]]; [left; exact H2|].
  destruct H1 as [H1|[H1 Q1]]; [left; congruence|].
  right. split; [congruence|]. rewrite existsb_app, Q2, Q1. reflexivity.
Qed.

Lemma scrollRequest_not_ending (e : Effect) :
  isScrollRequest e = true -> isEnding e = false.
Proof. destruct e; try discriminate; reflexivity. Qed.

Lemma progressNote_not_ending (e : Effect) :
  isProgressNote e = true -> isEnding e = false.
Proof. destruct e; try discriminate; reflexivity. Qed.

Lemma perform_endsIdle (u : Write) (w : World) :
  (exists k, kind u = Some k /\ k <> Allocate) -> endsIdle w (perform u w).
Proof.
  intros (k & Hk & Hna). exists (logged u). split; [apply perform_log|].
  pose proof (perform_store u w) as Hstore.
  destruct u as [a f|s|s K|L|L|position request|e|detach es| ];
    try (right; split; [apply Hstore | reflexivity]).
  - right. split; [apply Hstore|]. cbn in *.
    destruct (isScrollRequest request) eqn:E; [|discriminate].
    rewrite (scrollRequest_not_ending _ E). reflexivity.
  - right. split; [apply Hstore|]. cbn in *.
    destruct (isProgressNote e) eqn:E; [|discriminate].
    rewrite (progressNote_not_ending _ E). reflexivity.
  - left. apply Hstore.
  - cbn in Hk. congruence.
Qed.

Lemma written_endsIdle (allowed : Write -> Prop) (w w' : World) :
  (forall u, allowed u -> exists k, kind u = Some k /\ k <> Allocate) ->
  rtc (written allowed) w w' -> endsIdle w w'.
Proof.
  intros Hk. apply written_relates.
  - apply endsIdle_refl.
  - apply endsIdle_trans.
  - intros u w0 Hu. apply perform_endsIdle, Hk, Hu.
Qed.

Lemma usedBy_kinds (e : Event) (u : Write) :
  (forall index behavior callback, e <> Start index behavior callback) ->
  usedBy e u -> exists k, kind u = Some k /\ k <> Allocate.
Proof.
  unfold usedBy. intros Hns Hu. destruct (kind u) as [k|]; [|contradiction].
  exists k. split; [reflexivity|]. intros ->.
  destruct e; try discriminate. eapply Hns. reflexivity.
Qed.

Lemma endsNothing_refl (w : World) : endsNothing w w.
Proof. exists []. split; reflexivity. Qed.

Lemma endsNothing_trans (w1 w2 w3 : World) :
  endsNothing w1 w2 -> endsNothing w2 w3 -> endsNothing w1 w3.
Proof.
  intros (n1 & E1 & Q1) (n2 & E2 & Q2). exists (n2 ++ n1).
  split; [rewrite E2, E1; apply app_assoc|].
  rewrite existsb_app, Q2, Q1. reflexivity.
Qed.

(** The teardown that [start] and the cleanup on unmount perform notifies
    no ending. *)
Lemma silent_teardown (w w' : World) :
  rtc (written (usedBy Unmount)) w w' -> endsNothing w w'.
Proof.
  apply written_relates.
  - apply endsNothing_refl.
  - apply endsNothing_trans.
  - intros u w0 Hu. exists (logged u). split; [apply perform_log|].
    unfold usedBy in Hu.
    destruct u as [a f|s|s K|L|L|position request|e|detach es| ];
      try reflexivity; cbn in *.
    + destruct (isScrollRequest request); [discriminate | contradiction].
    + destruct (isProgressNote e) eqn:E; [|contradiction].
      rewrite (progressNote_not_ending _ E). reflexivity.
    + destruct (existsb isScrollRequest es); [contradiction|].
      destruct (existsb isCancellation es) eqn:Ec; [discriminate|].
      destruct (existsb isPinRelease es) eqn:Ep; [discriminate|].
      rewrite existsb_rev. unfold isEnding.
      clear Hu. induction es as [|x es IH]; [reflexivity|].
      cbn in *. apply orb_false_iff in Ec as [Ec1 Ec2].
      apply orb_false_iff in Ep as [Ep1 Ep2].
      rewrite Ec1, Ep1. cbn. apply IH; assumption.
Qed.

Lemma step_endsIdle (P : Params) (H : Host) (L : Layout) (fuel : nat)
    (e : Event) (w w' : World) :
  step P H L fuel e w = Some w' ->
  exists new,
    log w' = new ++ log w /\
    (existsb isEnding new = true -> operationRef w' = None) /\
    (operationRef w' = None \/ operationRef w' = operationRef w
     \/ exists index behavior callback, e = Start index behavior callback).
Proof.
  intros Hstep.
  assert (Hcase : (exists i b c, e = Start i b c)
                  \/ forall i b c, e <> Start i b c).
  { destruct e; first [left; solve [eauto] | right; intros; discriminate]. }
  destruct Hcase as [(index & behavior & callback & ->)|Hns].
  - cbn [step] in Hstep. apply start_parts in Hstep.
    destruct Hstep as (w2 & Hpre & Hpost).
    apply silent_teardown in Hpre. destruct Hpre as (n1 & E1 & Q1).
    apply written_endsIdle in Hpost;
      [|intros u; apply usedBy_kinds; discriminate].
    destruct Hpost as (n2 & E2 & Hidle).
    rewrite perform_log in E2. cbn [logged app] in E2.
    exists (n2 ++ n1). split; [rewrite E2, E1; apply app_assoc|].
    split; [|right; right; eauto].
    rewrite existsb_app, Q1, orb_false_r. intros Hend.
    destruct Hidle as [Hidle|[_ Hidle]]; [exact Hidle | congruence].
  - pose proof (step_writes P H L fuel e _ _ Hstep) as Hw.
    apply written_endsIdle in Hw; [|intros u; apply usedBy_kinds; exact Hns].
    destruct Hw as (new & E & Hidle). exists new. split; [exact E|].
    split.
    + intros Hend. destruct Hidle as [Hidle|[_ Hidle]]; [exact Hidle | congruence].
    + destruct Hidle as [Hidle|[Hidle _]]; auto.
Qed.

(** X3. Whenever an event makes the controller notify a cancellation or a
    pin release, the controller is idle once the event is handled:
    [isActive] answers false. *)
Theorem ending_leaves_controller_idle (P : Params) (H : Host) (L : Layout)
    (fuel : nat) (e : Event) (w w' : World) :
  step P H L fuel e w = Some w' ->
  existsb isEnding (newEntries w w') = true ->
  isActive w' = false.
Proof.
  intros Hstep Hend.
  destruct (step_endsIdle P H L fuel e w w' Hstep) as (new & E & Hidle & _).
  rewrite (newEntries_app w w' new E) in Hend.
  unfold isActive. rewrite (Hidle Hend). reflexivity.
Qed.

Lemma ending_leaves_controller_idle_witness : isActive cancelledWorld = false.
Proof.
  apply (ending_leaves_controller_idle (props 10 None) browser alignedLayout 1
           Cancel measuredWorld); vm_compute; reflexivity.
Defined.

(** ** Finalization and the pin *)

Lemma Status_eqb_not_stable (s : Status) :
  s <> stable -> Status_eqb s stable = false.
Proof. destruct s; cbn; congruence. Qed.

(** What [finalizeOperation] does to an operation that is not yet stable. *)
Lemma finalizeOperation_runs (P : Params) (H : Host) (L : Layout)
    (a : Z) (w : World) (o : Op.t) :
  ops w !! a = Some o ->
  Op.status o <> stable ->
  exists w' o',
    finalizeOperation P H L a w = Some w' /\
    ops w' !! a = Some o' /\
    Op.status o' = stable /\
    Op.id o' = Op.id o /\
    Op.targetIndex o' = Op.targetIndex o /\
    Op.correctionsRemaining o' = Op.correctionsRemaining o /\
    Op.stabilityTimeoutId o' = None /\
    Op.scheduleFrameId o' = None /\
    log w' = finalNotes P o ++ log w /\
    scrollTop w' = scrollTop w /\
    scrollLeft w' = scrollLeft w /\
    operationRef w' = (if maintainPosition P then operationRef w else None) /\
    operationIdRef w' = operationIdRef w /\
    Op.isPinned o' = (maintainPosition P || Op.isPinned o) /\
    (maintainPosition P = false -> scrollListenerRef w' = false) /\
    (maintainPosition P = true -> Op.isPinned o = false ->
     isSome (scrollView L) = true -> scrollListenerRef w' = true) /\
    (maintainPosition P = true -> Op.isPinned o = false -> 0 < nextHandle w ->
     match pinDuration P with
     | Some _ =>
         if hookWindow H
         then getSlot PinTimeout w' = Some (Op.id o) /\
              Op.pinTimeoutId o' = Some (nextHandle w)
         else Op.pinTimeoutId o' = None
     | None => Op.pinTimeoutId o' = None
     end).
Proof.
  intros Ho Hs. apply Status_eqb_not_stable in Hs.
  destruct w; cbn in Ho.
  unfold finalNotes. unfold_finalize. unfold armSlot. unfold_monad.
  cbn. rewrite Ho, Hs.
  exec Ho; eexists; eexists; (split; [reflexivity|]); cbn; heap Ho; cbn;
    repeat split; try reflexivity; try discriminate; try assumption;
    try (intros; cbn in *; first [congruence | lia]);
    intros;
    match goal with
    | Hx : (?b || isNull ?x) = _ |- _ => destruct b, x; cbn in *; congruence
    end.
Qed.

(** ** What [start] launches *)

(** In a browser, [start] on an idle controller: the record it creates, the
    one request it issues and what it schedules. *)
Lemma start_launches (P : Params) (H : Host) (L : Layout) (fuel : nat)
    (index : Z) (behavior : ScrollBehavior) (callback : bool) (w : World) :
  hookWindow H = true -> canUseAnimationFrame H = true ->
  canUseTimeout H = true -> 0 < nextHandle w ->
  operationRef w = None ->
  exists w' o',
    start P H L (refs P H L (S fuel)) index behavior callback w = Some w' /\
    operationRef w' = Some (operationIdRef w + 1) /\
    operationIdRef w' = operationIdRef w + 1 /\
    ops w' !! (operationIdRef w + 1) = Some o' /\
    laterOf (freshOperation (operationIdRef w + 1) index behavior callback
               (maxCorrections P) (maintainPosition P)) o' /\
    Op.correctionsRemaining o' = maxCorrections P /\
    Op.status o' = initial /\
    Op.hasMeasuredTarget o' = false /\
    Op.isPinned o' = false /\
    Op.pendingCorrection o' = (0 <? maxCorrections P) /\
    Op.isProgrammaticScroll o' = isSome (directOffset P L index) /\
    Op.stableIterations o' = DEFAULT_CORRECTION_SETTLE /\
    isSome (Op.stabilityTimeoutId o') = true /\
    Op.anchorFrameId o' = None /\
    Op.pinTimeoutId o' = None /\
    log w' =
      scrollRequest P L index behavior :: ESetFlaggedIndex (Some index) :: log w /\
    getSlot StabilityTimeout w' = Some (operationIdRef w + 1) /\
    getSlot CorrectionFrame w' =
      (if 0 <? maxCorrections P then Some (operationIdRef w + 1)
       else getSlot CorrectionFrame w) /\
    scrollListenerRef w' = (scrollListenerRef w || isSome (scrollView L)) /\
    nextHandle w <= nextHandle w'.
Proof.
  intros Hhook Hraf Htimeout Hhandle Hnone.
  destruct w as [store current listening counter s1 s2 s3 s4 s5 s6 handle
                 top0 left0 dom entries];
    cbn in Hhandle, Hnone; subst.
  assert (Hh1 : (handle =? -1) = false) by (apply Z.eqb_neq; lia).
  assert (Hh2 : (handle + 1 =? -1) = false) by (apply Z.eqb_neq; lia).
  assert (Hh3 : (handle + 1 + 1 =? -1) = false) by (apply Z.eqb_neq; lia).
  unfold start, clearOperation, scrollRequest, directOffset.
  cbn [refs scheduleCorrectionRef scheduleStabilityCheckRef].
  destruct listening;
    destruct (reversed P) eqn:Hrev; destruct (axis P) eqn:Hax;
    destruct (getOffsetForIndex P) as [f|] eqn:Hget;
    try destruct (f index) eqn:Hf;
    destruct (scrollView L) eqn:Hview;
    destruct (maxCorrections P <=? 0) eqn:Hmax;
    repeat (progress (cbn; unfold_start; unfold_monad;
                      rewrite ?lookup_alter_eq, ?lookup_insert_eq, ?Hhook,
                        ?Hraf, ?Htimeout, ?Hh1, ?Hh2, ?Hh3, ?Hrev, ?Hax, ?Hget,
                        ?Hf, ?Hview, ?Hmax)).
  all: eexists; eexists; (split; [reflexivity|]).
  all: repeat (progress (cbn; rewrite ?lookup_alter_eq, ?lookup_insert_eq)).
  all: assert (Hpos : (0 <? maxCorrections P) = negb (maxCorrections P <=? 0))
         by (destruct (Z.ltb_spec 0 (maxCorrections P)),
                      (Z.leb_spec (maxCorrections P) 0); try reflexivity; lia).
  all: rewrite Hpos, Hmax; cbn.
  all: unfold laterOf; cbn.
  all: repeat split; try reflexivity; try lia; auto.
Qed.


(** ** Correction frames *)


Lemma exceedsTolerance_nonzero (q : Q) :
  exceedsTolerance (Qabs q) = true -> Qeq_bool q 0 = false.
Proof.
  intros Hoff. apply Qeq_bool_false. intros Hz. unfold exceedsTolerance in Hoff.
  apply Qltb_lt in Hoff. rewrite Hz in Hoff. vm_compute in Hoff. discriminate.
Qed.

Lemma exceedsTolerance_nonzero' (q : Q) :
  exceedsTolerance q = true -> Qeq_bool q 0 = false.
Proof.
  intros Hoff. apply Qeq_bool_false. intros Hz. unfold exceedsTolerance in Hoff.
  apply Qltb_lt in Hoff. rewrite Hz in Hoff. vm_compute in Hoff. discriminate.
Qed.

(** An alignment that reports a delta or an overflow saw the scroll view. *)
Lemma alignment_mounted (P : Params) (L : Layout) (index : Z) :
  (Qeq_bool (startDelta (evaluateTargetAlignment P L index)) 0 = false \/
   Qeq_bool (endOverflow (evaluateTargetAlignment P L index)) 0 = false) ->
  isNull (scrollView L) = false.
Proof.
  unfold evaluateTargetAlignment.
  destruct (scrollView L); [reflexivity|]. cbn. intros [E|E]; discriminate.
Qed.

Ltac unfold_correction :=
  unfold executeCorrection, minimalAdjustment, decrementCorrections,
    performScroll, scheduleCorrectionImpl, scheduleStabilityCheckImpl,
    canReschedule, rescheduleStabilityCheck.

(** The scroll a correction frame begins with. *)
Lemma correction_scrolls (P : Params) (H : Host) (L : Layout)
    (a : Z) (o : Op.t) (w : World) :
  hookWindow H = true ->
  ops w !! a = Some o ->
  let alignment := evaluateTargetAlignment P L (Op.targetIndex o) in
  exists w1 o1,
    (let '(adjust, applied) :=
       if elementExists alignment then minimalAdjustment P H L a alignment
       else (ret, false) in
     adjust >> (if negb applied then performScroll P H L a instant else ret)) w
    = Some w1 /\
    ops w1 !! a = Some o1 /\
    (o1 = o \/ o1 = Op.set_isProgrammaticScroll true o) /\
    log w1 = correctionRequest P L o :: log w /\
    operationRef w1 = operationRef w /\
    operationIdRef w1 = operationIdRef w /\
    scrollListenerRef w1 = scrollListenerRef w /\
    getSlot CorrectionFrame w1 = getSlot CorrectionFrame w /\
    getSlot StabilityTimeout w1 = getSlot StabilityTimeout w /\
    getSlot PinTimeout w1 = getSlot PinTimeout w /\
    nextHandle w <= nextHandle w1.
Proof.
  intros Hhook Ho alignment.
  unfold correctionRequest, scrollRequest, directOffset, minimalAdjustment.
  fold alignment.
  destruct w as [store current listening counter s1 s2 s3 s4 s5 s6 handle
                 top0 left0 dom entries]; cbn in Ho.
  destruct (elementExists alignment) eqn:Hex; cbn [andb];
    [destruct (exceedsTolerance (Qabs (startDelta alignment))) eqn:Hs;
     [|destruct (exceedsTolerance (endOverflow alignment)) eqn:He]|].
  - pose proof (exceedsTolerance_nonzero _ Hs) as Hnz.
    pose proof (alignment_mounted P L _ (or_introl Hnz)) as Hview.
    fold alignment in Hnz.
    unfold applyScrollByDelta, signAdjusted. rewrite Hview, Hnz.
    destruct (axis P), (reversed P);
      repeat (progress (cbn; unfold scheduleProgrammaticScrollReset,
                          requestFrameHook, armSlot; unfold_monad;
                        rewrite ?lookup_alter_eq, ?Ho, ?Hhook)).
    all: eexists; eexists; (split; [reflexivity|]); cbn.
    all: rewrite lookup_alter_eq, Ho; cbn.
    all: split; [reflexivity|]; split; [right; reflexivity|].
    all: repeat split; try reflexivity; lia.
  - pose proof (exceedsTolerance_nonzero' _ He) as Hnz.
    pose proof (alignment_mounted P L _ (or_intror Hnz)) as Hview.
    fold alignment in Hnz.
    unfold applyScrollByDelta, signAdjusted. rewrite Hview, Hnz.
    destruct (axis P), (reversed P);
      repeat (progress (cbn; unfold scheduleProgrammaticScrollReset,
                          requestFrameHook, armSlot; unfold_monad;
                        rewrite ?lookup_alter_eq, ?Ho, ?Hhook)).
    all: eexists; eexists; (split; [reflexivity|]); cbn.
    all: rewrite lookup_alter_eq, Ho; cbn.
    all: split; [reflexivity|]; split; [right; reflexivity|].
    all: repeat split; try reflexivity; lia.
  - unfold performScroll.
    destruct (reversed P), (axis P), (getOffsetForIndex P) as [f|];
      try destruct (f (Op.targetIndex o)) eqn:Hf;
      destruct (scrollView L);
      repeat (progress (cbn; unfold scheduleProgrammaticScrollReset,
                          requestFrameHook, armSlot; unfold_monad;
                        rewrite ?lookup_alter_eq, ?Ho, ?Hhook, ?Hf)).
    all: eexists; eexists; (split; [reflexivity|]); cbn.
    all: rewrite ?lookup_alter_eq, Ho; cbn.
    all: split; [reflexivity|].
    all: split; [first [left; reflexivity | right; reflexivity]|].
    all: repeat split; try reflexivity; lia.
  - unfold performScroll.
    destruct (reversed P), (axis P), (getOffsetForIndex P) as [f|];
      try destruct (f (Op.targetIndex o)) eqn:Hf;
      destruct (scrollView L);
      repeat (progress (cbn; unfold scheduleProgrammaticScrollReset,
                          requestFrameHook, armSlot; unfold_monad;
                        rewrite ?lookup_alter_eq, ?Ho, ?Hhook, ?Hf)).
    all: eexists; eexists; (split; [reflexivity|]); cbn.
    all: rewrite ?lookup_alter_eq, Ho; cbn.
    all: split; [reflexivity|].
    all: split; [first [left; reflexivity | right; reflexivity]|].
    all: repeat split; try reflexivity; lia.
Qed.


Lemma seq_continue (f g : M) (w w1 : World) :
  f w = Some w1 -> (f >> g) w = g w1.
Proof. unfold seq. intros ->. reflexivity. Qed.

Lemma seq_continue2 (f g h : M) (w w1 : World) :
  (f >> g) w = Some w1 -> (f >> g >> h) w = h w1.
Proof.
  unfold seq. destruct (f w) as [w0|]; [|discriminate]. intros ->. reflexivity.
Qed.

Section CorrectionFrame.

#[local] Arguments finalizeOperation : simpl never.
#[local] Arguments minimalAdjustment : simpl never.
#[local] Arguments performScroll : simpl never.

(** A correction frame that runs for the current operation, in a
    browser. *)
Lemma correction_frame_runs (P : Params) (H : Host) (L : Layout) (fuel : nat)
    (a : Z) (o : Op.t) (w : World) :
  hookWindow H = true -> canUseAnimationFrame H = true ->
  canUseTimeout H = true -> 0 < nextHandle w ->
  operationRef w = Some a ->
  ops w !! a = Some o ->
  getSlot CorrectionFrame w = Some (Op.id o) ->
  Op.status o <> stable ->
  exists w' o',
    step P H L (S fuel) (Fire CorrectionFrame) w = Some w' /\
    ops w' !! a = Some o' /\
    Op.id o' = Op.id o /\
    Op.targetIndex o' = Op.targetIndex o /\
    Op.correctionsRemaining o' = Op.correctionsRemaining o - 1 /\
    if inPlace P L o then
      Op.status o' = stable /\
      log w' = finalNotes P o ++ correctionRequest P L o :: log w
    else
      Op.status o' = Op.status o /\
      log w' = correctionRequest P L o :: log w /\
      operationRef w' = Some a /\
      if 0 <? Op.correctionsRemaining o - 1
      then getSlot CorrectionFrame w' = Some (Op.id o) /\
           Op.pendingCorrection o' = true
      else getSlot CorrectionFrame w' = None /\
           getSlot StabilityTimeout w' = Some (Op.id o) /\
           Op.pendingCorrection o' = false.
Proof.
  intros Hhook Hraf Htimeout Hhandle Hactive Ho Hslot Hs.
  assert (Hself : (Op.id o =? Op.id o) = true) by apply Z.eqb_refl.
  cbn [step]. unfold readWorld at 1. rewrite Hslot.
  rewrite (seq_continue _ _ w (setSlot CorrectionFrame None w) eq_refl).
  cbn [callbackOf runCallback]. unfold executeCorrection, guardActive.
  unfold readWorld at 1.
  replace (operationRef (setSlot CorrectionFrame None w)) with (Some a)
    by (symmetry; exact Hactive).
  assert (Ho0 : ops (setSlot CorrectionFrame None w) !! a = Some o) by exact Ho.
  rewrite (withOp_hit _ _ _ _ Ho0), Hself, (withOp_hit _ _ _ _ Ho0).
  cbv zeta.
  pose proof (correction_scrolls P H L a o (setSlot CorrectionFrame None w)
                Hhook Ho0) as Hscroll.
  cbv zeta in Hscroll.
  set (alignment := evaluateTargetAlignment P L (Op.targetIndex o)) in *.
  destruct (if elementExists alignment
            then minimalAdjustment P H L a alignment
            else (ret, false)) as [adjust applied].
  destruct Hscroll as (w1 & o1 & Hrun1 & Ho1 & Hcase & Hlog1 & Href1 & _ & _
                       & Hc1 & Hst1 & _ & Hh1).
  rewrite (seq_continue2 _ _ _ _ _ Hrun1).
  assert (Hhandle1 : 0 < nextHandle w1) by (cbn in Hh1; lia).
  assert (Hfields : Op.id o1 = Op.id o /\
                    Op.targetIndex o1 = Op.targetIndex o /\
                    Op.correctionsRemaining o1 = Op.correctionsRemaining o /\
                    Op.status o1 = Op.status o /\
                    Op.callback o1 = Op.callback o /\
                    Op.stabilityTimeoutId o1 = Op.stabilityTimeoutId o).
  { destruct Hcase as [->| ->]; repeat split. }
  destruct Hfields as (Hid1 & Ht1 & Hb1 & Hs1 & Hcb1 & Hstab1).
  clear Hcase Hrun1 Ho0.
  destruct w as [store current listening counter s1 s2 s3 s4 s5 s6 handle
                 top0 left0 dom entries].
  destruct w1 as [store1 current1 listening1 counter1 t1 t2 t3 t4 t5 t6
                  handle1 top1 left1 dom1 entries1].
  cbn in Ho1, Hlog1, Href1, Hc1, Hst1, Hhandle1, Hactive. subst.
  unfold inPlace. fold alignment.
  destruct (elementExists alignment && aligned alignment) eqn:Hin.
  - unfold decrementCorrections. unfold_monad. cbn.
    match goal with
    | |- context [finalizeOperation P H L a ?w2] =>
        destruct (finalizeOperation_runs P H L a w2
                    (Op.set_scheduleFrameId None
                       (Op.set_pendingCorrection false
                          (Op.set_correctionsRemaining
                             (Op.correctionsRemaining o1 - 1) o1))))
          as (w' & o' & Hf & Ho' & Hs' & Hid' & Ht' & Hb' & _ & _ & Hlog'
              & _)
    end.
    { cbn. rewrite !lookup_alter_eq, Ho1. reflexivity. }
    { cbn. congruence. }
    exists w', o'. split; [exact Hf|]. split; [exact Ho'|].
    cbn in Hid', Ht', Hb', Hlog'.
    split; [congruence|]. split; [congruence|]. split; [congruence|].
    split; [exact Hs'|]. rewrite Hlog'. unfold finalNotes. cbn.
    rewrite Ht1, Hcb1. reflexivity.
  - assert (Hh : (handle1 =? -1) = false) by (apply Z.eqb_neq; lia).
    unfold decrementCorrections, scheduleCorrection, scheduleStabilityCheck.
    cbn [refs scheduleCorrectionRef scheduleStabilityCheckRef].
    unfold scheduleCorrectionImpl, scheduleStabilityCheckImpl, canReschedule,
      clearStabilityTimeout, requestFrameHook, setTimeoutHook, clearHook,
      armSlot.
    destruct (0 <? Op.correctionsRemaining o - 1) eqn:Hbudget.
    + assert (Hle : (Op.correctionsRemaining o - 1 <=? 0) = false).
      { apply Z.leb_gt. apply Z.ltb_lt in Hbudget. exact Hbudget. }
      repeat (progress (cbn; unfold_monad;
                        rewrite ?lookup_alter_eq, ?Ho1, ?Hb1, ?Hle, ?Hbudget,
                          ?Hraf, ?Hhook, ?Htimeout, ?Hh, ?Hstab1)).
      eexists. eexists. split; [reflexivity|].
      repeat (progress (cbn; rewrite ?lookup_alter_eq, ?Ho1)).
      repeat split; try reflexivity; try assumption; cbn; congruence.
    + destruct (Op.stabilityTimeoutId o) eqn:Hstab;
        repeat (progress (cbn; unfold_monad;
                          rewrite ?lookup_alter_eq, ?Ho1, ?Hb1, ?Hbudget,
                            ?Hraf, ?Hhook, ?Htimeout, ?Hh, ?Hstab1, ?Hstab));
        (eexists; eexists; split; [reflexivity|]);
        repeat (progress (cbn; rewrite ?lookup_alter_eq, ?Ho1));
        repeat split; try reflexivity; try assumption; cbn; congruence.
Qed.

End CorrectionFrame.


(** ** Statements about single handlers *)

Lemma scrollRequest_is_request (P : Params) (L : Layout) (index : Z)
    (behavior : ScrollBehavior) :
  isScrollRequest (scrollRequest P L index behavior) = true.
Proof. unfold scrollRequest. destruct (directOffset P L index); reflexivity. Qed.

Lemma correctionRequest_is_request (P : Params) (L : Layout) (o : Op.t) :
  isScrollRequest (correctionRequest P L o) = true.
Proof.
  unfold correctionRequest. cbv zeta.
  repeat match goal with
         | |- context [if ?b then _ else _] => destruct b
         end; try reflexivity; apply scrollRequest_is_request.
Qed.

Lemma finalNotes_no_request (P : Params) (o : Op.t) :
  List.filter isScrollRequest (finalNotes P o) = [].
Proof.
  unfold finalNotes. destruct (maintainPosition P), (Op.callback o); reflexivity.
Qed.

(** X4. In a browser, [start] on an idle controller makes a new operation
    current under the next id, with the full budget, flags its index, and
    issues exactly one scroll request: [scrollTo] with the offset of
    [getOffsetForIndex] when the list is vertical and not reversed, the
    offset is finite and the scroll view is mounted (the operation is then
    marked as scrolling programmatically), and [scrollToItemDynamic]
    otherwise.  It arms the stability timer, and a correction frame when
    [maxCorrections] is positive. *)
Theorem start_issues_one_request (P : Params) (H : Host) (L : Layout)
    (fuel : nat) (index : Z) (behavior : ScrollBehavior) (callback : bool)
    (w : World) :
  hookWindow H = true -> canUseAnimationFrame H = true ->
  canUseTimeout H = true -> 0 < nextHandle w ->
  operationRef w = None ->
  exists w' o',
    step P H L (S fuel) (Start index behavior callback) w = Some w' /\
    operationRef w' = Some (operationIdRef w + 1) /\
    ops w' !! (operationIdRef w + 1) = Some o' /\
    Op.targetIndex o' = index /\
    Op.status o' = initial /\
    Op.correctionsRemaining o' = maxCorrections P /\
    Op.isProgrammaticScroll o' = isSome (directOffset P L index) /\
    newEntries w w' =
      [scrollRequest P L index behavior; ESetFlaggedIndex (Some index)] /\
    getSlot StabilityTimeout w' = Some (operationIdRef w + 1) /\
    (0 < maxCorrections P ->
     getSlot CorrectionFrame w' = Some (operationIdRef w + 1)) /\
    scrollListenerRef w' = (scrollListenerRef w || isSome (scrollView L)).
Proof.
  intros Hhook Hraf Htimeout Hhandle Hidle.
  destruct (start_launches P H L fuel index behavior callback w Hhook Hraf
              Htimeout Hhandle Hidle)
    as (w' & o' & Hstart & Href & _ & Ho' & Hlater & Hb & Hst & _ & _ & _ & Hprog
        & _ & _ & _ & _ & Hlog & Hstab & Hcorr & Hlisten & _).
  destruct Hlater as (_ & Ht & _).
  exists w', o'. cbn [step]. repeat split; try assumption.
  - apply (newEntries_app w w' [_; _] Hlog).
  - intros Hpos. rewrite Hcorr. apply Z.ltb_lt in Hpos. rewrite Hpos. reflexivity.
Qed.

Lemma start_issues_one_request_witness :
  exists w',
    step (props 10 None) browser alignedLayout 1 (Start 5 instant true)
      initialWorld = Some w' /\
    operationRef w' = Some 1 /\
    newEntries initialWorld w'
    = [EScrollToItemDynamic 5 instant; ESetFlaggedIndex (Some 5)].
Proof.
  destruct (start_issues_one_request (props 10 None) browser alignedLayout 0 5
              instant true initialWorld eq_refl eq_refl eq_refl eq_refl eq_refl)
    as (w' & o' & Hstep & Href & _ & _ & _ & _ & _ & Hnew & _).
  exists w'. split; [exact Hstep|]. split; [exact Href | exact Hnew].
Defined.

(** X5. In a browser, a correction frame that runs for the current operation
    issues exactly one scroll request (a minimal adjustment when the target
    element is there and off by more than the tolerance, the absolute scroll
    of [performScroll] otherwise) and takes exactly one correction off the
    budget.  It finalizes exactly when it found the target in place;
    otherwise the operation stays current and the frame re-arms itself while
    budget remains, and hands over to the stability timer when none does. *)
Theorem correction_frame_scrolls_once (P : Params) (H : Host) (L : Layout)
    (fuel : nat) (a : Z) (o : Op.t) (w : World) :
  hookWindow H = true -> canUseAnimationFrame H = true ->
  canUseTimeout H = true -> 0 < nextHandle w ->
  operationRef w = Some a ->
  ops w !! a = Some o ->
  getSlot CorrectionFrame w = Some (Op.id o) ->
  Op.status o <> stable ->
  exists w' o',
    step P H L (S fuel) (Fire CorrectionFrame) w = Some w' /\
    ops w' !! a = Some o' /\
    Op.correctionsRemaining o' = Op.correctionsRemaining o - 1 /\
    List.filter isScrollRequest (newEntries w w') = [correctionRequest P L o] /\
    (Op.status o' = stable <-> inPlace P L o = true) /\
    (inPlace P L o = false ->
     operationRef w' = Some a /\
     if 0 <? Op.correctionsRemaining o - 1
     then getSlot CorrectionFrame w' = Some (Op.id o)
     else getSlot CorrectionFrame w' = None /\
          getSlot StabilityTimeout w' = Some (Op.id o)).
Proof.
  intros Hhook Hraf Htimeout Hhandle Hactive Ho Hslot Hs.
  destruct (correction_frame_runs P H L fuel a o w Hhook Hraf Htimeout Hhandle
              Hactive Ho Hslot Hs)
    as (w' & o' & Hstep & Ho' & _ & _ & Hb & Hout).
  exists w', o'. split; [exact Hstep|]. split; [exact Ho'|]. split; [exact Hb|].
  pose proof (correctionRequest_is_request P L o) as Hreq.
  destruct (inPlace P L o).
  - destruct Hout as [Hst Hlog].
    rewrite (newEntries_app w w' (finalNotes P o ++ [correctionRequest P L o]))
      by (rewrite Hlog, <- app_assoc; reflexivity).
    rewrite List.filter_app, finalNotes_no_request. cbn. rewrite Hreq.
    split; [reflexivity|]. split; [tauto | discriminate].
  - destruct Hout as (Hst & Hlog & Href & Hnext).
    rewrite (newEntries_app w w' [correctionRequest P L o] Hlog).
    cbn. rewrite Hreq. split; [reflexivity|].
    split; [split; [congruence | discriminate]|].
    intros _. split; [exact Href|].
    destruct (0 <? Op.correctionsRemaining o - 1); tauto.
Qed.

Lemma correction_frame_scrolls_once_witness :
  exists w',
    step (props 10 None) browser misalignedLayout 1 (Fire CorrectionFrame)
      measuredWorld = Some w' /\
    List.filter isScrollRequest (newEntries measuredWorld w')
    = [EScrollBy vertical 5].
Proof.
  assert (Ho : exists o,
             ops measuredWorld !! 1 = Some o /\
             getSlot CorrectionFrame measuredWorld = Some (Op.id o) /\
             Op.status o <> stable /\
             correctionRequest (props 10 None) misalignedLayout o
             = EScrollBy vertical 5).
  { eexists. split; [vm_compute; reflexivity|].
    repeat split; try (vm_compute; reflexivity). discriminate. }
  destruct Ho as (o & Ho & Hslot & Hs & Hreq).
  destruct (correction_frame_scrolls_once (props 10 None) browser
              misalignedLayout 0 1 o measuredWorld eq_refl eq_refl eq_refl
              eq_refl eq_refl Ho Hslot Hs)
    as (w' & o' & Hstep & _ & _ & Hone & _).
  exists w'. split; [exact Hstep|]. rewrite <- Hreq. exact Hone.
Defined.



(** ** Settling *)

Section Settling.

#[local] Arguments finalizeOperation : simpl never.

Variable P : Params.
Variable H : Host.
Variable L : Layout.
Variable fuel : nat.
Hypothesis Hhook : hookWindow H = true.
Hypothesis Htimeout : canUseTimeout H = true.

Ltac settle_exec Ho facts :=
  repeat (progress (cbn; unfold runCheck, guardActive,
                      rescheduleStabilityCheck, canReschedule,
                      scheduleStabilityCheck, scheduleStabilityCheckImpl,
                      clearStabilityTimeout, setTimeoutHook, clearHook,
                      armSlot;
                    unfold_monad;
                    rewrite ?lookup_alter_eq, ?Ho, ?Hhook, ?Htimeout; facts)).

(** A stability check that finds the target in place counts one stable
    iteration down and re-arms itself; it scrolls nothing. *)
Lemma settling_step (a : Z) (o : Op.t) (k : Z) (w : World) :
  inPlace P L o = true ->
  0 < k ->
  settling a o k w ->
  exists w',
    step P H L (S fuel) (Fire StabilityTimeout) w = Some w' /\
    settling a o (k - 1) w' /\
    log w' = log w /\
    scrollTop w' = scrollTop w /\
    scrollLeft w' = scrollLeft w.
Proof.
  intros Hin Hk (Hactive & Hhandle & Hslot & o' & Ho & Hid & Ht & Hcb & Hst
                 & Hb & Hm & Hp & Hit).
  unfold inPlace in Hin. apply andb_true_iff in Hin as [Hex Hal].
  assert (Hself : (Op.id o =? Op.id o) = true) by apply Z.eqb_refl.
  assert (Hpos : (0 <? k) = true) by (apply Z.ltb_lt; exact Hk).
  destruct w as [store current listening counter s1 s2 s3 s4 s5 s6 handle
                 top0 left0 dom entries];
    cbn in Hactive, Hhandle, Hslot, Ho; subst.
  assert (Hh : (handle =? -1) = false) by (apply Z.eqb_neq; lia).
  cbn [step getSlot stabilityTimeoutSlot]. unfold readWorld.
  unfold seq at 1. unfold modWorld at 1.
  cbn [callbackOf runCallback refs scheduleCorrectionRef
         scheduleStabilityCheckRef].
  settle_exec Ho ltac:(rewrite ?Hid, ?Hself, ?Ht, ?Hex, ?Hal, ?Hm, ?Hp,
                         ?Hpos, ?Hh).
  eexists. split; [reflexivity|].
  unfold settling. cbn. rewrite !lookup_alter_eq, Ho. cbn.
  repeat split; try reflexivity; try lia.
  eexists. split; [reflexivity|]. cbn.
  repeat split; try assumption; reflexivity.
Qed.

(** With no stable iteration left, the check finalizes. *)
Lemma settling_ends (a : Z) (o : Op.t) (k : Z) (w : World) :
  inPlace P L o = true ->
  k <= 0 ->
  Op.status o <> stable ->
  settling a o k w ->
  exists w' o',
    step P H L (S fuel) (Fire StabilityTimeout) w = Some w' /\
    ops w' !! a = Some o' /\
    Op.status o' = stable /\
    Op.correctionsRemaining o' = Op.correctionsRemaining o /\
    log w' = finalNotes P o ++ log w /\
    scrollTop w' = scrollTop w /\
    scrollLeft w' = scrollLeft w.
Proof.
  intros Hin Hk Hs (Hactive & Hhandle & Hslot & o' & Ho & Hid & Ht & Hcb & Hst
                    & Hb & Hm & Hp & Hit).
  unfold inPlace in Hin. apply andb_true_iff in Hin as [Hex Hal].
  assert (Hself : (Op.id o =? Op.id o) = true) by apply Z.eqb_refl.
  assert (Hpos : (0 <? k) = false) by (apply Z.ltb_ge; exact Hk).
  destruct w as [store current listening counter s1 s2 s3 s4 s5 s6 handle
                 top0 left0 dom entries];
    cbn in Hactive, Hhandle, Hslot, Ho; subst.
  cbn [step getSlot stabilityTimeoutSlot]. unfold readWorld.
  unfold seq at 1. unfold modWorld at 1.
  cbn [callbackOf runCallback refs scheduleCorrectionRef
         scheduleStabilityCheckRef].
  settle_exec Ho ltac:(rewrite ?Hid, ?Hself, ?Ht, ?Hex, ?Hal, ?Hm, ?Hp,
                         ?Hpos).
  match goal with
  | |- context [finalizeOperation P H L a ?w2] =>
      destruct (finalizeOperation_runs P H L a w2
                  (Op.set_stabilityTimeoutId None o'))
        as (w' & o2 & Hf & Ho2 & Hs2 & _ & _ & Hb2 & _ & _ & Hlog2 & Htop
            & Hleft & _)
  end.
  { cbn. rewrite lookup_alter_eq, Ho. reflexivity. }
  { cbn. congruence. }
  exists w', o2. split; [exact Hf|]. split; [exact Ho2|].
  split; [exact Hs2|]. cbn in Hb2, Hlog2, Htop, Hleft.
  split; [congruence|]. split; [|split; assumption].
  rewrite Hlog2. unfold finalNotes. cbn. rewrite Ht, Hcb. reflexivity.
Qed.

(** The countdown: [n + 1] checks that find the target in place, with
    [n] stable iterations to go, end in finalization. *)
Lemma settling_run (a : Z) (o : Op.t) (n : nat) (w : World) :
  inPlace P L o = true ->
  Op.status o <> stable ->
  settling a o (Z.of_nat n) w ->
  exists w' o',
    run P H (S fuel) (stabilityTicks L (S n)) w = Some w' /\
    ops w' !! a = Some o' /\
    Op.status o' = stable /\
    Op.correctionsRemaining o' = Op.correctionsRemaining o /\
    log w' = finalNotes P o ++ log w /\
    scrollTop w' = scrollTop w /\
    scrollLeft w' = scrollLeft w.
Proof.
  intros Hin Hs. revert w. induction n as [|n IH]; intros w Hsettling.
  - destruct (settling_ends a o 0 w Hin ltac:(lia) Hs Hsettling)
      as (w' & o' & Hstep & Hrest).
    exists w', o'. split; [|exact Hrest].
    cbn [stabilityTicks repeat run]. unfold seq. rewrite Hstep. reflexivity.
  - destruct (settling_step a o (Z.of_nat (S n)) w Hin ltac:(lia) Hsettling)
      as (w1 & Hstep & Hsettling1 & Hlog1 & Htop1 & Hleft1).
    replace (Z.of_nat (S n) - 1) with (Z.of_nat n) in Hsettling1 by lia.
    destruct (IH w1 Hsettling1)
      as (w' & o' & Hrun & Ho' & Hs' & Hb' & Hlog' & Htop' & Hleft').
    exists w', o'. split; [|repeat split; congruence].
    change (stabilityTicks L (S (S n)))
      with ((L, Fire StabilityTimeout) :: stabilityTicks L (S n)).
    cbn [run]. unfold seq. rewrite Hstep. exact Hrun.
Qed.

(** While stable iterations remain the checks only count. *)
Lemma settling_waits (a : Z) (o : Op.t) (m : nat) :
  forall (k : Z) (w : World),
    inPlace P L o = true ->
    Z.of_nat m <= k ->
    settling a o k w ->
    exists w',
      run P H (S fuel) (stabilityTicks L m) w = Some w' /\
      settling a o (k - Z.of_nat m) w' /\
      log w' = log w /\
      scrollTop w' = scrollTop w /\
      scrollLeft w' = scrollLeft w.
Proof.
  induction m as [|m IH]; intros k w Hin Hk Hsettling.
  - exists w. replace (k - Z.of_nat 0) with k by lia.
    split; [reflexivity|]. split; [exact Hsettling|].
    repeat split; reflexivity.
  - destruct (settling_step a o k w Hin ltac:(lia) Hsettling)
      as (w1 & Hstep & Hsettling1 & Hlog1 & Htop1 & Hleft1).
    destruct (IH (k - 1) w1 Hin ltac:(lia) Hsettling1)
      as (w' & Hrun & Hsettling' & Hlog' & Htop' & Hleft').
    exists w'. replace (k - Z.of_nat (S m)) with (k - 1 - Z.of_nat m) by lia.
    split; [|split; [exact Hsettling'|repeat split; congruence]].
    change (stabilityTicks L (S m))
      with ((L, Fire StabilityTimeout) :: stabilityTicks L m).
    cbn [run]. unfold seq. rewrite Hstep. exact Hrun.
Qed.

(** X6. Settling.  In a browser, take a current operation that is not
    stable, has its target measured, no correction pending, its stability
    timer armed and [n] stable iterations to go, and let every stability
    check find the target in place.  The first [n] checks only count: the
    operation stays current and unfinished, nothing is notified and
    nothing scrolls.  The check after them finalizes: the operation is
    stable, completion is notified once, the correction budget is what it
    was and the scroll position has not moved. *)
Theorem in_place_target_settles (a : Z) (o : Op.t) (n : nat) (w : World) :
  operationRef w = Some a ->
  ops w !! a = Some o ->
  0 < nextHandle w ->
  getSlot StabilityTimeout w = Some (Op.id o) ->
  Op.status o <> stable ->
  Op.hasMeasuredTarget o = true ->
  Op.pendingCorrection o = false ->
  Op.stableIterations o = Z.of_nat n ->
  inPlace P L o = true ->
  (forall m : nat, (m <= n)%nat ->
     exists w' o',
       run P H (S fuel) (stabilityTicks L m) w = Some w' /\
       operationRef w' = Some a /\
       ops w' !! a = Some o' /\
       Op.status o' = Op.status o /\
       Op.stableIterations o' = Z.of_nat n - Z.of_nat m /\
       log w' = log w) /\
  exists w' o',
    run P H (S fuel) (stabilityTicks L (S n)) w = Some w' /\
    ops w' !! a = Some o' /\
    Op.status o' = stable /\
    Op.correctionsRemaining o' = Op.correctionsRemaining o /\
    log w' = finalNotes P o ++ log w /\
    scrollTop w' = scrollTop w /\
    scrollLeft w' = scrollLeft w.
Proof.
  intros Hactive Ho Hhandle Hslot Hs Hm Hp Hit Hin.
  assert (Hsettling : settling a o (Z.of_nat n) w).
  { split; [exact Hactive|]. split; [exact Hhandle|]. split; [exact Hslot|].
    exists o. repeat split; try reflexivity; assumption. }
  split.
  - intros m Hle.
    destruct (settling_waits a o m (Z.of_nat n) w Hin ltac:(lia) Hsettling)
      as (w' & Hrun & (Href & _ & _ & o' & Ho' & _ & _ & _ & Hst' & _ & _ & _
                       & Hit') & Hlog & _).
    exists w', o'. repeat split; assumption.
  - exact (settling_run a o n w Hin Hs Hsettling).
Qed.

End Settling.

Lemma in_place_target_settles_witness :
  exists w' o',
    run (props 0 None) browser 1 (stabilityTicks alignedLayout 3) settlingWorld
    = Some w' /\
    ops w' !! 1 = Some o' /\
    Op.status o' = stable.
Proof.
  assert (Ho : exists o,
             ops settlingWorld !! 1 = Some o /\
             getSlot StabilityTimeout settlingWorld = Some (Op.id o) /\
             Op.status o <> stable /\
             Op.hasMeasuredTarget o = true /\
             Op.pendingCorrection o = false /\
             Op.stableIterations o = Z.of_nat 2 /\
             inPlace (props 0 None) alignedLayout o = true).
  { eexists. split; [vm_compute; reflexivity|].
    repeat split; try (vm_compute; reflexivity). discriminate. }
  destruct Ho as (o & Ho & Hslot & Hs & Hm & Hp & Hit & Hin).
  destruct (in_place_target_settles (props 0 None) browser alignedLayout 0
              eq_refl eq_refl 1 o 2 settlingWorld eq_refl Ho eq_refl Hslot Hs
              Hm Hp Hit Hin)
    as (_ & w' & o' & Hrun & Ho' & Hs' & _).
  exists w', o'. split; [exact Hrun|]. split; assumption.
Defined.





(** X9. The controller and its own scrolling, with the scroll listener
    attached to a mounted scroll view.  After [applyScrollByDelta] has moved
    the scroll view by a non-zero delta for the current operation: when the
    animation-frame hook has a window, a scroll event changes nothing, and
    once the frame of [scheduleProgrammaticScrollReset] has run the next
    scroll event cancels the operation with reason [user]; when the hook has
    no window, the reset has already run inside [applyScrollByDelta], so the
    very next scroll event, the controller's own, cancels the operation with
    reason [user]. *)
Theorem own_scroll_is_not_a_user_scroll (P : Params) (H : Host)
    (L L1 L2 L3 : Layout) (fuel : nat) (a : Z) (o : Op.t) (delta : Q)
    (w : World) :
  operationRef w = Some a ->
  ops w !! a = Some o ->
  domScrollListener w = true ->
  isSome (scrollView L) = true ->
  ~ (delta == 0)%Q ->
  exists w1,
    applyScrollByDelta P H L a delta w = Some w1 /\
    if hookWindow H then
      exists w2 w3,
        step P H L1 fuel ScrollEvent w1 = Some w1 /\
        step P H L2 fuel (Fire ProgrammaticFrame) w1 = Some w2 /\
        newEntries w1 w2 = [] /\
        step P H L3 fuel ScrollEvent w2 = Some w3 /\
        operationRef w3 = None /\
        newEntries w2 w3 =
          [EOperationCancel (Op.targetIndex o) user; ESetFlaggedIndex None]
    else
      exists w3,
        step P H L1 fuel ScrollEvent w1 = Some w3 /\
        operationRef w3 = None /\
        newEntries w1 w3 =
          [EOperationCancel (Op.targetIndex o) user; ESetFlaggedIndex None].
Proof.
  intros Hactive Ho Hdom Hview Hdelta.
  apply Qeq_bool_false in Hdelta.
  assert (Hmove : exists w1 o1,
             applyScrollByDelta P H L a delta w = Some w1 /\
             operationRef w1 = Some a /\ ops w1 !! a = Some o1 /\
             Op.isProgrammaticScroll o1 = hookWindow H /\
             Op.id o1 = Op.id o /\
             Op.targetIndex o1 = Op.targetIndex o /\
             (hookWindow H = true ->
              getSlot ProgrammaticFrame w1 = Some (Op.id o)) /\
             domScrollListener w1 = true).
  { assert (Hself : (Op.id o =? Op.id o) = true) by apply Z.eqb_refl.
    destruct w as [store current listening counter s1 s2 s3 s4 s5 s6 handle
                   top0 left0 dom entries];
      cbn in Hactive, Ho, Hdom; subst current dom.
    destruct (scrollView L) as [view|] eqn:Hv; [clear Hview | discriminate].
    unfold applyScrollByDelta, scheduleProgrammaticScrollReset,
      requestFrameHook, armSlot, programmaticReset, guardActive.
    unfold_monad. rewrite Hv, Hdelta.
    destruct (hookWindow H); destruct (axis P);
      repeat (progress (cbn; rewrite ?lookup_alter_eq, ?Ho, ?Hself));
      eexists; eexists; (split; [reflexivity|]);
      repeat (progress (cbn; rewrite ?lookup_alter_eq, ?Ho));
      repeat split; try reflexivity; discriminate. }
  destruct Hmove as (w1 & o1 & Hw1 & Href1 & Ho1 & Hprog1 & Hid1 & Ht1 & Hslot1
                     & Hdom1).
  exists w1. split; [exact Hw1|].
  destruct (hookWindow H) eqn:Hhook.
  - specialize (Hslot1 eq_refl).
    assert (Hreset : exists w2 o2,
               step P H L2 fuel (Fire ProgrammaticFrame) w1 = Some w2 /\
               operationRef w2 = Some a /\ ops w2 !! a = Some o2 /\
               Op.isProgrammaticScroll o2 = false /\
               Op.targetIndex o2 = Op.targetIndex o /\
               domScrollListener w2 = true /\ log w2 = log w1).
    { destruct w1 as [store current listening counter s1 s2 s3 s4 s5 s6 handle
                      top0 left0 dom entries];
        cbn in Href1, Ho1, Hslot1, Hdom1; subst current dom s4.
      cbn [step]. unfold runCallback, callbackOf, programmaticReset, guardActive.
      unfold_monad. cbn. rewrite ?Ho1. cbn. rewrite Hid1, Z.eqb_refl. cbn.
      rewrite ?Ho1. cbn.
      eexists. eexists. split; [reflexivity|]. cbn.
      rewrite ?lookup_alter_eq, ?Ho1. cbn. repeat split; try reflexivity.
      exact Ht1. }
    destruct Hreset as (w2 & o2 & Hfire & Href2 & Ho2 & Hprog2 & Ht2 & Hdom2
                        & Hlog2).
    destruct (clearOperation_active L3 (Some user) w2 a o2 Href2 Ho2)
      as (w3 & o3 & Hclear & Href3 & _ & _ & Hlog3 & _).
    exists w2, w3.
    split.
    { cbn [step]. unfold scrollListener. unfold readWorld at 1. rewrite Hdom1.
      unfold readWorld at 1. rewrite Href1. unfold withOp. rewrite Ho1, Hprog1.
      reflexivity. }
    split; [exact Hfire|].
    split; [apply (newEntries_app w1 w2 []); exact Hlog2|].
    split.
    { cbn [step]. unfold scrollListener. unfold readWorld at 1. rewrite Hdom2.
      unfold readWorld at 1. rewrite Href2. unfold withOp. rewrite Ho2, Hprog2.
      exact Hclear. }
    split; [exact Href3|].
    rewrite <- Ht2. apply (newEntries_app w2 w3 [_; _]). exact Hlog3.
  - destruct (clearOperation_active L1 (Some user) w1 a o1 Href1 Ho1)
      as (w3 & o3 & Hclear & Href3 & _ & _ & Hlog3 & _).
    exists w3.
    split.
    { cbn [step]. unfold scrollListener. unfold readWorld at 1. rewrite Hdom1.
      unfold readWorld at 1. rewrite Href1. unfold withOp. rewrite Ho1, Hprog1.
      exact Hclear. }
    split; [exact Href3|].
    rewrite <- Ht1. apply (newEntries_app w1 w3 [_; _]). exact Hlog3.
Qed.

Lemma own_scroll_is_not_a_user_scroll_witness :
  exists w1 w2 w3,
    applyScrollByDelta (props 10 None) browser alignedLayout 1 10 measuredWorld
    = Some w1 /\
    step (props 10 None) browser alignedLayout 1 ScrollEvent w1 = Some w1 /\
    step (props 10 None) browser alignedLayout 1 (Fire ProgrammaticFrame) w1
    = Some w2 /\
    step (props 10 None) browser alignedLayout 1 ScrollEvent w2 = Some w3 /\
    operationRef w3 = None.
Proof.
  assert (Ho : exists o, ops measuredWorld !! 1 = Some o).
  { eexists. vm_compute. reflexivity. }
  destruct Ho as (o & Ho).
  destruct (own_scroll_is_not_a_user_scroll (props 10 None) browser
              alignedLayout alignedLayout alignedLayout alignedLayout 1 1 o 10
              measuredWorld eq_refl Ho eq_refl eq_refl)
    as (w1 & Hmove & w2 & w3 & Hown & Hreset & _ & Huser & Href & _).
  { vm_compute. discriminate. }
  exists w1, w2, w3. repeat split; assumption.
Defined.

(** ** Measurements the controller ignores *)

(** X10. A measurement reported while no operation is current, or for an
    index past the target of an operation that is not stable yet, or,
    once the operation is stable, one that needs no compensation (no
    [maintainPosition], an index at or past the target, or a zero delta)
    changes nothing: no field, no timer, no scroll, no notification. *)
Theorem irrelevant_measurement_is_ignored (P : Params) (H : Host) (L : Layout)
    (fuel : nat) (index : Z) (size delta : Q) (w : World) :
  irrelevantMeasurement w index delta ->
  step P H L fuel (HandleItemMeasured index size delta) w = Some w.
Proof.
  unfold irrelevantMeasurement. intros Hirr.
  cbn [step]. unfold handleItemMeasured, readWorld.
  destruct (operationRef w) as [a|]; [|reflexivity].
  destruct Hirr as (active & Ho & Hcase).
  unfold withOp. rewrite Ho.
  destruct (Status_eqb (Op.status active) stable).
  - destruct Hcase as [Hm | [Ht | Hd]].
    + rewrite Hm. reflexivity.
    + replace (index <? Op.targetIndex active) with false
        by (symmetry; apply Z.ltb_ge; lia).
      rewrite andb_false_r. reflexivity.
    + apply Qeq_bool_iff in Hd. rewrite Hd. cbn. rewrite andb_false_r. reflexivity.
  - apply Z.ltb_lt in Hcase. rewrite Hcase. reflexivity.
Qed.

Lemma irrelevant_measurement_is_ignored_witness :
  step (props 10 None) browser alignedLayout 1 (HandleItemMeasured 8 40 12)
    measuredWorld = Some measuredWorld.
Proof.
  apply irrelevant_measurement_is_ignored.
  vm_compute. eexists. split; reflexivity.
Defined.


(** ** Measurements of the target *)

(** What [performScroll] does, in a browser. *)
Lemma performScroll_runs (P : Params) (H : Host) (L : Layout) (a : Z)
    (behavior : ScrollBehavior) (o : Op.t) (w : World) :
  hookWindow H = true ->
  ops w !! a = Some o ->
  exists w1 (direct : bool),
    performScroll P H L a behavior w = Some w1 /\
    ops w1 !! a
    = Some (if direct then Op.set_isProgrammaticScroll true o else o) /\
    log w1 = scrollRequest P L (Op.targetIndex o) behavior :: log w /\
    operationRef w1 = operationRef w /\
    scrollListenerRef w1 = scrollListenerRef w /\
    getSlot CorrectionFrame w1 = getSlot CorrectionFrame w /\
    getSlot StabilityTimeout w1 = getSlot StabilityTimeout w /\
    nextHandle w <= nextHandle w1.
Proof.
  intros Hhook Ho.
  destruct w as [store current listening counter s1 s2 s3 s4 s5 s6 handle
                 top0 left0 dom entries]; cbn in Ho.
  unfold performScroll, scrollRequest, directOffset.
  destruct (reversed P), (axis P), (getOffsetForIndex P) as [f|];
    try destruct (f (Op.targetIndex o)) eqn:Hf;
    destruct (scrollView L);
    repeat (progress (cbn; unfold scheduleProgrammaticScrollReset,
                        requestFrameHook, armSlot; unfold_monad;
                      rewrite ?lookup_alter_eq, ?Ho, ?Hhook, ?Hf)).
  all: eexists;
    first [ exists false; split; [reflexivity|]; cbn; rewrite ?Ho;
            split; [reflexivity|]; repeat split; try reflexivity; lia
          | exists true; split; [reflexivity|]; cbn; rewrite ?lookup_alter_eq, ?Ho;
            split; [reflexivity|]; repeat split; try reflexivity; lia ].
Qed.

Section TargetMeasured.

#[local] Arguments performScroll : simpl never.
#[local] Arguments newEntries : simpl never.

(** X11. In a browser, a measurement of the target of a current operation
    that is not stable yet.  The first one re-aligns: it issues one instant
    scroll request for the target, the one [performScroll] makes; every
    later one issues none.  Either way the target counts as measured and
    initially aligned from then on, the operation stays current with its
    status and its correction budget, and the stability timer is armed.
    When the reported delta reaches the tolerance and budget remains, a
    correction is pending and the count of stable iterations starts
    over. *)
Theorem target_measurement_aligns_once (P : Params) (H : Host) (L : Layout)
    (fuel : nat) (a : Z) (o : Op.t) (size delta : Q) (w : World) :
  hookWindow H = true -> canUseAnimationFrame H = true ->
  canUseTimeout H = true -> 0 < nextHandle w ->
  operationRef w = Some a ->
  ops w !! a = Some o ->
  Op.status o <> stable ->
  exists w' o',
    step P H L (S fuel) (HandleItemMeasured (Op.targetIndex o) size delta) w
    = Some w' /\
    operationRef w' = Some a /\
    ops w' !! a = Some o' /\
    Op.hasMeasuredTarget o' = true /\
    Op.initialAlignmentPerformed o' = true /\
    Op.status o' = Op.status o /\
    Op.correctionsRemaining o' = Op.correctionsRemaining o /\
    newEntries w w'
    = (if Op.initialAlignmentPerformed o then []
       else [scrollRequest P L (Op.targetIndex o) instant]) /\
    getSlot StabilityTimeout w' = Some (Op.id o) /\
    (Qle_bool VIEWPORT_TOLERANCE (Qabs delta) = true ->
     0 < Op.correctionsRemaining o ->
     Op.pendingCorrection o' = true /\
     Op.stableIterations o' = DEFAULT_CORRECTION_SETTLE).
Proof.
  intros Hhook Hraf Htimeout Hhandle Hactive Ho Hs.
  apply Status_eqb_not_stable in Hs.
  assert (Hlt : (Op.targetIndex o <? Op.targetIndex o) = false)
    by apply Z.ltb_irrefl.
  assert (Heq : (Op.targetIndex o =? Op.targetIndex o) = true)
    by apply Z.eqb_refl.
  cbn [step]. unfold handleItemMeasured. unfold readWorld at 1.
  rewrite Hactive, (withOp_hit _ _ _ _ Ho), Hs, Hlt, Heq. cbn [andb].
  match goal with
  | |- context [newEntries w _ = ?new] =>
      assert (Hfirst : exists w1 o1,
                 (modOp a (Op.set_hasMeasuredTarget true) >>
                  (if negb (Op.initialAlignmentPerformed o)
                   then performScroll P H L a instant >>
                        modOp a (Op.set_initialAlignmentPerformed true)
                   else ret)) w = Some w1 /\
                 ops w1 !! a = Some o1 /\
                 (exists direct : bool,
                    o1 = Op.set_initialAlignmentPerformed true
                           (Op.set_hasMeasuredTarget true
                              (if direct
                               then Op.set_isProgrammaticScroll true o
                               else o))) /\
                 log w1 = new ++ log w /\
                 operationRef w1 = Some a /\
                 0 < nextHandle w1)
  end.
  { unfold seq at 1. unfold modOp at 1. cbv beta iota.
    destruct (Op.initialAlignmentPerformed o) eqn:Hinit; cbn [negb].
    - unfold ret. eexists. eexists. split; [reflexivity|].
      destruct w; cbn in *. rewrite lookup_alter_eq, Ho. cbn.
      split; [reflexivity|].
      split; [exists false; destruct o; cbn in *; subst; reflexivity|].
      repeat split; try reflexivity; assumption.
    - match goal with
      | |- context [(performScroll P H L a instant >> _) ?w0] =>
          destruct (performScroll_runs P H L a instant
                      (Op.set_hasMeasuredTarget true o) w0 Hhook)
            as (w1 & direct & Hps & Ho1 & Hlog1 & Href1 & _ & _ & _ & Hh1)
      end.
      { destruct w; cbn in *. rewrite lookup_alter_eq, Ho. reflexivity. }
      unfold seq. rewrite Hps. unfold modOp.
      eexists. eexists. split; [reflexivity|].
      destruct w1, w; cbn in *. rewrite lookup_alter_eq, Ho1. cbn.
      split; [reflexivity|].
      split; [exists direct; destruct direct; reflexivity|].
      repeat split; try assumption; try lia. congruence. }
  destruct Hfirst as (w1 & o1 & Hrun1 & Ho1 & (direct & Hdirect) & Hlog1
                      & Href1 & Hhandle1).
  rewrite (seq_continue2 _ _ _ w w1 Hrun1).
  clear Hrun1.
  destruct w1 as [store current listening counter s1 s2 s3 s4 s5 s6 handle
                  top0 left0 dom entries];
    cbn in Ho1, Hlog1, Href1, Hhandle1; subst current entries.
  assert (Hh1 : (handle =? -1) = false) by (apply Z.eqb_neq; lia).
  assert (Hh2 : (handle + 1 =? -1) = false) by (apply Z.eqb_neq; lia).
  assert (Hh3 : (handle + 1 + 1 =? -1) = false) by (apply Z.eqb_neq; lia).
  assert (Hm : Op.maintainPosition o1 = Op.maintainPosition o)
    by (subst o1; destruct direct; reflexivity).
  assert (Hb : Op.correctionsRemaining o1 = Op.correctionsRemaining o)
    by (subst o1; destruct direct; reflexivity).
  assert (Hst : Op.status o1 = Op.status o)
    by (subst o1; destruct direct; reflexivity).
  assert (Hid : Op.id o1 = Op.id o)
    by (subst o1; destruct direct; reflexivity).
  assert (Hmt : Op.hasMeasuredTarget o1 = true)
    by (subst o1; destruct direct; reflexivity).
  assert (Hia : Op.initialAlignmentPerformed o1 = true)
    by (subst o1; destruct direct; reflexivity).
  clear Hdirect. rewrite <- Hm, <- Hb, <- Hst, <- Hid.
  cbn [refs scheduleCorrectionRef scheduleStabilityCheckRef
         scheduleAnchorAdjustment].
  assert (Hpos : (Op.correctionsRemaining o1 <=? 0)
                 = negb (0 <? Op.correctionsRemaining o1))
    by (destruct (Z.ltb_spec 0 (Op.correctionsRemaining o1)),
                 (Z.leb_spec (Op.correctionsRemaining o1) 0);
        try reflexivity; lia).
  destruct (Op.maintainPosition o1) eqn:Hmaintain;
    [destruct (Qltb (Qabs (Op.pendingAnchorDelta o1 + 0)) ANCHOR_DELTA_EPSILON)
       eqn:Hsmall;
     destruct (Op.anchorFrameId o1) eqn:Hframe|];
    destruct (Qle_bool VIEWPORT_TOLERANCE (Qabs delta)) eqn:Hdelta;
    destruct (0 <? Op.correctionsRemaining o1) eqn:Hbudget;
    destruct (Op.pendingCorrection o1) eqn:Hpending;
    destruct (Op.stabilityTimeoutId o1) eqn:Hstab;
    repeat (progress (cbn; unfold_anchor; unfold_start; unfold_monad;
                      rewrite ?lookup_alter_eq, ?Ho1, ?Hhook, ?Hraf,
                        ?Htimeout, ?Hh1, ?Hh2, ?Hh3, ?Hmaintain, ?Hsmall,
                        ?Hframe, ?Hdelta, ?Hbudget, ?Hpending, ?Hstab, ?Hpos)).
  all: eexists; eexists; (split; [reflexivity|]).
  all: repeat (progress (cbn; rewrite ?lookup_alter_eq, ?Ho1)).
  all: split; [reflexivity|]; split; [reflexivity|].
  all: cbn; repeat split; try assumption; try reflexivity.
  all: try congruence.
  all: try (apply Z.ltb_ge in Hbudget; lia).
  all: apply newEntries_app; reflexivity.
Qed.

End TargetMeasured.

Lemma target_measurement_aligns_once_witness :
  exists w',
    step (props 10 None) browser alignedLayout 1 (HandleItemMeasured 5 100 100)
      startedWorld = Some w' /\
    newEntries startedWorld w' = [EScrollToItemDynamic 5 instant].
Proof.
  assert (Ho : exists o,
             ops startedWorld !! 1 = Some o /\
             Op.status o <> stable /\
             Op.targetIndex o = 5 /\
             Op.initialAlignmentPerformed o = false).
  { eexists. split; [vm_compute; reflexivity|].
    split; [discriminate|]. split; reflexivity. }
  destruct Ho as (o & Ho & Hs & Ht & Hinit).
  destruct (target_measurement_aligns_once (props 10 None) browser
              alignedLayout 0 1 o 100 100 startedWorld eq_refl eq_refl eq_refl
              eq_refl eq_refl Ho Hs)
    as (w' & o' & Hstep & _ & _ & _ & _ & _ & _ & Hnew & _).
  rewrite Ht in Hstep. rewrite Hinit, Ht in Hnew.
  exists w'. split; [exact Hstep | exact Hnew].
Defined.

(** ** The scroll view and its controller *)

Lemma deliver_app (p : View.Props) (new1 new2 : list Effect) (v : View.State) :
  View.deliver p (new2 ++ new1) v = View.deliver p new2 (View.deliver p new1 v).
Proof. unfold View.deliver. rewrite rev_app_distr, fold_left_app. reflexivity. Qed.

Lemma notify_controller (p : View.Props) (e : Effect) (v : View.State) :
  View.controller (View.notify p e v) = View.controller v.
Proof.
  destruct e; cbn; try reflexivity;
    unfold View.handleOperationComplete, View.resolveScrollCallback,
      View.setFlaggedIndex;
    repeat match goal with
           | |- context [match ?x with _ => _ end] => destruct x
           end; reflexivity.
Qed.

Lemma deliver_controller (p : View.Props) (new : list Effect) (v : View.State) :
  View.controller (View.deliver p new v) = View.controller v.
Proof.
  unfold View.deliver. generalize (rev new). clear new. intros l. revert v.
  induction l as [|e l IH]; intros v; [reflexivity|].
  cbn. rewrite IH. apply notify_controller.
Qed.

Lemma notify_flag (p : View.Props) (e : Effect) (v : View.State) :
  View.isScrollToActiveRef (View.notify p e v) =
  if isEnding e then false else View.isScrollToActiveRef v.
Proof.
  destruct e; cbn; try reflexivity;
    unfold View.handleOperationComplete, View.resolveScrollCallback,
      View.setFlaggedIndex;
    repeat match goal with
           | |- context [match ?x with _ => _ end] => destruct x
           end; reflexivity.
Qed.

(** Delivering notifications leaves the flag up unless one of them is an
    ending. *)
Lemma deliver_flag (p : View.Props) (new : list Effect) (v : View.State) :
  existsb isEnding new = false ->
  View.isScrollToActiveRef (View.deliver p new v) = View.isScrollToActiveRef v.
Proof.
  unfold View.deliver. rewrite <- (existsb_rev isEnding new).
  generalize (rev new). clear new. intros l. revert v.
  induction l as [|e l IH]; intros v Hq; [reflexivity|].
  cbn in *. apply orb_false_iff in Hq as [Hq1 Hq2].
  rewrite (IH _ Hq2), notify_flag, Hq1. reflexivity.
Qed.

Lemma drive_compensationOff (p : View.Props) (H : Host) (L : Layout)
    (fuel : nat) (e : Event) (v v' : View.State) :
  (operationRef (View.controller v) = None ->
   (exists index behavior callback, e = Start index behavior callback) ->
   View.isScrollToActiveRef v = true) ->
  compensationOff v ->
  View.drive p H L fuel e v = Some v' ->
  compensationOff v'.
Proof.
  unfold View.drive, compensationOff, isActive. intros Hstart Hinv Hdrive.
  destruct (step (View.controllerParams p) H L fuel e (View.controller v))
    as [w'|] eqn:Hstep; [|discriminate].
  injection Hdrive as <-.
  destruct (step_endsIdle _ _ _ _ _ _ _ Hstep) as (new & E & Hend & Hcur).
  rewrite (newEntries_app _ _ new E), deliver_controller. cbn.
  intros Hactive.
  destruct (existsb isEnding new) eqn:Hq.
  { rewrite (Hend eq_refl) in Hactive. discriminate. }
  rewrite (deliver_flag _ _ _ Hq). cbn.
  destruct Hcur as [Hcur|[Hcur|Hcur]].
  - rewrite Hcur in Hactive. discriminate.
  - apply Hinv. rewrite <- Hcur. exact Hactive.
  - destruct (operationRef (View.controller v)) eqn:Hw.
    + apply Hinv. reflexivity.
    + apply Hstart; [reflexivity | exact Hcur].
Qed.

Lemma resolveScrollCallback_frame (index : Z) (v : View.State) :
  View.controller (View.resolveScrollCallback index v) = View.controller v /\
  View.isScrollToActiveRef (View.resolveScrollCallback index v)
  = View.isScrollToActiveRef v.
Proof.
  unfold View.resolveScrollCallback. destruct (View.scrollCallbackRef v);
    split; reflexivity.
Qed.

Lemma step_compensationOff (p : View.Props) (H : Host) (L : Layout)
    (fuel : nat) (e : View.Event) (v v' : View.State) :
  compensationOff v ->
  View.step p H L fuel e v = Some v' ->
  compensationOff v'.
Proof.
  intros Hinv Hstep.
  assert (Hother : forall e0 v0 v1,
             (forall i b c, e0 <> Start i b c) ->
             compensationOff v0 ->
             View.drive p H L fuel e0 v0 = Some v1 -> compensationOff v1).
  { intros e0 v0 v1 Hns. apply drive_compensationOff.
    intros _ (i & b & c & ->). exfalso. eapply Hns. reflexivity. }
  destruct e as [index behavior callback|position behavior index callback
                |index size delta|index| | |s| | ]; cbn [View.step] in Hstep.
  - unfold View.scrollTo in Hstep.
    eapply drive_compensationOff; [| |exact Hstep].
    + intros _ _. reflexivity.
    + intros _. reflexivity.
  - unfold View.scrollToPosition in Hstep.
    match type of Hstep with
    | match View.drive _ _ _ _ _ ?v0 with _ => _ end = _ =>
        destruct (View.drive p H L fuel Cancel v0) as [v1|] eqn:Hdrive;
        [|discriminate];
        assert (Hinv1 : compensationOff v1)
          by (eapply (Hother Cancel v0 v1); [discriminate | | exact Hdrive];
              destruct callback; exact Hinv)
    end.
    injection Hstep as <-. unfold compensationOff, View.setFlaggedIndex in *.
    destruct (View.virtualizer p); [|exact Hinv1].
    destruct index, (isSome (scrollView L)); cbn; exact Hinv1.
  - unfold View.handleItemMeasured in Hstep. cbn in Hstep.
    destruct (View.wired v).
    + eapply Hother; [| |exact Hstep]; [discriminate | exact Hinv].
    + injection Hstep as <-. exact Hinv.
  - unfold View.handleRenderedIndex in Hstep.
    destruct (View.wired v).
    + destruct (View.drive p H L fuel (HandleRendered index) v) as [v1|] eqn:Hdrive;
        [|discriminate].
      assert (Hinv1 : compensationOff v1)
        by (eapply Hother; [| |exact Hdrive]; [discriminate | exact Hinv]).
      injection Hstep as <-.
      destruct (handleRenderedResult (View.controller v) index); [exact Hinv1|].
      unfold compensationOff.
      destruct (resolveScrollCallback_frame index v1) as [-> ->]. exact Hinv1.
    + injection Hstep as <-. unfold compensationOff.
      destruct (resolveScrollCallback_frame index v) as [-> ->]. exact Hinv.
  - injection Hstep as <-. exact Hinv.
  - injection Hstep as <-. exact Hinv.
  - eapply Hother; [| |exact Hstep]; [discriminate | exact Hinv].
  - eapply Hother; [| |exact Hstep]; [discriminate | exact Hinv].
  - eapply Hother; [| |exact Hstep]; [discriminate | exact Hinv].
Qed.

(** X12. In every state the scroll view reaches, the measuring hook's own
    scroll compensation is switched off ([isScrollToActiveRef] is true) as
    long as the controller has a current operation. *)
Theorem compensation_is_off_while_active (p : View.Props) (H : Host)
    (fuel : nat) (es : list (Layout * View.Event)) (v : View.State) :
  View.run p H fuel es View.initial = Some v ->
  isActive (View.controller v) = true ->
  View.isScrollToActiveRef v = true.
Proof.
  assert (Hrun : forall es v0 v1,
             compensationOff v0 -> View.run p H fuel es v0 = Some v1 ->
             compensationOff v1).
  { clear es v. induction es as [|[L e] es IH]; intros v0 v1 Hinv Hrun.
    - injection Hrun as <-. exact Hinv.
    - cbn [View.run] in Hrun.
      destruct (View.step p H L fuel e v0) as [v2|] eqn:Hstep; [|discriminate].
      eapply IH; [|exact Hrun]. eapply step_compensationOff; eassumption. }
  intros Hes. apply (Hrun es View.initial v); [|exact Hes].
  intros Hactive. discriminate.
Qed.

Lemma compensation_is_off_while_active_witness :
  View.isScrollToActiveRef
    (viewAfter [(alignedLayout, View.ScrollTo 5 instant None)]) = true.
Proof.
  apply (compensation_is_off_while_active viewProps browser 1
           [(alignedLayout, View.ScrollTo 5 instant None)]);
    vm_compute; reflexivity.
Defined.


(** ** Callbacks of the imperative handle *)

Lemma aligned_exists (P : Params) (L : Layout) (index : Z) :
  aligned (evaluateTargetAlignment P L index) = true ->
  elementExists (evaluateTargetAlignment P L index) = true.
Proof.
  unfold evaluateTargetAlignment.
  destruct (scrollView L), (measured L index); cbn; congruence.
Qed.

(** The scroll view has no handler for the scroll requests of the
    controller: they go to the DOM. *)
Lemma notify_request (p : View.Props) (e : Effect) (v : View.State) :
  isScrollRequest e = true -> View.notify p e v = v.
Proof. destruct e; try discriminate; reflexivity. Qed.

(** X13. [scrollTo] with a callback, in a browser, on a scroll view that has
    done nothing yet: when the correction frame that follows finds the
    target in place, the operation completes and the callback is called
    twice with the target index, once as the callback of the operation and
    once more when the scroll view handles [onOperationComplete]. *)
Theorem scrollTo_callback_is_called_twice (p : View.Props) (H : Host)
    (fuel : nat) (L L' : Layout) (index : Z) (behavior : ScrollBehavior)
    (callback : Z) :
  hookWindow H = true -> canUseAnimationFrame H = true ->
  canUseTimeout H = true ->
  aligned (evaluateTargetAlignment (View.controllerParams p) L' index) = true ->
  exists v,
    View.run p H (S fuel)
      [(L, View.ScrollTo index behavior (Some callback));
       (L', View.Timer CorrectionFrame)] View.initial = Some v /\
    View.invocations v = [(callback, index); (callback, index)] /\
    View.scrollCallbackRef v = None.
Proof.
  intros Hhook Hraf Htimeout Haligned.
  set (P := View.controllerParams p) in *.
  destruct (start_launches P H L fuel index behavior true initialWorld
              Hhook Hraf Htimeout ltac:(cbn; lia) eq_refl)
    as (w1 & o1 & Hstart & Href1 & _ & Ho1 & Hlater & _ & Hst1 & _ & _ & _ & _
        & _ & _ & _ & _ & Hlog1 & _ & Hslot1 & _ & Hh1).
  destruct Hlater as (Hid1 & Ht1 & _ & Hcb1 & _).
  cbn in Href1, Ho1, Hid1, Ht1, Hcb1, Hlog1, Hslot1, Hh1.
  assert (Hs1 : Op.status o1 <> stable) by (rewrite Hst1; discriminate).
  assert (Hslot1' : getSlot CorrectionFrame w1 = Some (Op.id o1))
    by (rewrite Hid1; exact Hslot1).
  destruct (correction_frame_runs P H L' fuel 1 o1 w1 Hhook Hraf Htimeout
              ltac:(lia) Href1 Ho1 Hslot1' Hs1)
    as (w2 & o2 & Hfire & _ & _ & _ & _ & Hout).
  assert (Hin : inPlace P L' o1 = true).
  { unfold inPlace. rewrite Ht1, Haligned, (aligned_exists _ _ _ Haligned).
    reflexivity. }
  rewrite Hin in Hout. destruct Hout as [_ Hlog2].
  cbn [View.run View.step]. unfold View.scrollTo, View.drive.
  cbn [View.controller View.set_operationCallback View.set_isScrollToActiveRef
         View.set_scrollCallbackRef View.initial isSome].
  fold P. cbn [step]. rewrite Hstart.
  rewrite (newEntries_app initialWorld w1
             [scrollRequest P L index behavior; ESetFlaggedIndex (Some index)]
             Hlog1).
  match goal with
  | |- context [View.deliver p ?new ?v0] =>
      set (v1 := View.deliver p new v0)
  end.
  assert (Hv1 : View.controller v1 = w1 /\
                View.scrollCallbackRef v1 = Some callback /\
                View.operationCallback v1 = Some callback /\
                View.invocations v1 = []).
  { subst v1. unfold View.deliver, scrollRequest. cbn.
    unfold View.setFlaggedIndex.
    destruct (directOffset P L index), (View.virtualizer p); cbn;
      repeat split. }
  destruct Hv1 as (Hc1 & Hsc1 & Hoc1 & Hinv1).
  rewrite Hc1. cbn [step] in Hfire. rewrite Hfire.
  rewrite (newEntries_app w1 w2
             (finalNotes P o1 ++ [correctionRequest P L' o1]));
    [|rewrite Hlog2, <- app_assoc; reflexivity].
  eexists. split; [reflexivity|].
  rewrite deliver_app.
  replace (View.deliver p [correctionRequest P L' o1] (View.set_controller w2 v1))
    with (View.set_controller w2 v1)
    by (unfold View.deliver; cbn;
        rewrite (notify_request _ _ _ (correctionRequest_is_request P L' o1));
        reflexivity).
  unfold finalNotes, View.deliver. rewrite Ht1, Hcb1.
  unfold View.invocations in *.
  destruct v1 as [ref1 flag1 set1 wired1 cb1 c1 calls1].
  cbn in Hsc1, Hoc1, Hinv1. subst ref1 cb1.
  destruct (View.virtualizer p) eqn:Hv, (maintainPosition P); cbn;
    unfold View.setFlaggedIndex; rewrite ?Hv; cbn;
    rewrite ?flat_map_app, ?Hinv1; cbn; split; reflexivity.
Qed.

Lemma scrollTo_callback_is_called_twice_witness :
  exists v,
    View.run viewProps browser 1
      [(alignedLayout, View.ScrollTo 5 instant (Some 9));
       (alignedLayout, View.Timer CorrectionFrame)] View.initial = Some v /\
    View.invocations v = [(9, 5); (9, 5)].
Proof.
  assert (Hal : aligned (evaluateTargetAlignment (View.controllerParams viewProps)
                           alignedLayout 5) = true).
  { vm_compute. reflexivity. }
  destruct (scrollTo_callback_is_called_twice viewProps browser 0 alignedLayout
              alignedLayout 5 instant 9 eq_refl eq_refl eq_refl Hal)
    as (v & Hrun & Hinv & _).
  exists v. split; assumption.
Defined.

Lemma drive_idle (p : View.Props) (H : Host) (L : Layout) (fuel : nat)
    (e : Event) (v : View.State) :
  operationRef (View.controller v) = None ->
  (e = Cancel \/ exists index, e = HandleRendered index) ->
  View.drive p H L fuel e v = Some v.
Proof.
  intros Hidle He. unfold View.drive.
  assert (Hstep : step (View.controllerParams p) H L fuel e (View.controller v)
                  = Some (View.controller v)).
  { destruct He as [->|[index ->]]; cbn [step].
    - unfold cancel, clearOperation, readWorld. rewrite Hidle. reflexivity.
    - unfold handleRenderedEffect, readWorld. rewrite Hidle. reflexivity. }
  rewrite Hstep. unfold newEntries. rewrite Nat.sub_diag. cbn.
  destruct v; reflexivity.
Qed.

(** X14. [scrollToPosition] with a callback.  While the controller is idle the
    callback is kept for the next rendered index.  While a [scrollTo]
    operation is running, the cancellation that [scrollToPosition] begins
    with makes the scroll view drop the callback it has just stored: the
    callback is never called. *)
Theorem scrollToPosition_callback (p : View.Props) (H : Host) (L : Layout)
    (fuel : nat) (position : Q) (behavior : ScrollBehavior) (index : option Z)
    (callback : Z) (v : View.State) :
  (forall a, operationRef (View.controller v) = Some a ->
             exists o, ops (View.controller v) !! a = Some o) ->
  exists v',
    View.step p H L fuel
      (View.ScrollToPosition position behavior index (Some callback)) v
    = Some v' /\
    View.invocations v' = View.invocations v /\
    isActive (View.controller v') = false /\
    View.scrollCallbackRef v' =
      (if isActive (View.controller v) then None else Some callback).
Proof.
  intros Hstore. cbn [View.step]. unfold View.scrollToPosition.
  set (v0 := View.set_scrollCallbackRef (Some callback) v).
  assert (Hfinish : forall v1,
             exists v',
               (if View.virtualizer p
                then
                  let v2 := match index with
                            | Some i => View.setFlaggedIndex p (Some i) v1
                            | None => v1
                            end in
                  if isSome (scrollView L)
                  then
                    let w := View.controller v2 in
                    View.call
                      (View.ScrollViewTo (View.axis p) position behavior)
                      (View.set_controller
                         (set_scroll
                            (View.domScrollTo p (View.axis p) position behavior
                               (scrollTop w, scrollLeft w)) w) v2)
                  else v2
                else v1) = v' /\
               View.invocations v' = View.invocations v1 /\
               operationRef (View.controller v') = operationRef (View.controller v1) /\
               View.scrollCallbackRef v' = View.scrollCallbackRef v1).
  { intros v1. eexists. split; [reflexivity|].
    unfold View.setFlaggedIndex.
    destruct (View.virtualizer p); [|repeat split].
    destruct index, (isSome (scrollView L)); unfold View.invocations; cbn;
      rewrite ?flat_map_app; cbn; rewrite ?app_nil_r; repeat split. }
  destruct (operationRef (View.controller v)) as [a|] eqn:Hactive.
  - destruct (Hstore a eq_refl) as (o & Ho).
    destruct (clearOperation_active L (Some cancelled) (View.controller v0) a o
                Hactive Ho)
      as (w' & o' & Hc & Href & _ & _ & Hlog & _).
    unfold View.drive. cbn [step]. unfold cancel. rewrite Hc.
    rewrite (newEntries_app (View.controller v0) w'
               ([EOperationCancel (Op.targetIndex o) cancelled]
                ++ [ESetFlaggedIndex None]) Hlog).
    destruct (Hfinish (View.deliver p
                         ([EOperationCancel (Op.targetIndex o) cancelled]
                          ++ [ESetFlaggedIndex None])
                         (View.set_controller w' v0)))
      as (v' & Hv' & Hinv & Hr & Hcb).
    exists v'. split; [rewrite <- Hv'; reflexivity|].
    unfold isActive. rewrite Hinv, Hr, Hcb, deliver_controller, Hactive.
    unfold View.deliver, View.invocations. cbn.
    unfold View.setFlaggedIndex.
    destruct (View.virtualizer p); cbn;
      rewrite ?flat_map_app; cbn; rewrite ?app_nil_r, ?Href; repeat split.
  - rewrite (drive_idle p H L fuel Cancel v0 Hactive (or_introl eq_refl)).
    destruct (Hfinish v0) as (v' & Hv' & Hinv & Hr & Hcb).
    exists v'. split; [rewrite <- Hv'; reflexivity|].
    unfold isActive. rewrite Hinv, Hr, Hcb. subst v0. cbn. rewrite Hactive.
    repeat split.
Qed.

Lemma scrollToPosition_callback_witness :
  exists v',
    View.step viewProps browser alignedLayout 1
      (View.ScrollToPosition 300 instant None (Some 9))
      (viewAfter [(alignedLayout, View.ScrollTo 5 instant None)]) = Some v' /\
    View.scrollCallbackRef v' = None.
Proof.
  destruct (scrollToPosition_callback viewProps browser alignedLayout 1 300
              instant None 9
              (viewAfter [(alignedLayout, View.ScrollTo 5 instant None)]))
    as (v' & Hstep & _ & _ & Hcb).
  { intros a Ha. vm_compute in Ha. injection Ha as <-.
    eexists. vm_compute. reflexivity. }
  exists v'. split; [exact Hstep | exact Hcb].
Defined.

(** X15. A callback waiting in [scrollCallbackRef] while the controller is
    idle is called once, with the first index the virtualizer reports as
    rendered, and is forgotten: a second report calls nothing. *)
Theorem waiting_callback_is_called_once (p : View.Props) (H : Host)
    (L L' : Layout) (fuel : nat) (callback i j : Z) (v : View.State) :
  operationRef (View.controller v) = None ->
  View.scrollCallbackRef v = Some callback ->
  exists v',
    View.run p H fuel
      [(L, View.RenderedIndex i); (L', View.RenderedIndex j)] v = Some v' /\
    View.invocations v' = View.invocations v ++ [(callback, i)] /\
    View.scrollCallbackRef v' = None.
Proof.
  intros Hidle Hcb.
  assert (Hone : forall L0 k v0,
             operationRef (View.controller v0) = None ->
             View.step p H L0 fuel (View.RenderedIndex k) v0
             = Some (View.resolveScrollCallback k v0)).
  { intros L0 k v0 Hidle0. cbn [View.step]. unfold View.handleRenderedIndex.
    destruct (View.wired v0); [|reflexivity].
    rewrite (drive_idle p H L0 fuel (HandleRendered k) v0 Hidle0
               (or_intror (ex_intro _ k eq_refl))).
    unfold handleRenderedResult. rewrite Hidle0. reflexivity. }
  cbn [View.run]. rewrite (Hone L i v Hidle).
  assert (Hidle1 : operationRef (View.controller (View.resolveScrollCallback i v))
                   = None).
  { destruct (resolveScrollCallback_frame i v) as [-> _]. exact Hidle. }
  rewrite (Hone L' j _ Hidle1).
  eexists. split; [reflexivity|].
  unfold View.resolveScrollCallback. rewrite Hcb. cbn.
  split; [|reflexivity].
  unfold View.invocations. cbn. rewrite flat_map_app. reflexivity.
Qed.

Lemma waiting_callback_is_called_once_witness :
  exists v',
    View.run viewProps browser 1
      [(alignedLayout, View.RenderedIndex 4); (alignedLayout, View.RenderedIndex 4)]
      (viewAfter
         [(alignedLayout, View.ScrollToPosition 300 instant (Some 4) (Some 9))])
    = Some v' /\
    View.invocations v' = [(9, 4)].
Proof.
  destruct (waiting_callback_is_called_once viewProps browser alignedLayout
              alignedLayout 1 9 4 4
              (viewAfter
                 [(alignedLayout,
                   View.ScrollToPosition 300 instant (Some 4) (Some 9))]))
    as (v' & Hrun & Hinv & _).
  { vm_compute. reflexivity. }
  { vm_compute. reflexivity. }
  exists v'. split; [exact Hrun | exact Hinv].
Defined.

(** ** Offsets from tracked sizes *)

Lemma Qsum_snoc (l : list Q) (x : Q) : (Qsum (l ++ [x]) == Qsum l + x)%Q.
Proof.
  unfold Qsum. induction l as [|y l IH]; cbn [app fold_right].
  - ring.
  - rewrite IH. ring.
Qed.

Lemma item_nat {A} (array : list A) (n : nat) :
  Sizes.item array (Z.of_nat n) = array !! n.
Proof.
  unfold Sizes.item.
  destruct (Z.ltb_spec (Z.of_nat n) 0); [lia|]. rewrite Nat2Z.id. reflexivity.
Qed.

(** The loop of [getOffsetForIndex] after [n] turns: the effective sizes of
    the first [n] items, and a gap for each of them that is not the last
    before [index]. *)
Lemma offset_loop (s : Sizes.t) (index : Z) (n : nat) :
  (n <= length (Sizes.sizeTrackingArray s))%nat ->
  (fold_left (Sizes.addItem s index) (seqZ 0 (Z.of_nat n)) 0
   == Qsum (map (Sizes.effectiveSize s) (take n (Sizes.sizeTrackingArray s)))
      + Sizes.gap s * inject_Z (Z.max 0 (Z.min (Z.of_nat n) (index - 1))))%Q.
Proof.
  induction n as [|n IH]; intros Hn.
  - change (Z.of_nat 0) with 0. rewrite seqZ_nil by lia.
    replace (Z.max 0 (Z.min 0 (index - 1))) with 0 by lia.
    change (take 0 (Sizes.sizeTrackingArray s)) with (@nil Q).
    unfold Qsum. cbn [fold_left map fold_right].
    change (inject_Z 0) with 0%Q. ring.
  - rewrite seqZ_S, fold_left_app. cbn [fold_left].
    destruct (lookup_lt_is_Some_2 (Sizes.sizeTrackingArray s) n ltac:(lia))
      as [x Hx].
    rewrite (take_S_r _ _ _ Hx), map_app. cbn [map]. rewrite Qsum_snoc.
    unfold Sizes.addItem at 1. rewrite Z.add_0_l, item_nat, Hx.
    fold (Sizes.effectiveSize s x). specialize (IH ltac:(lia)).
    destruct (Qeq_bool (Sizes.gap s) 0) eqn:Hgap; cbn [negb andb].
    + apply Qeq_bool_iff in Hgap. rewrite IH, Hgap. ring.
    + destruct (Z.ltb_spec (Z.of_nat n) (index - 1)); rewrite IH.
      * replace (Z.max 0 (Z.min (Z.of_nat (S n)) (index - 1)))
          with (Z.max 0 (Z.min (Z.of_nat n) (index - 1)) + 1) by lia.
        rewrite inject_Z_plus. change (inject_Z 1) with 1%Q. ring.
      * replace (Z.max 0 (Z.min (Z.of_nat (S n)) (index - 1)))
          with (Z.max 0 (Z.min (Z.of_nat n) (index - 1))) by lia.
        ring.
Qed.

(** The value the loop of [getOffsetForIndex] ends with. *)
Lemma offset_summed (s : Sizes.t) (index : Z) :
  0 < index ->
  (fold_left (Sizes.addItem s index)
     (seqZ 0 (Z.min index (Sizes.len (Sizes.sizeTrackingArray s)))) 0
   == Qsum (map (Sizes.effectiveSize s)
              (take (Z.to_nat index) (Sizes.sizeTrackingArray s)))
      + Sizes.gap s
        * inject_Z (Z.min (index - 1) (Sizes.len (Sizes.sizeTrackingArray s))))%Q.
Proof.
  intros Hpos.
  set (array := Sizes.sizeTrackingArray s). unfold Sizes.len.
  set (n := Nat.min (Z.to_nat index) (length array)).
  replace (Z.min index (Z.of_nat (length array))) with (Z.of_nat n) by lia.
  etransitivity; [apply offset_loop; subst n array; lia|]. fold array.
  replace (take n array) with (take (Z.to_nat index) array).
  - replace (Z.max 0 (Z.min (Z.of_nat n) (index - 1)))
      with (Z.min (index - 1) (Z.of_nat (length array))) by lia.
    reflexivity.
  - subst n. destruct (Nat.le_ge_cases (Z.to_nat index) (length array)).
    + rewrite Nat.min_l by assumption. reflexivity.
    + rewrite Nat.min_r by assumption.
      rewrite !take_ge by lia. reflexivity.
Qed.

Lemma getOffsetForIndex_summed (s : Sizes.t) (index : Z) :
  Sizes.progressiveSizes s = None ->
  0 < index ->
  (Sizes.getOffsetForIndex s index
   == Qsum (map (Sizes.effectiveSize s)
              (take (Z.to_nat index) (Sizes.sizeTrackingArray s)))
      + Sizes.gap s
        * inject_Z (Z.min (index - 1) (Sizes.len (Sizes.sizeTrackingArray s))))%Q.
Proof.
  intros Hnone Hpos. unfold Sizes.getOffsetForIndex. rewrite Hnone.
  destruct (Z.leb_spec index 0); [lia|]. cbv zeta.
  apply offset_summed, Hpos.
Qed.





Lemma effectiveSize_nonneg (s : Sizes.t) (x : Q) :
  (0 <= Sizes.itemSize s)%Q -> (0 <= Sizes.effectiveSize s x)%Q.
Proof.
  intros Hitem. unfold Sizes.effectiveSize.
  destruct (Qltb 0 x) eqn:E; [|exact Hitem].
  apply Qltb_lt in E. apply Qlt_le_weak, E.
Qed.

Lemma Qsum_map_nonneg (f : Q -> Q) (l : list Q) :
  (forall x, (0 <= f x)%Q) -> (0 <= Qsum (map f l))%Q.
Proof.
  intros Hf. unfold Qsum. induction l as [|x l IH]; cbn [map fold_right].
  - apply Qle_refl.
  - replace 0%Q with (0 + 0)%Q by reflexivity.
    apply Qplus_le_compat; [apply Hf | exact IH].
Qed.

Lemma Qsum_take_mono (f : Q -> Q) (l : list Q) (n m : nat) :
  (forall x, (0 <= f x)%Q) -> (n <= m)%nat ->
  (Qsum (map f (take n l)) <= Qsum (map f (take m l)))%Q.
Proof.
  intros Hf. revert n m. induction l as [|x l IH]; intros n m Hnm.
  - rewrite !take_nil. apply Qle_refl.
  - destruct n as [|n].
    + cbn [firstn map]. apply Qsum_map_nonneg, Hf.
    + destruct m as [|m]; [lia|]. cbn [firstn map]. unfold Qsum.
      cbn [fold_right]. apply Qplus_le_compat; [apply Qle_refl|].
      apply IH. lia.
Qed.

(** X17. Without progressive sizes, and with [itemSize] and [gap] that are not
    negative, offsets grow with the index. *)
Theorem getOffsetForIndex_monotone (s : Sizes.t) (index index' : Z) :
  Sizes.progressiveSizes s = None ->
  (0 <= Sizes.itemSize s)%Q -> (0 <= Sizes.gap s)%Q ->
  index <= index' ->
  (Sizes.getOffsetForIndex s index <= Sizes.getOffsetForIndex s index')%Q.
Proof.
  intros Hnone Hitem Hgap Hle.
  assert (Hgaps : forall a b, 0 <= a <= b ->
             (Sizes.gap s * inject_Z a <= Sizes.gap s * inject_Z b)%Q).
  { intros a b Hab. rewrite !(Qmult_comm (Sizes.gap s)).
    apply Qmult_le_compat_r; [|exact Hgap]. rewrite <- Zle_Qle. lia. }
  destruct (Z.leb_spec index 0) as [Hz|Hpos].
  - assert (Hzero : Sizes.getOffsetForIndex s index = 0%Q).
    { unfold Sizes.getOffsetForIndex.
      destruct (Z.leb_spec index 0); [reflexivity | lia]. }
    rewrite Hzero.
    destruct (Z.leb_spec index' 0) as [Hz'|Hpos'].
    + unfold Sizes.getOffsetForIndex.
      destruct (Z.leb_spec index' 0); [apply Qle_refl | lia].
    + rewrite (getOffsetForIndex_summed s index' Hnone Hpos').
      replace 0%Q with (0 + 0)%Q by reflexivity. apply Qplus_le_compat.
      * apply Qsum_map_nonneg. intros x. apply effectiveSize_nonneg, Hitem.
      * change (0 <= Sizes.gap s * inject_Z
                  (Z.min (index' - 1)
                     (Sizes.len (Sizes.sizeTrackingArray s))))%Q.
        apply Qmult_le_0_compat; [exact Hgap|].
        change 0%Q with (inject_Z 0). rewrite <- Zle_Qle.
        unfold Sizes.len. lia.
  - rewrite (getOffsetForIndex_summed s index Hnone Hpos).
    rewrite (getOffsetForIndex_summed s index' Hnone ltac:(lia)).
    apply Qplus_le_compat.
    + apply Qsum_take_mono; [|lia].
      intros x. apply effectiveSize_nonneg, Hitem.
    + apply Hgaps. unfold Sizes.len. lia.
Qed.

Lemma getOffsetForIndex_monotone_witness :
  (Sizes.getOffsetForIndex trackedSizes 1
   <= Sizes.getOffsetForIndex trackedSizes 3)%Q.
Proof.
  apply (getOffsetForIndex_monotone trackedSizes 1 3 eq_refl);
    vm_compute; discriminate.
Defined.

(** X18. For an index from zero on, [getChildSizeAuto] gives the size the
    offsets are summed from: the tracked size when there is one and it is
    positive, [itemSize] otherwise; so a positive [itemSize] makes every
    such size positive.  A negative index gives [undefined]. *)
Theorem getChildSizeAuto_size (s : Sizes.t) (index : Z) :
  (0 <= index ->
   Sizes.getChildSizeAuto s index =
   Some match Sizes.item (Sizes.sizeTrackingArray s) index with
        | Some size => Sizes.effectiveSize s size
        | None => Sizes.itemSize s
        end /\
   ((0 < Sizes.itemSize s)%Q ->
    exists size, Sizes.getChildSizeAuto s index = Some size /\ (0 < size)%Q)) /\
  (index < 0 -> Sizes.getChildSizeAuto s index = None).
Proof.
  assert (Hflip : forall x, Qle_bool x 0 = negb (Qltb 0 x)).
  { intros x. unfold Qltb. rewrite negb_involutive. reflexivity. }
  split.
  - intros Hpos.
    assert (Heq : Sizes.getChildSizeAuto s index =
                  Some match Sizes.item (Sizes.sizeTrackingArray s) index with
                       | Some size => Sizes.effectiveSize s size
                       | None => Sizes.itemSize s
                       end).
    { unfold Sizes.getChildSizeAuto, Sizes.effectiveSize, Sizes.item, Sizes.len.
      destruct (Z.ltb_spec index 0); [lia|].
      destruct (Z.leb_spec (Z.of_nat (length (Sizes.sizeTrackingArray s))) index)
        as [Hout|Hin]; cbn [orb].
      - rewrite lookup_ge_None_2 by lia. reflexivity.
      - destruct (lookup_lt_is_Some_2 (Sizes.sizeTrackingArray s)
                    (Z.to_nat index) ltac:(lia)) as [x Hx].
        rewrite Hx, Hflip. destruct (Qltb 0 x); reflexivity. }
    split; [exact Heq|]. intros Hitem. eexists. split; [exact Heq|].
    destruct (Sizes.item (Sizes.sizeTrackingArray s) index) as [x|];
      [|exact Hitem].
    unfold Sizes.effectiveSize. destruct (Qltb 0 x) eqn:E; [|exact Hitem].
    apply Qltb_lt, E.
  - intros Hneg. unfold Sizes.getChildSizeAuto, Sizes.item, Sizes.len.
    destruct (Z.ltb_spec index 0); [|lia].
    destruct (Z.leb_spec (Z.of_nat (length (Sizes.sizeTrackingArray s))) index);
      [lia | reflexivity].
Qed.
